(** * KnownRounds: a shallow embedding of knownRounds/knownRounds.go

    The Go package tracks which round identifiers have been checked in a
    circular bit buffer.  This file embeds the engine (construction,
    position mapping, [Checked], [Check], [ForceCheck], [Forward], the
    range scans) and the snapshot codec ([Marshal], [Unmarshal]) and
    proves properties of them.

    Conventions.
    - [id.Round] is [uint64]: a [Z] in [0, 2^64), arithmetic wrapped by
      [u64].  [int] is the 64-bit signed integer: a [Z] wrapped by [i64].
      Go's [/] and [%] truncate towards zero: [Z.quot] and [Z.rem].
    - Methods with a pointer receiver are state-passing functions in the
      monad [M]; a run ends in [Done], in a [Panic], or in [OutOfFuel] when
      a loop was given too little fuel.
    - [uint64Buff] (the bit buffer) is declared in a file of the package
      that is not part of the sources at hand; its operations are modelled
      from the specification in [Module BitBuffer]. *)

From Stdlib Require Import ZArith List String Ascii Bool Lia.
From Stdlib.Strings Require Import Byte.
From Stdlib Require Import DecimalString DecimalN.
From stdpp Require Import base list.
Import ListNotations.
Local Open Scope Z_scope.

(* ===================================================================== *)
(** ** Machine integers *)
(* ===================================================================== *)

Definition two64 : Z := 2 ^ 64.
Definition two63 : Z := 2 ^ 63.
Definition MaxUint64 : Z := two64 - 1.

(** Wrap-around of [uint64] arithmetic. *)
Definition u64 (x : Z) : Z := x mod two64.

(** Wrap-around of [int] (64-bit two's complement) arithmetic. *)
Definition i64 (x : Z) : Z := (x + two63) mod two64 - two63.

(** The conversion [int(x)] of a [uint64]. *)
Definition to_int (x : Z) : Z := i64 x.

(** The conversion [id.Round(n)] / [uint64(n)] of an [int]. *)
Definition to_round (n : Z) : Z := u64 n.

(** [abs] of knownRounds.go: [-n] wraps on the most negative [int]. *)
Definition abs (n : Z) : Z := if n <? 0 then i64 (- n) else n.

Definition in_u64 (x : Z) : Prop := 0 <= x < two64.
Definition in_i64 (x : Z) : Prop := - two63 <= x < two63.

(* ===================================================================== *)
(** ** Outcomes of a run *)
(* ===================================================================== *)

Inductive panic : Type :=
| OutOfScope       (* jww.FATAL.Panicf in Check *)
| DivideByZero     (* integer division or remainder by zero *)
| MakeSliceLen     (* make with a negative length *)
| BadBufferBytes   (* uint64Buff unmarshal of a length not a multiple of 8 *).

Inductive outcome (A : Type) : Type :=
| Done (a : A)
| Panic (p : panic)
| OutOfFuel.

Arguments Done {A} a.
Arguments Panic {A} p.
Arguments OutOfFuel {A}.

Definition obind {A B} (o : outcome A) (k : A -> outcome B) : outcome B :=
  match o with
  | Done a => k a
  | Panic p => Panic p
  | OutOfFuel => OutOfFuel
  end.

(** Go's [a / b] and [a % b] on [int]. *)
Definition go_div (a b : Z) : outcome Z :=
  if b =? 0 then Panic DivideByZero else Done (i64 (Z.quot a b)).

Definition go_rem (a b : Z) : outcome Z :=
  if b =? 0 then Panic DivideByZero else Done (Z.rem a b).

(* ===================================================================== *)
(** ** The bit buffer [uint64Buff] *)
(* ===================================================================== *)

Module BitBuffer.

(** A buffer is the sequence of its 64-bit words. *)
Abbreviation t := (list Z).

Definition word_ok (w : Z) : Prop := 0 <= w < two64.
Definition wf (u : t) : Prop := Forall word_ok u.

Definition words (u : t) : Z := Z.of_nat (length u).

(** Capacity in bits, [C = 64 * W]. *)
Definition cap (u : t) : Z := 64 * words u.

Definition word_at (u : t) (b : Z) : Z := nth (Z.to_nat b) u 0.

Definition set_word (u : t) (b : Z) (w : Z) : t := <[Z.to_nat b := w]> u.

(** Modelled from the spec: [convertLoc] of the absent uint64Buff file.
    "returns (block, bitInBlock) = (pos/64, pos mod 64) with pos taken
    mod C". *)
Definition convertLoc (u : t) (pos : Z) : Z * Z :=
  let p := pos mod cap u in (p / 64, p mod 64).

(** Modelled from the spec: [get] of the absent uint64Buff file.  "read
    the bit at absolute position pos.  pos is reduced modulo C.  Bit i
    within a word is (word >> (63 - i)) & 1". *)
Definition get (u : t) (pos : Z) : bool :=
  let '(b, i) := convertLoc u pos in
  Z.land (Z.shiftr (word_at u b) (63 - i)) 1 =? 1.

(** Modelled from the spec: [set] of the absent uint64Buff file.  "write
    1 at pos mod C". *)
Definition set (u : t) (pos : Z) : t :=
  let '(b, i) := convertLoc u pos in
  set_word u b (Z.lor (word_at u b) (Z.shiftl 1 (63 - i))).

(** Modelled from the spec: [clear] of the absent uint64Buff file.
    "write 0 at pos mod C". *)
Definition clear (u : t) (pos : Z) : t :=
  let '(b, i) := convertLoc u pos in
  set_word u b (Z.ldiff (word_at u b) (Z.shiftl 1 (63 - i))).

Fixpoint clear_run (u : t) (pos : Z) (n : nat) : t :=
  match n with
  | O => u
  | S n' => clear_run (clear u pos) (pos + 1) n'
  end.

(** Modelled from the spec: [clearRange] of the absent uint64Buff file.
    "clear bits at absolute positions start, start+1, ..., end - 1, each
    taken mod C.  Wrap is legal (may cross the buffer end).  If start ==
    end the range is empty". *)
Definition clearRange (u : t) (start stop : Z) : t :=
  clear_run u start (Z.to_nat ((stop - start) mod cap u)).

(** Modelled from the spec: [delta] of the absent uint64Buff file.  "the
    number of whole 64-bit words spanned by the range [start, end]
    measured circularly forward from start's word to end's word
    inclusive.  Defined as ((endBlock - startBlock) mod W) + 1 where
    block = pos/64". *)
Definition delta (u : t) (start stop : Z) : Z :=
  (fst (convertLoc u stop) - fst (convertLoc u start)) mod words u + 1.

Fixpoint copy_run (src dst : t) (from to : Z) (n : nat) : t :=
  match n with
  | O => dst
  | S n' =>
      copy_run src (if get src from then set dst to else dst)
               (from + 1) (to + 1) n'
  end.

(** Modelled from the spec: [copy] of the absent uint64Buff file.
    "produce a new, non-circular, zero-based BitBuffer containing bits
    start, start+1, ..., end - 1 aligned to its bit 0.  The new buffer
    has exactly delta(start, end) words; bits beyond the copied range
    are zero-padded". *)
Definition copy (u : t) (start stop : Z) : t :=
  copy_run u (replicate (Z.to_nat (delta u start stop)) 0) start 0
           (Z.to_nat ((stop - start) mod cap u)).

(** Modelled from the spec: [extend] of the absent uint64Buff file.
    "return a BitBuffer of exactly n words, copying self's words into
    the low positions and zero-padding; if self already has >= n words
    it is returned unchanged". *)
Definition extend (u : t) (n : Z) : t :=
  if n <=? words u then u
  else u ++ replicate (Z.to_nat (n - words u)) 0.

(** Modelled from the spec: [implies] of the absent uint64Buff file.
    "pointwise (not self) | other over min-length words, yielding a
    BitBuffer of min(len(self), len(other)) words". *)
Fixpoint implies (u other : t) : t :=
  match u, other with
  | a :: u', b :: other' =>
      Z.lor (Z.lxor a MaxUint64) b :: implies u' other'
  | _, _ => []
  end.

(** The eight bytes of a word, most significant first. *)
Definition word_bytes (w : Z) : list byte :=
  map (fun k => match Byte.of_N (Z.to_N ((w / 2 ^ (8 * k)) mod 256)) with
                | Some b => b
                | None => x00
                end)
      [7; 6; 5; 4; 3; 2; 1; 0].

(** Modelled from the spec: [marshal] of the absent uint64Buff file.
    "big-endian concatenation of words into 8*W bytes". *)
Definition marshal (u : t) : list byte := flat_map word_bytes u.

Definition bytes_word (bs : list byte) : Z :=
  fold_left (fun acc b => acc * 256 + Z.of_N (Byte.to_N b)) bs 0.

Fixpoint unmarshal_run (n : nat) (bs : list byte) : t :=
  match n with
  | O => []
  | S n' => bytes_word (firstn 8 bs) :: unmarshal_run n' (skipn 8 bs)
  end.

(** Modelled from the spec: [unmarshal] of the absent uint64Buff file.
    "inverse [of marshal]; length must be a multiple of 8".  The Go
    function returns no error value, so a bad length can only be a
    panic. *)
Definition unmarshal (bs : list byte) : outcome t :=
  if (Z.of_nat (length bs) mod 8 =? 0)
  then Done (unmarshal_run (Nat.div (length bs) 8) bs)
  else Panic BadBufferBytes.

End BitBuffer.

(* ===================================================================== *)
(** ** The KnownRounds state *)
(* ===================================================================== *)

Record KnownRounds : Type := mkKR {
  bitStream : BitBuffer.t;   (* buffer of checked/unchecked rounds *)
  firstUnchecked : Z;        (* id.Round *)
  lastChecked : Z;           (* id.Round *)
  fuPos : Z                  (* int: bit position of firstUnchecked *)
}.

Definition with_bitStream (u : BitBuffer.t) (kr : KnownRounds) :=
  mkKR u (firstUnchecked kr) (lastChecked kr) (fuPos kr).
Definition with_firstUnchecked (r : Z) (kr : KnownRounds) :=
  mkKR (bitStream kr) r (lastChecked kr) (fuPos kr).
Definition with_lastChecked (r : Z) (kr : KnownRounds) :=
  mkKR (bitStream kr) (firstUnchecked kr) r (fuPos kr).
Definition with_fuPos (p : Z) (kr : KnownRounds) :=
  mkKR (bitStream kr) (firstUnchecked kr) (lastChecked kr) p.

(** The state monad of the methods of [*KnownRounds]. *)
Definition M (A : Type) : Type := KnownRounds -> outcome (A * KnownRounds).

Definition ret {A} (a : A) : M A := fun kr => Done (a, kr).

Definition bind {A B} (m : M A) (k : A -> M B) : M B :=
  fun kr => match m kr with
            | Done (a, kr') => k a kr'
            | Panic p => Panic p
            | OutOfFuel => OutOfFuel
            end.

Declare Scope kr_scope.
Delimit Scope kr_scope with kr.
Notation "x <- m ;; k" := (bind m (fun x => k))
  (at level 100, m at next level, right associativity) : kr_scope.
Notation "m ;; k" := (bind m (fun _ => k))
  (at level 100, right associativity) : kr_scope.
Local Open Scope kr_scope.

Definition getS : M KnownRounds := fun kr => Done (kr, kr).
Definition modify (f : KnownRounds -> KnownRounds) : M unit :=
  fun kr => Done (tt, f kr).
Definition lift {A} (o : outcome A) : M A :=
  fun kr => match o with
            | Done a => Done (a, kr)
            | Panic p => Panic p
            | OutOfFuel => OutOfFuel
            end.
Definition throw {A} (p : panic) : M A := fun _ => Panic p.

(* ===================================================================== *)
(** ** The engine *)
(* ===================================================================== *)

(** [NewKnownRound]: [make] panics on a negative length. *)
Definition NewKnownRound (roundCapacity : Z) : outcome KnownRounds :=
  let n := i64 (Z.quot (i64 (roundCapacity + 63)) 64) in
  if n <? 0 then Panic MakeSliceLen
  else Done (mkKR (replicate (Z.to_nat n) 0) 0 0 0).

(** [Len]: the number of round ids the buffer can hold.  A slice of
    64-bit words has fewer than 2^57 elements, so the product does not
    wrap. *)
Definition Len (kr : KnownRounds) : Z := BitBuffer.words (bitStream kr) * 64.

(** [getBitStreamPos]: the position of the bit of [rid]; it only reads
    the state. *)
Definition getBitStreamPos (kr : KnownRounds) (rid : Z) : outcome Z :=
  let delta :=
    if rid <? firstUnchecked kr
    then i64 (- to_int (u64 (firstUnchecked kr - rid)))
    else to_int (u64 (rid - firstUnchecked kr)) in
  go_rem (i64 (fuPos kr + delta)) (Len kr).

Definition bitPos (rid : Z) : M Z := fun kr => lift (getBitStreamPos kr rid) kr.

(** [Checked]: has the round been checked? *)
Definition Checked (rid : Z) : M bool :=
  kr <- getS ;;
  if rid <? firstUnchecked kr then ret true
  else if lastChecked kr <? rid then ret false
  else
    pos <- bitPos rid ;;
    ret (BitBuffer.get (bitStream kr) pos).

(** The loop of [migrateFirstUnchecked]:
    [for ; kr.bitStream.get(kr.getBitStreamPos(rid)) && rid < kr.lastChecked; rid++ {}]. *)
Fixpoint migrate_loop (fuel : nat) (kr : KnownRounds) (rid : Z) : outcome Z :=
  obind (getBitStreamPos kr rid) (fun pos =>
    if BitBuffer.get (bitStream kr) pos && (rid <? lastChecked kr)
    then match fuel with
         | O => OutOfFuel
         | S fuel' => migrate_loop fuel' kr (u64 (rid + 1))
         end
    else Done rid).

(** [migrateFirstUnchecked]: the loop runs at most [lastChecked - rid]
    times, which is the fuel it is given. *)
Definition migrateFirstUnchecked (rid : Z) : M unit :=
  kr <- getS ;;
  r <- lift (migrate_loop (Z.to_nat (lastChecked kr - rid)) kr rid) ;;
  pos <- bitPos r ;;
  modify (with_fuPos pos) ;;
  modify (with_firstUnchecked r).

(** [Forward]: sets all rounds before [rid] as checked. *)
Definition Forward (rid : Z) : M unit :=
  kr <- getS ;;
  if lastChecked kr <? rid then
    modify (with_firstUnchecked rid) ;;
    modify (with_lastChecked rid) ;;
    modify (with_fuPos (to_int (rid mod 64)))
  else if firstUnchecked kr <=? rid then migrateFirstUnchecked rid
  else ret tt.

Definition bs_set (pos : Z) : M unit :=
  modify (fun kr => with_bitStream (BitBuffer.set (bitStream kr) pos) kr).
Definition bs_clear (pos : Z) : M unit :=
  modify (fun kr => with_bitStream (BitBuffer.clear (bitStream kr) pos) kr).
Definition bs_clearRange (start stop : Z) : M unit :=
  modify (fun kr => with_bitStream (BitBuffer.clearRange (bitStream kr) start stop) kr).

(** The second step of [check]: a newer round becomes the last checked
    one and the rounds that enter the buffer are unchecked.
    [if rid > kr.lastChecked { ... }] *)
Definition extend_window (rid pos : Z) : M unit :=
  kr <- getS ;;
  if lastChecked kr <? rid then
    start <- bitPos (u64 (lastChecked kr + 1)) ;;
    bs_clearRange start pos ;;
    modify (with_lastChecked rid)
  else ret tt.

(** The third step of [check]: the first unchecked round moves when it is
    the round just checked.
    [if kr.getBitStreamPos(kr.firstUnchecked) == pos { ... }] *)
Definition advance_first (rid pos : Z) : M unit :=
  kr <- getS ;;
  fp <- bitPos (firstUnchecked kr) ;;
  if fp =? pos then
    lp <- bitPos (lastChecked kr) ;;
    if lp =? pos then
      np <- bitPos (u64 (rid + 1)) ;;
      modify (with_fuPos np) ;;
      modify (with_firstUnchecked (u64 (rid + 1))) ;;
      modify (with_lastChecked (u64 (rid + 1))) ;;
      bs_clear np
    else migrateFirstUnchecked rid
  else ret tt.

(** The fourth step of [check]: the round has lapped the first unchecked
    one.
    [if rid > kr.firstUnchecked && (rid-kr.firstUnchecked) >= id.Round(kr.Len()) { ... }] *)
Definition handle_lapse (rid : Z) : M unit :=
  kr <- getS ;;
  if (firstUnchecked kr <? rid)
     && (to_round (Len kr) <=? u64 (rid - firstUnchecked kr)) then
    let newFu := u64 (u64 (rid + 1) - to_round (Len kr)) in
    np <- bitPos newFu ;;
    modify (with_fuPos np) ;;
    modify (with_firstUnchecked newFu) ;;
    migrateFirstUnchecked rid
  else ret tt.

(** [check]: the body shared by [Check] and [ForceCheck]. *)
Definition check (rid : Z) : M unit :=
  kr <- getS ;;
  if rid <? firstUnchecked kr then ret tt
  else
    pos <- bitPos rid ;;
    bs_set pos ;;
    extend_window rid pos ;;
    advance_first rid pos ;;
    handle_lapse rid ;;
    bs_set pos.

(** The guard of [Check] and [ForceCheck]:
    [abs(int(kr.lastChecked-rid))/(len(kr.bitStream)*64) > 0]. *)
Definition out_of_scope (rid : Z) : M bool :=
  kr <- getS ;;
  q <- lift (go_div (abs (to_int (u64 (lastChecked kr - rid))))
                    (BitBuffer.words (bitStream kr) * 64)) ;;
  ret (0 <? q).

(** [Check]: the strict form. *)
Definition Check (rid : Z) : M unit :=
  far <- out_of_scope rid ;;
  if far then throw OutOfScope else check rid.

(** [ForceCheck]: the sliding form. *)
Definition ForceCheck (rid : Z) : M unit :=
  far <- out_of_scope rid ;;
  kr <- getS ;;
  (if far
   then Forward (u64 (rid - to_round (BitBuffer.words (bitStream kr) * 64)))
   else ret tt) ;;
  check rid.

(* ===================================================================== *)
(** ** Range scans *)
(* ===================================================================== *)

(** The local variables of [RangeUnchecked], with the list of the rounds
    on which [roundCheck] has been invoked so far, oldest first. *)
Record scan : Type := mkScan {
  numChecked : Z;         (* uint *)
  earliestChecked : Z;    (* id.Round *)
  calls : list Z
}.

(** A loop body either returns from the function or goes on. *)
Inductive flow : Type :=
| Return (r : Z) (cs : list Z)
| Continue (s : scan).

Definition lower (i : Z) (s : scan) : scan :=
  mkScan (numChecked s) (if i <? earliestChecked s then i else earliestChecked s)
         (calls s).

(** [if !roundCheck(i) && i < earliestChecked { earliestChecked = i }; numChecked++] *)
Definition ask (roundCheck : Z -> bool) (i : Z) (s : scan) : scan :=
  mkScan (u64 (numChecked s + 1))
         (if negb (roundCheck i) && (i <? earliestChecked s)
          then i else earliestChecked s)
         (calls s ++ [i]).

(** The budget test at the head of both loop bodies. *)
Definition exhausted (maxChecked : Z) (i : Z) (s : scan) : option flow :=
  if maxChecked <=? numChecked s
  then Some (Return (earliestChecked (lower i s)) (calls s))
  else None.

(** The loop over the rounds before the buffer:
    [for i := oldestUnknown; i < kr.firstUnchecked; i++]. *)
Fixpoint before_loop (fuel : nat) (fu maxChecked : Z) (roundCheck : Z -> bool)
    (i : Z) (s : scan) : outcome flow :=
  if i <? fu then
    match fuel with
    | O => OutOfFuel
    | S fuel' =>
        match exhausted maxChecked i s with
        | Some r => Done r
        | None => before_loop fuel' fu maxChecked roundCheck (u64 (i + 1))
                              (ask roundCheck i s)
        end
    end
  else Done (Continue s).

(** One pass through the body of the loop over the buffer. *)
Definition window_body (maxChecked : Z) (roundCheck : Z -> bool)
    (i : Z) (s : scan) : M flow :=
  match exhausted maxChecked i s with
  | Some r => ret r
  | None =>
      c <- Checked i ;;
      if negb c then ret (Continue (lower i s))
      else ret (Continue (ask roundCheck i s))
  end.

(** The loop over the buffer: [for i := newestRound; i <= kr.lastChecked; i++]. *)
Fixpoint window_loop (fuel : nat) (maxChecked : Z) (roundCheck : Z -> bool)
    (i : Z) (s : scan) : M flow :=
  kr <- getS ;;
  if i <=? lastChecked kr then
    match fuel with
    | O => fun _ => OutOfFuel
    | S fuel' =>
        f <- window_body maxChecked roundCheck i s ;;
        match f with
        | Return r cs => ret (Return r cs)
        | Continue s' => window_loop fuel' maxChecked roundCheck (u64 (i + 1)) s'
        end
    end
  else ret (Continue s).

(** [RangeUnchecked]: the round to resume from, and the rounds on which
    [roundCheck] was invoked.  [fuel] bounds the passes of the second
    loop, whose counter wraps when [lastChecked] is the largest round. *)
Definition RangeUnchecked (fuel : nat) (oldestUnknown maxChecked : Z)
    (roundCheck : Z -> bool) : M (Z * list Z) :=
  kr <- getS ;;
  let s0 := mkScan 0 MaxUint64 [] in
  if lastChecked kr <? oldestUnknown then ret (oldestUnknown, [])
  else
    let newestRound :=
      if firstUnchecked kr <? oldestUnknown then oldestUnknown
      else firstUnchecked kr in
    f1 <- (if oldestUnknown <? firstUnchecked kr
           then lift (before_loop (Z.to_nat (firstUnchecked kr - oldestUnknown))
                                  (firstUnchecked kr) maxChecked roundCheck
                                  oldestUnknown s0)
           else ret (Continue s0)) ;;
    match f1 with
    | Return r cs => ret (r, cs)
    | Continue s1 =>
        f2 <- (if firstUnchecked kr <=? newestRound
               then window_loop fuel maxChecked roundCheck newestRound s1
               else ret (Continue s1)) ;;
        match f2 with
        | Return r cs => ret (r, cs)
        | Continue s2 =>
            let e := if u64 (lastChecked kr + 1) <? earliestChecked s2
                     then lastChecked kr else earliestChecked s2 in
            ret (u64 (e + 1), calls s2)
        end
    end.

(** [subSample]: a copy of the buffer between two rounds and its length. *)
Definition subSample (start stop : Z) : M (BitBuffer.t * Z) :=
  kr <- getS ;;
  p1 <- bitPos start ;;
  p2 <- bitPos stop ;;
  let numBlocks := BitBuffer.delta (bitStream kr) p1 p2 in
  if lastChecked kr <? start
  then ret (replicate (Z.to_nat numBlocks) 0, numBlocks)
  else
    let copyEnd := if lastChecked kr <? stop then lastChecked kr else stop in
    q1 <- bitPos start ;;
    q2 <- bitPos (u64 (copyEnd + 1)) ;;
    let buff := BitBuffer.copy (bitStream kr) q1 q2 in
    ret (BitBuffer.extend buff numBlocks, abs (to_int (u64 (stop - start)))).

(** The masked scans work on two objects, the receiver and the mask; they
    are taken to be distinct. *)
Definition M2 (A : Type) : Type :=
  KnownRounds * KnownRounds -> outcome (A * (KnownRounds * KnownRounds)).

Definition on_self {A} (m : M A) : M2 A :=
  fun '(kr, mask) => obind (m kr) (fun '(a, kr') => Done (a, (kr', mask))).
Definition on_mask {A} (m : M A) : M2 A :=
  fun '(kr, mask) => obind (m mask) (fun '(a, mask') => Done (a, (kr, mask'))).
Definition bind2 {A B} (m : M2 A) (k : A -> M2 B) : M2 B :=
  fun st => obind (m st) (fun '(a, st') => k a st').

(** Modelled from the spec: [get] of the absent uint64Buff file, on a
    buffer that may have no words ([result] of the masked scan): "pos is
    reduced modulo C", which divides by zero when [C] is 0. *)
Definition get_bit (u : BitBuffer.t) (pos : Z) : outcome bool :=
  if BitBuffer.cap u =? 0 then Panic DivideByZero
  else Done (BitBuffer.get u pos).

(** The first loop of [RangeUncheckedMaskedRange]:
    [for i := ...; i >= mask.firstUnchecked && numChecked < maxChecked;
         i, numChecked = i-1, numChecked+1]. *)
Fixpoint mask_loop (fuel : nat) (result : BitBuffer.t) (roundCheck : Z -> bool)
    (maxChecked i numChecked : Z) : M2 Z :=
  fun '(kr, mask) =>
    if (firstUnchecked mask <=? i) && (numChecked <? maxChecked) then
      match fuel with
      | O => OutOfFuel
      | S fuel' =>
          obind (get_bit result (to_int (u64 (i - firstUnchecked mask)))) (fun b =>
          obind (if negb b && roundCheck i then Check i kr else Done (tt, kr))
                (fun '(_, kr') =>
                   mask_loop fuel' result roundCheck maxChecked
                             (u64 (i - 1)) (i64 (numChecked + 1)) (kr', mask)))
      end
    else Done (numChecked, (kr, mask)).

(** The second loop:
    [for i := start; i < end && numChecked < maxChecked;
         i, numChecked = i+1, numChecked+1]. *)
Fixpoint tail_loop (fuel : nat) (roundCheck : Z -> bool)
    (stop maxChecked i numChecked : Z) : M unit :=
  if (i <? stop) && (numChecked <? maxChecked) then
    match fuel with
    | O => fun _ => OutOfFuel
    | S fuel' =>
        c <- Checked i ;;
        (if negb c && roundCheck i then Check i else ret tt) ;;
        tail_loop fuel' roundCheck stop maxChecked (u64 (i + 1)) (i64 (numChecked + 1))
    end
  else ret tt.

(** [RangeUncheckedMaskedRange]: each loop runs at most [maxChecked]
    times, which is the fuel it is given. *)
Definition RangeUncheckedMaskedRange (roundCheck : Z -> bool)
    (start stop maxChecked : Z) : M2 unit :=
  fun '(kr, mask) =>
    obind
      (if negb (firstUnchecked mask =? lastChecked mask) then
         bind2 (on_mask (Forward (firstUnchecked kr))) (fun _ =>
         fun '(kr1, mask1) =>
           bind2 (on_self (subSample (firstUnchecked mask1) (lastChecked mask1)))
             (fun '(sub, delta) =>
                let result := BitBuffer.implies sub (bitStream mask1) in
                mask_loop (Z.to_nat maxChecked) result roundCheck maxChecked
                          (u64 (firstUnchecked mask1 + to_round delta - 1)) 0)
             (kr1, mask1))
         (kr, mask)
       else Done (0, (kr, mask)))
      (fun '(numChecked, (kr2, mask2)) =>
         let start' := if start <? firstUnchecked kr2 then firstUnchecked kr2 else start in
         let stop' := if firstUnchecked mask2 <? stop then firstUnchecked mask2 else stop in
         obind (tail_loop (Z.to_nat (maxChecked - numChecked)) roundCheck
                          stop' maxChecked start' numChecked kr2)
               (fun '(_, kr3) => Done (tt, (kr3, mask2)))).

(** [RangeUncheckedMasked]: the whole range of round ids. *)
Definition RangeUncheckedMasked (roundCheck : Z -> bool) (maxChecked : Z) : M2 unit :=
  RangeUncheckedMaskedRange roundCheck 0 MaxUint64 maxChecked.

(* ===================================================================== *)
(** ** The JSON envelope *)
(* ===================================================================== *)

(** [DiskKnownRounds]: the intermediary of [Marshal] and [Unmarshal].
    Its [BitStream] field has the Go type [[]byte]. *)
Record DiskKnownRounds : Type := mkDKR {
  BitStream : list byte;
  FirstUnchecked : Z;     (* uint64 *)
  LastChecked : Z         (* uint64 *)
}.

(** encoding/json is not code of the package.  [Json] models what it does
    on a [DiskKnownRounds]: a [[]byte] field is written as a JSON string
    holding its standard base64 encoding (with padding), a [uint64] field
    as its decimal digits, the fields in the order of their declaration.
    The decoder reads back texts of that one shape; a JSON text in any
    other layout is reported as an error. *)
Module Json.

Definition text : Type := list ascii.

Definition lit (s : string) : text := list_ascii_of_string s.

Definition dquote : ascii := ascii_of_nat 34.

Definition b64_alphabet : text :=
  lit "ABCDEFGHIJKLMNOPQRSTUVWXYZabcdefghijklmnopqrstuvwxyz0123456789+/".

Definition pad : ascii := "="%char.

Definition b64_char (n : Z) : ascii := nth (Z.to_nat n) b64_alphabet pad.

Fixpoint index_of (c : ascii) (l : text) (k : Z) : option Z :=
  match l with
  | [] => None
  | d :: l' => if Ascii.eqb c d then Some k else index_of c l' (k + 1)
  end.

Definition b64_val (c : ascii) : option Z := index_of c b64_alphabet 0.

Definition byte_val (b : byte) : Z := Z.of_N (Byte.to_N b).

Definition byte_of (z : Z) : byte :=
  match Byte.of_N (Z.to_N z) with
  | Some b => b
  | None => x00
  end.

(** Three bytes make four characters. *)
Definition enc3 (a b c : Z) : text :=
  [ b64_char (a / 4);
    b64_char ((a mod 4) * 16 + b / 16);
    b64_char ((b mod 16) * 4 + c / 64);
    b64_char (c mod 64) ].

Fixpoint base64_encode (bs : list byte) : text :=
  match bs with
  | [] => []
  | [a] =>
      [ b64_char (byte_val a / 4); b64_char ((byte_val a mod 4) * 16); pad; pad ]
  | [a; b] =>
      [ b64_char (byte_val a / 4);
        b64_char ((byte_val a mod 4) * 16 + byte_val b / 16);
        b64_char ((byte_val b mod 16) * 4); pad ]
  | a :: b :: c :: rest =>
      enc3 (byte_val a) (byte_val b) (byte_val c) ++ base64_encode rest
  end.

Definition dec3 (s1 s2 s3 s4 : Z) : list byte :=
  [ byte_of (s1 * 4 + s2 / 16);
    byte_of ((s2 mod 16) * 16 + s3 / 4);
    byte_of ((s3 mod 4) * 64 + s4) ].

Fixpoint base64_decode (s : text) : option (list byte) :=
  match s with
  | [] => Some []
  | c1 :: c2 :: c3 :: c4 :: rest =>
      match b64_val c1, b64_val c2 with
      | Some s1, Some s2 =>
          match b64_val c3, b64_val c4 with
          | Some s3, Some s4 =>
              match base64_decode rest with
              | Some bs => Some (dec3 s1 s2 s3 s4 ++ bs)
              | None => None
              end
          | Some s3, None =>
              if Ascii.eqb c4 pad && (match rest with [] => true | _ => false end)
              then Some (firstn 2 (dec3 s1 s2 s3 0)) else None
          | None, _ =>
              if Ascii.eqb c3 pad && Ascii.eqb c4 pad
                 && (match rest with [] => true | _ => false end)
              then Some (firstn 1 (dec3 s1 s2 0 0)) else None
          end
      | _, _ => None
      end
  | _ => None
  end.

(** The decimal digits of a [uint64]. *)
Definition digits (n : Z) : text :=
  lit (NilEmpty.string_of_uint (N.to_uint (Z.to_N n))).

Definition is_digit (c : ascii) : bool :=
  let n := N_of_ascii c in ((48 <=? n) && (n <=? 57))%N.

Fixpoint is_text (a b : text) : bool :=
  match a, b with
  | [], [] => true
  | c :: a', d :: b' => Ascii.eqb c d && is_text a' b'
  | _, _ => false
  end.

Definition parse_u64 (s : text) : option Z :=
  match s with
  | [] => None
  | _ =>
      match NilEmpty.uint_of_string (string_of_list_ascii s) with
      | Some d =>
          let n := Z.of_N (N.of_uint d) in
          if (n <? two64) && is_text (digits n) s
          then Some n else None
      | None => None
      end
  end.

Fixpoint strip_prefix (p s : text) : option text :=
  match p with
  | [] => Some s
  | c :: p' =>
      match s with
      | d :: s' => if Ascii.eqb c d then strip_prefix p' s' else None
      | [] => None
      end
  end.

Fixpoint span (f : ascii -> bool) (s : text) : text * text :=
  match s with
  | [] => ([], [])
  | c :: s' =>
      if f c then let '(a, b) := span f s' in (c :: a, b) else ([], s)
  end.

Definition key (name : string) : text := dquote :: lit name ++ [dquote; ":"%char].

(** [json.Marshal] on a [DiskKnownRounds]. *)
Definition Marshal_text (d : DiskKnownRounds) : text :=
  lit "{" ++ key "BitStream" ++ [dquote] ++ base64_encode (BitStream d) ++ [dquote]
  ++ lit "," ++ key "FirstUnchecked" ++ digits (FirstUnchecked d)
  ++ lit "," ++ key "LastChecked" ++ digits (LastChecked d)
  ++ lit "}".

Definition Marshal (d : DiskKnownRounds) : string :=
  string_of_list_ascii (Marshal_text d).

Definition opt_bind {A B} (o : option A) (k : A -> option B) : option B :=
  match o with Some a => k a | None => None end.

(** [json.Unmarshal] into a [DiskKnownRounds], on the texts that
    [Marshal] writes. *)
Definition Unmarshal_text (s : text) : option DiskKnownRounds :=
  opt_bind (strip_prefix (lit "{" ++ key "BitStream" ++ [dquote]) s) (fun s1 =>
  let '(b64, s2) := span (fun c => negb (Ascii.eqb c dquote)) s1 in
  opt_bind (base64_decode b64) (fun bytes =>
  opt_bind (strip_prefix ([dquote] ++ lit "," ++ key "FirstUnchecked") s2) (fun s3 =>
  let '(d1, s4) := span is_digit s3 in
  opt_bind (parse_u64 d1) (fun fu =>
  opt_bind (strip_prefix (lit "," ++ key "LastChecked") s4) (fun s5 =>
  let '(d2, s6) := span is_digit s5 in
  opt_bind (parse_u64 d2) (fun lc =>
  if is_text s6 (lit "}") then Some (mkDKR bytes fu lc) else None)))))).

Definition Unmarshal (s : string) : option DiskKnownRounds :=
  Unmarshal_text (list_ascii_of_string s).

End Json.

(* ===================================================================== *)
(** ** The snapshot codec *)
(* ===================================================================== *)

(** The words between [firstUnchecked] and [lastChecked]:
    [bitStream[i] = kr.bitStream[(i+startBlock)%len(kr.bitStream)]]. *)
Definition compress (u : BitBuffer.t) (startBlock length : Z) : BitBuffer.t :=
  map (fun i => BitBuffer.word_at u (Z.rem (i + startBlock) (BitBuffer.words u)))
      (seqZ 0 length).

(** [Marshal]: the JSON encoding of the compressed state.  [json.Marshal]
    reports no error on a [DiskKnownRounds], so the error result is always
    nil and only the data is kept. *)
Definition Marshal : M string :=
  kr <- getS ;;
  startPos <- bitPos (firstUnchecked kr) ;;
  endPos <- bitPos (lastChecked kr) ;;
  let length := BitBuffer.delta (bitStream kr) startPos endPos in
  let startBlock := fst (BitBuffer.convertLoc (bitStream kr) startPos) in
  let stream := compress (bitStream kr) startBlock length in
  ret (Json.Marshal (mkDKR (BitBuffer.marshal stream)
                           (u64 (firstUnchecked kr)) (u64 (lastChecked kr)))).

(** The errors that [Unmarshal] returns. *)
Inductive error : Type :=
| JsonError
| BufferTooSmall (have got : Z).

(** Go's built-in [copy(dst, src)] on slices. *)
Definition go_copy (dst src : BitBuffer.t) : BitBuffer.t :=
  firstn (length dst) src ++ skipn (length src) dst.

(** [Unmarshal]: [None] is the nil error. *)
Definition Unmarshal (data : string) : M (option error) :=
  match Json.Unmarshal data with
  | None => ret (Some JsonError)
  | Some dkr =>
      stream <- lift (BitBuffer.unmarshal (BitStream dkr)) ;;
      kr <- getS ;;
      if BitBuffer.words (bitStream kr) =? 0 then
        modify (with_bitStream stream) ;;
        modify (fun kr => with_bitStream (go_copy (bitStream kr) stream) kr) ;;
        modify (with_firstUnchecked (FirstUnchecked dkr)) ;;
        modify (with_lastChecked (LastChecked dkr)) ;;
        modify (with_fuPos (to_int (FirstUnchecked dkr mod 64))) ;;
        ret None
      else if BitBuffer.words stream <=? BitBuffer.words (bitStream kr) then
        modify (fun kr => with_bitStream (go_copy (bitStream kr) stream) kr) ;;
        modify (fun kr => with_bitStream (go_copy (bitStream kr) stream) kr) ;;
        modify (with_firstUnchecked (FirstUnchecked dkr)) ;;
        modify (with_lastChecked (LastChecked dkr)) ;;
        modify (with_fuPos (to_int (FirstUnchecked dkr mod 64))) ;;
        ret None
      else
        ret (Some (BufferTooSmall (BitBuffer.words (bitStream kr))
                                  (BitBuffer.words stream)))
  end.

(* ===================================================================== *)
(** ** Vocabulary of the statements *)
(* ===================================================================== *)

(** A run that finishes: from every state that satisfies [P] the
    computation [m] ends in [Done], with a result and a state that
    satisfy [Q]. *)
Definition hoare {A} (P : KnownRounds -> Prop) (m : M A)
    (Q : A -> KnownRounds -> Prop) : Prop :=
  forall kr, P kr -> exists a kr', m kr = Done (a, kr') /\ Q a kr'.

(** What the operations keep: the number of words, and [lastChecked] a
    [uint64]. *)
Definition shape (W : Z) (kr : KnownRounds) : Prop :=
  BitBuffer.words (bitStream kr) = W /\ in_u64 (lastChecked kr).

(** The cursors are in order, on a buffer of [W] words. *)
Definition ordered (W : Z) (kr : KnownRounds) : Prop :=
  shape W kr /\ firstUnchecked kr <= lastChecked kr.

(** A call of a public operation of the engine. *)
Inductive call : Type :=
| CallCheck (rid : Z)
| CallForceCheck (rid : Z)
| CallForward (rid : Z)
| CallRangeUnchecked (fuel : nat) (oldestUnknown maxChecked : Z) (roundCheck : Z -> bool).

Definition run_call (c : call) : M unit :=
  match c with
  | CallCheck rid => Check rid
  | CallForceCheck rid => ForceCheck rid
  | CallForward rid => Forward rid
  | CallRangeUnchecked fuel o m f => _ <- RangeUnchecked fuel o m f ;; ret tt
  end.

Fixpoint run_calls (cs : list call) : M unit :=
  match cs with
  | [] => ret tt
  | c :: cs' => run_call c ;; run_calls cs'
  end.

(** The rounds of the call are round ids, and a round that is checked is
    not the largest round id. *)
Definition below_max (c : call) : Prop :=
  match c with
  | CallCheck rid | CallForceCheck rid => 0 <= rid < MaxUint64
  | CallForward rid => in_u64 rid
  | CallRangeUnchecked _ _ _ _ => True
  end.

(** The states of the data model that [Check] is considered on: a buffer
    of [W >= 1] words, [fuPos] a position of the buffer, the cursors in
    order and less than the capacity apart. *)
Definition window_ok (kr : KnownRounds) : Prop :=
  1 <= BitBuffer.words (bitStream kr) < 2 ^ 55
  /\ in_u64 (firstUnchecked kr) /\ in_u64 (lastChecked kr)
  /\ 0 <= fuPos kr < Len kr
  /\ firstUnchecked kr <= lastChecked kr
  /\ lastChecked kr - firstUnchecked kr < Len kr.

(** The states of the data model that a snapshot is taken of: the buffer
    holds 64-bit words, [fuPos] is a position of the buffer congruent to
    [firstUnchecked] modulo 64, [firstUnchecked <= lastChecked + 1], and
    the cursors are less than the capacity apart. *)
Definition snapshot_ok (kr : KnownRounds) : Prop :=
  1 <= BitBuffer.words (bitStream kr) < 2 ^ 55
  /\ BitBuffer.wf (bitStream kr)
  /\ in_u64 (firstUnchecked kr) /\ in_u64 (lastChecked kr)
  /\ 0 <= fuPos kr < Len kr
  /\ fuPos kr mod 64 = firstUnchecked kr mod 64
  /\ firstUnchecked kr <= lastChecked kr + 1
  /\ lastChecked kr - firstUnchecked kr < Len kr.

(** The answer of [Checked] as a boolean. *)
Definition checked_bit (kr : KnownRounds) (i : Z) : bool :=
  match Checked i kr with
  | Done (b, _) => b
  | _ => false
  end.

Definition calls_of (f : flow) : list Z :=
  match f with
  | Return _ cs => cs
  | Continue s => calls s
  end.

(** Rounds 1 and 3 checked, rounds 0 and 2 not. *)
Definition scan_test_state : KnownRounds := mkKR [5764607523034234880] 0 3 0.

(** The buffer and the state that the tests of knownRounds_test.go start
    from. *)
Definition test_buffer : BitBuffer.t := [0; MaxUint64; 0; MaxUint64; 0].
Definition test_state : KnownRounds := mkKR test_buffer 75 200 11.

(** The state of the test of [Marshal]. *)
Definition marshal_test_state : KnownRounds :=
  mkKR [0; MaxUint64; 0; MaxUint64; 0] 75 150 75.

Definition quoted (s : string) : string :=
  String Json.dquote (String.append s (String Json.dquote EmptyString)).

(** The text with the words written as a JSON array of integers. *)
Definition integer_array_text : string :=
  String.concat EmptyString
    [ "{"%string; quoted "BitStream"; ":[18446744073709551615,0],"%string;
      quoted "FirstUnchecked"; ":75,"%string; quoted "LastChecked"; ":150}"%string ].

(** The text with the bytes of the words written as a base64 string. *)
Definition base64_text : string :=
  String.concat EmptyString
    [ "{"%string; quoted "BitStream"; ":"%string; quoted "//////////8AAAAAAAAAAA==";
      ","%string; quoted "FirstUnchecked"; ":75,"%string;
      quoted "LastChecked"; ":150}"%string ].




(** The position of a round of the window. *)
Definition window_pos (kr : KnownRounds) (r : Z) : Z :=
  (fuPos kr + (r - firstUnchecked kr)) mod Len kr.

(** What [Checked] answers on a state of the data model. *)
Definition status (kr : KnownRounds) (r : Z) : bool :=
  if r <? firstUnchecked kr then true
  else if lastChecked kr <? r then false
  else BitBuffer.get (bitStream kr) (window_pos kr r).

(** The window after it is extended to a newer round: the rounds that
    enter it are cleared. *)
Definition extended (kr : KnownRounds) (rid : Z) : KnownRounds :=
  mkKR (BitBuffer.clearRange
          (BitBuffer.set (bitStream kr) (window_pos kr rid))
          (window_pos kr (lastChecked kr + 1)) (window_pos kr rid))
       (firstUnchecked kr) rid (fuPos kr).

(** The rounds of the call are below [2^63]. *)
Definition below_half (c : call) : Prop :=
  match c with
  | CallCheck rid | CallForceCheck rid => 0 <= rid < two63
  | CallForward rid => in_u64 rid
  | CallRangeUnchecked _ _ _ _ => True
  end.

(** The state that [Check(5)] makes of a new buffer of 64 rounds. *)
Definition checked_5_state : KnownRounds := mkKR [288230376151711744] 0 5 0.

(** The state that [Check(10)] makes of a new buffer of 64 rounds. *)
Definition checked_10_state : KnownRounds := mkKR [9007199254740992] 0 10 0.

(** A round that the scan leaves behind: it is checked and [roundCheck]
    accepts it. *)
Definition settled (kr : KnownRounds) (roundCheck : Z -> bool) (i : Z) : bool :=
  checked_bit kr i && roundCheck i.

(** The first round of a list that is not settled, or the largest round
    id. *)
Definition first_open (kr : KnownRounds) (roundCheck : Z -> bool) (l : list Z) : Z :=
  match List.find (fun i => negb (settled kr roundCheck i)) l with
  | Some i => i
  | None => MaxUint64
  end.

(* ===================================================================== *)
(** ** Machine arithmetic *)
(* ===================================================================== *)

Lemma two64_eq : two64 = 18446744073709551616.
Proof. reflexivity. Qed.

Lemma two63_eq : two63 = 9223372036854775808.
Proof. reflexivity. Qed.

Ltac unfold_ints :=
  unfold to_int, to_round, MaxUint64, in_u64, in_i64 in *;
  rewrite ?two64_eq, ?two63_eq in *.

Lemma u64_id x : in_u64 x -> u64 x = x.
Proof. unfold in_u64, u64. intros. apply Z.mod_small. lia. Qed.

Lemma u64_range x : in_u64 (u64 x).
Proof. unfold in_u64, u64. apply Z.mod_pos_bound. reflexivity. Qed.

Lemma i64_id x : in_i64 x -> i64 x = x.
Proof.
  unfold in_i64, i64. intros. rewrite Z.mod_small; unfold_ints; lia.
Qed.

Lemma i64_range x : in_i64 (i64 x).
Proof.
  unfold in_i64, i64.
  pose proof (Z.mod_pos_bound (x + two63) two64 eq_refl).
  unfold_ints. lia.
Qed.

Lemma u64_wrap x k : u64 (x + k * two64) = u64 x.
Proof. unfold u64. apply Z.mod_add. unfold_ints. lia. Qed.

(** Subtraction of rounds that does not go below zero is exact. *)
Lemma u64_sub a b : in_u64 a -> 0 <= b <= a -> u64 (a - b) = a - b.
Proof. intros Ha Hb. apply u64_id. unfold in_u64 in *. lia. Qed.

(** A round read as an [int] keeps its value below [2^63] and goes
    negative from there on. *)
Lemma to_int_small x : 0 <= x < two63 -> to_int x = x.
Proof. intros. apply i64_id. unfold_ints. lia. Qed.

Lemma to_int_large x : two63 <= x < two64 -> to_int x = x - two64.
Proof.
  intros. unfold to_int, i64.
  replace (x + two63) with ((x - two63) + 1 * two64) by (unfold_ints; lia).
  rewrite Z.mod_add by (unfold_ints; lia).
  rewrite Z.mod_small; unfold_ints; lia.
Qed.

Lemma abs_nonneg n : 0 <= n -> abs n = n.
Proof. unfold abs. intros. destruct (Z.ltb_spec n 0); lia. Qed.

Lemma abs_neg n : - two63 < n < 0 -> abs n = - n.
Proof.
  unfold abs. intros. destruct (Z.ltb_spec n 0); [|lia].
  apply i64_id. unfold_ints. lia.
Qed.

(** The most negative [int] is its own absolute value. *)
Lemma abs_min : abs (- two63) = - two63.
Proof. reflexivity. Qed.

(** The distance that the guard of [Check] computes from two rounds less
    than [2^63] apart. *)
Lemma guard_distance lc rid :
  in_u64 lc -> in_u64 rid -> Z.abs (lc - rid) < two63 ->
  abs (to_int (u64 (lc - rid))) = Z.abs (lc - rid).
Proof.
  intros Hl Hr Hd. destruct (Z.le_gt_cases rid lc) as [Hle|Hgt].
  - rewrite u64_sub by (unfold in_u64 in *; lia).
    rewrite to_int_small by lia. rewrite abs_nonneg by lia. lia.
  - assert (Hu : u64 (lc - rid) = lc - rid + two64).
    { rewrite <- (u64_wrap (lc - rid) 1). apply u64_id. unfold_ints. lia. }
    rewrite Hu, to_int_large by (unfold_ints; lia).
    rewrite abs_neg by (unfold_ints; lia). lia.
Qed.

(* ===================================================================== *)
(** ** Runs that finish: a total-correctness triple for [M] *)
(* ===================================================================== *)

Lemma hoare_ret {A} (P : KnownRounds -> Prop) (a : A) (Q : A -> KnownRounds -> Prop) :
  (forall kr, P kr -> Q a kr) -> hoare P (ret a) Q.
Proof. intros H kr HP. exists a, kr. split; [reflexivity | auto]. Qed.

Lemma hoare_bind {A B} P (m : M A) Q (k : A -> M B) R :
  hoare P m Q -> (forall a, hoare (Q a) (k a) R) -> hoare P (bind m k) R.
Proof.
  intros Hm Hk kr HP. destruct (Hm kr HP) as (a & kr1 & E1 & HQ).
  destruct (Hk a kr1 HQ) as (b & kr2 & E2 & HR).
  exists b, kr2. unfold bind. rewrite E1. auto.
Qed.

Lemma hoare_getS P : hoare P getS (fun a kr => a = kr /\ P kr).
Proof. intros kr HP. exists kr, kr. auto. Qed.

Lemma hoare_modify P f (Q : unit -> KnownRounds -> Prop) :
  (forall kr, P kr -> Q tt (f kr)) -> hoare P (modify f) Q.
Proof. intros H kr HP. exists tt, (f kr). split; [reflexivity | auto]. Qed.

Lemma hoare_weaken {A} (P P' : KnownRounds -> Prop) (m : M A) (Q Q' : A -> KnownRounds -> Prop) :
  hoare P' m Q' -> (forall kr, P kr -> P' kr) -> (forall a kr, Q' a kr -> Q a kr) ->
  hoare P m Q.
Proof.
  intros Hm HP HQ kr H. destruct (Hm kr (HP kr H)) as (a & kr' & E & HQ').
  exists a, kr'. auto.
Qed.

(* ===================================================================== *)
(** ** Facts on the bit buffer *)
(* ===================================================================== *)

Module BitBufferFacts.
Import BitBuffer.

Lemma words_nonneg u : 0 <= words u.
Proof. unfold words. lia. Qed.

Lemma words_set_word u b w : words (set_word u b w) = words u.
Proof. unfold words, set_word. now rewrite length_insert. Qed.

Lemma words_set u p : words (set u p) = words u.
Proof. unfold set. destruct (convertLoc u p). apply words_set_word. Qed.

Lemma words_clear u p : words (clear u p) = words u.
Proof. unfold clear. destruct (convertLoc u p). apply words_set_word. Qed.

Lemma words_clear_run n : forall u p, words (clear_run u p n) = words u.
Proof.
  induction n as [|n IH]; intros u p; simpl; [reflexivity|].
  now rewrite IH, words_clear.
Qed.

Lemma words_clearRange u s e : words (clearRange u s e) = words u.
Proof. apply words_clear_run. Qed.

Lemma cap_set u p : cap (set u p) = cap u.
Proof. unfold cap. now rewrite words_set. Qed.

(** Where a position falls. *)
Lemma convertLoc_bounds u p b i :
  1 <= words u -> convertLoc u p = (b, i) ->
  0 <= b < words u /\ 0 <= i < 64.
Proof.
  unfold convertLoc, cap. intros HW [= <- <-].
  pose proof (Z.mod_pos_bound p (64 * words u) ltac:(lia)) as Hp.
  split.
  - split; [apply Z.div_pos; lia | apply Z.div_lt_upper_bound; lia].
  - apply Z.mod_pos_bound. lia.
Qed.

Lemma convertLoc_set u p q : convertLoc (set u p) q = convertLoc u q.
Proof. unfold convertLoc. now rewrite cap_set. Qed.

Lemma word_at_set_word_eq u b w :
  0 <= b < words u -> word_at (set_word u b w) b = w.
Proof.
  unfold word_at, set_word, words. intros Hb.
  rewrite nth_lookup, list_lookup_insert_eq by lia. reflexivity.
Qed.

Lemma set_word_twice u b w w' :
  set_word (set_word u b w) b w' = set_word u b w'.
Proof. unfold set_word. apply list_insert_insert_eq. Qed.

(** The bit test of the specification is [Z.testbit]. *)
Lemma bit_test w k : 0 <= k -> (Z.land (Z.shiftr w k) 1 =? 1) = Z.testbit w k.
Proof.
  intros Hk. rewrite Z.land_comm.
  change 1 with (Z.ones 1) at 1. rewrite Z.land_comm, Z.land_ones by lia.
  rewrite <- Z.bit0_mod, Z.shiftr_spec by lia. rewrite Z.add_0_l.
  destruct (Z.testbit w k); reflexivity.
Qed.

Lemma get_testbit u p b i :
  1 <= words u -> convertLoc u p = (b, i) ->
  get u p = Z.testbit (word_at u b) (63 - i).
Proof.
  intros HW E. unfold get. rewrite E. apply bit_test.
  destruct (convertLoc_bounds u p b i HW E). lia.
Qed.

(** Setting a bit twice is setting it once. *)
Lemma set_set u p : 1 <= words u -> set (set u p) p = set u p.
Proof.
  intros HW. unfold set at 1. rewrite convertLoc_set.
  unfold set. destruct (convertLoc u p) as [b i] eqn:E.
  destruct (convertLoc_bounds u p b i HW E) as [Hb Hi].
  rewrite word_at_set_word_eq by assumption.
  rewrite set_word_twice. f_equal.
  rewrite <- Z.lor_assoc, Z.lor_diag. reflexivity.
Qed.

(** A bit that was set reads as set. *)
Lemma get_set u p : 1 <= words u -> get (set u p) p = true.
Proof.
  intros HW. destruct (convertLoc u p) as [b i] eqn:E.
  destruct (convertLoc_bounds u p b i HW E) as [Hb Hi].
  assert (E' : convertLoc (set u p) p = (b, i)) by now rewrite convertLoc_set.
  assert (HW' : 1 <= words (set u p)) by (rewrite words_set; lia).
  rewrite (get_testbit _ _ _ _ HW' E').
  unfold set. rewrite E, word_at_set_word_eq by assumption.
  rewrite Z.lor_spec, Z.shiftl_spec by lia.
  replace (63 - i - (63 - i)) with 0 by lia. simpl. apply orb_true_r.
Qed.

End BitBufferFacts.

(* ===================================================================== *)
(** ** The vectors of knownRounds_test.go *)
(* ===================================================================== *)

(** The bit buffer is modelled from the specification; the vectors of the
    tests of the package that apply to this revision of the engine (the
    test file was written for another one) are met by the model. *)

(** TestKnownRounds_getBitStreamPos. *)
Example getBitStreamPos_vectors :
  map (getBitStreamPos (mkKR test_buffer 75 85 11))
      [75; 76; 123; 124; 74; 60; 0; 319; 320]
  = map Done [11; 12; 59; 60; 10; -4; -64; 255; 256].
Proof. reflexivity. Qed.

(** TestKnownRounds_Checked. *)
Example Checked_vectors :
  map (fun rid => Checked rid test_state) [75; 76; 123; 124; 74; 60; 0; 319; 320]
  = map (fun b => Done (b, test_state))
        [false; false; false; false; true; true; true; false; false].
Proof. reflexivity. Qed.

(** TestKnownRounds_Check: the test resets the buffer before each call
    and keeps the cursors. *)
Example Check_vectors :
  Check 0 test_state = Done (tt, test_state)
  /\ Check 75 test_state
     = Done (tt, mkKR [4503599627370496; MaxUint64; 0; MaxUint64; 0] 76 200 12)
  /\ Check 95 (mkKR test_buffer 76 200 12)
     = Done (tt, mkKR [4294967296; MaxUint64; 0; MaxUint64; 0] 76 200 12)
  /\ Check 150 (mkKR test_buffer 76 200 12)
     = Done (tt, mkKR test_buffer 76 200 12)
  /\ Check 320 (mkKR test_buffer 76 200 12)
     = Done (tt, mkKR [0; MaxUint64; 0; 0; 9223372036854775808] 76 320 12).
Proof. repeat split; reflexivity. Qed.

(** TestKnownRounds_Forward, up to the round within [lastChecked]. *)
Example Forward_vectors :
  Forward 75 test_state = Done (tt, test_state)
  /\ Forward 76 test_state = Done (tt, mkKR test_buffer 76 200 12)
  /\ Forward 192 (mkKR test_buffer 76 200 12) = Done (tt, mkKR test_buffer 192 200 128)
  /\ Forward 150 (mkKR test_buffer 192 200 128) = Done (tt, mkKR test_buffer 192 200 128)
  /\ Forward 200 (mkKR test_buffer 192 200 128) = Done (tt, mkKR test_buffer 200 200 136).
Proof. repeat split; reflexivity. Qed.

(* ===================================================================== *)
(** ** Construction *)
(* ===================================================================== *)

Lemma replicate_all_zero n : Forall (fun w : Z => w = 0) (replicate n 0).
Proof. induction n; simpl; constructor; auto. Qed.

(** A new buffer for at least one round has at least one word, and both
    cursors at 0. *)
Lemma NewKnownRound_start c kr :
  1 <= c -> c + 63 < two63 -> NewKnownRound c = Done kr ->
  1 <= BitBuffer.words (bitStream kr)
  /\ firstUnchecked kr = 0 /\ lastChecked kr = 0.
Proof.
  intros H0 H1. unfold NewKnownRound.
  rewrite (i64_id (c + 63)) by (unfold_ints; lia).
  assert (Hq : 1 <= Z.quot (c + 63) 64 <= c + 63).
  { rewrite Z.quot_div_nonneg by lia. split.
    - apply Z.div_le_lower_bound; lia.
    - apply Z.div_le_upper_bound; lia. }
  rewrite i64_id by (unfold_ints; lia).
  destruct (Z.ltb_spec (Z.quot (c + 63) 64) 0) as [|_]; [lia|].
  intros E. inversion E; subst. simpl.
  unfold BitBuffer.words. rewrite length_replicate. lia.
Qed.

(** C5 (as stated) fails: the buffer that [NewKnownRound(5)] allocates
    holds 64 rounds, not 320. *)
Lemma NewKnownRound_5_not_320 :
  ~ (exists kr, NewKnownRound 5 = Done kr /\ Len kr = 320).
Proof. intros (kr & E & HL). vm_compute in E. injection E as <-. discriminate HL. Qed.

(** C5 (amended): [NewKnownRound(capacityRounds)] allocates
    ceil(capacityRounds/64) zero words, hence a capacity [Len()] of 64
    times that many rounds, and sets both cursors and [fuPos] to 0.  For
    [NewKnownRound(5)] that is one word and a capacity of 64 rounds. *)
Theorem NewKnownRound_words (c : Z) :
  0 <= c -> c + 63 < two63 ->
  exists kr,
    NewKnownRound c = Done kr
    /\ firstUnchecked kr = 0 /\ lastChecked kr = 0 /\ fuPos kr = 0
    /\ Forall (fun w => w = 0) (bitStream kr)
    /\ 64 * (BitBuffer.words (bitStream kr) - 1) < c <= 64 * BitBuffer.words (bitStream kr)
    /\ Len kr = 64 * BitBuffer.words (bitStream kr).
Proof.
  intros H0 H1. unfold NewKnownRound.
  rewrite (i64_id (c + 63)) by (unfold_ints; lia).
  assert (Hq : 0 <= Z.quot (c + 63) 64 <= c + 63).
  { rewrite Z.quot_div_nonneg by lia. split; [apply Z.div_pos; lia|].
    apply Z.div_le_upper_bound; lia. }
  rewrite i64_id by (unfold_ints; lia).
  destruct (Z.ltb_spec (Z.quot (c + 63) 64) 0) as [|_]; [lia|].
  eexists. split; [reflexivity|]. simpl.
  repeat split; try apply replicate_all_zero;
    unfold Len, BitBuffer.words; simpl; rewrite length_replicate, Z2Nat.id by lia;
    rewrite Z.quot_div_nonneg by lia;
    pose proof (Z.div_mod (c + 63) 64 ltac:(lia));
    pose proof (Z.mod_pos_bound (c + 63) 64 ltac:(lia)); lia.
Qed.

Lemma NewKnownRound_words_witness :
  exists kr,
    NewKnownRound 5 = Done kr
    /\ firstUnchecked kr = 0 /\ lastChecked kr = 0 /\ fuPos kr = 0
    /\ Forall (fun w => w = 0) (bitStream kr)
    /\ 64 * (BitBuffer.words (bitStream kr) - 1) < 5 <= 64 * BitBuffer.words (bitStream kr)
    /\ Len kr = 64 * BitBuffer.words (bitStream kr).
Proof. apply (NewKnownRound_words 5); [lia | reflexivity]. Defined.

(* ===================================================================== *)
(** ** Position mapping and [Checked] *)
(* ===================================================================== *)

Lemma Len_cap kr : Len kr = BitBuffer.cap (bitStream kr).
Proof. unfold Len, BitBuffer.cap. lia. Qed.

(** With a buffer of at least one word the position mapping returns. *)
Lemma getBitStreamPos_total kr rid :
  1 <= BitBuffer.words (bitStream kr) -> exists p, getBitStreamPos kr rid = Done p.
Proof.
  intros HW. unfold getBitStreamPos, go_rem, Len.
  destruct (Z.eqb_spec (BitBuffer.words (bitStream kr) * 64) 0); [lia|]. eauto.
Qed.

(** Without a buffer it divides by zero. *)
Lemma getBitStreamPos_empty kr rid :
  BitBuffer.words (bitStream kr) = 0 -> getBitStreamPos kr rid = Panic DivideByZero.
Proof. intros HW. unfold getBitStreamPos, go_rem, Len. rewrite HW. reflexivity. Qed.

(** [Checked] either returns in the state it was given or divides by
    zero on a buffer of no words. *)
Lemma Checked_cases kr rid :
  (exists b, Checked rid kr = Done (b, kr))
  \/ (Checked rid kr = Panic DivideByZero /\ BitBuffer.words (bitStream kr) = 0).
Proof.
  unfold Checked, bind, getS, ret, bitPos, lift.
  destruct (rid <? firstUnchecked kr); [eauto|].
  destruct (lastChecked kr <? rid); [eauto|].
  destruct (Z.le_gt_cases 1 (BitBuffer.words (bitStream kr))) as [HW|HW].
  - destruct (getBitStreamPos_total kr rid HW) as [p ->]. eauto.
  - right. pose proof (BitBufferFacts.words_nonneg (bitStream kr)).
    rewrite getBitStreamPos_empty by lia. split; [reflexivity | lia].
Qed.

(** On a buffer of at least one word [Checked] always returns. *)
Lemma Checked_total kr rid :
  1 <= BitBuffer.words (bitStream kr) -> exists b, Checked rid kr = Done (b, kr).
Proof. intros HW. destruct (Checked_cases kr rid) as [H | [_ H]]; [exact H | lia]. Qed.

(** C10: [Checked] is a pure observation.  Whenever it returns, the state
    it leaves is the state it was given (buffer, both cursors and
    [fuPos]), and a second call in a row returns the same boolean and the
    same state; the only way not to return is the division by zero of the
    position mapping on a buffer of no words. *)
Theorem Checked_pure (kr : KnownRounds) (rid : Z) :
  match Checked rid kr with
  | Done (b, kr') =>
      kr' = kr
      /\ (b1 <- Checked rid ;; b2 <- Checked rid ;; ret (b1, b2)) kr = Done ((b, b), kr)
  | Panic p => p = DivideByZero /\ BitBuffer.words (bitStream kr) = 0
  | OutOfFuel => False
  end.
Proof.
  destruct (Checked_cases kr rid) as [[b E] | [E HW]].
  - rewrite E. split; [reflexivity|]. unfold bind at 1. rewrite E.
    unfold bind. rewrite E. reflexivity.
  - rewrite E. auto.
Qed.

(* ===================================================================== *)
(** ** The engine always returns on a buffer of at least one word *)
(* ===================================================================== *)

Lemma hoare_getS_any {A} P (k : KnownRounds -> M A) R :
  (forall a, hoare P (k a) R) -> hoare P (bind getS k) R.
Proof.
  intros H. eapply hoare_bind; [apply hoare_getS|].
  intros a. eapply hoare_weaken; [apply (H a) | | auto]. intros kr [_ HP]. exact HP.
Qed.

Lemma hoare_seq {A} P (m : M unit) (k : M A) R :
  hoare P m (fun _ => P) -> hoare P k R -> hoare P (bind m (fun _ => k)) R.
Proof. intros Hm Hk. eapply hoare_bind; [exact Hm | intros u; exact Hk]. Qed.

Lemma hoare_bitPos W r (k : Z -> M unit) :
  1 <= W ->
  (forall p, hoare (shape W) (k p) (fun _ => shape W)) ->
  hoare (shape W) (bind (bitPos r) k) (fun _ => shape W).
Proof.
  intros HW Hk kr [Hw Hl].
  destruct (getBitStreamPos_total kr r ltac:(lia)) as [p E].
  destruct (Hk p kr (conj Hw Hl)) as (a & kr' & E' & H).
  exists a, kr'. split; [|exact H].
  unfold bind, bitPos, lift. rewrite E. exact E'.
Qed.

Lemma shape_set W pos : hoare (shape W) (bs_set pos) (fun _ => shape W).
Proof.
  apply hoare_modify. intros kr [Hw Hl]. split; [|exact Hl].
  simpl. now rewrite BitBufferFacts.words_set.
Qed.

Lemma shape_clear W pos : hoare (shape W) (bs_clear pos) (fun _ => shape W).
Proof.
  apply hoare_modify. intros kr [Hw Hl]. split; [|exact Hl].
  simpl. now rewrite BitBufferFacts.words_clear.
Qed.

Lemma shape_clearRange W s e : hoare (shape W) (bs_clearRange s e) (fun _ => shape W).
Proof.
  apply hoare_modify. intros kr [Hw Hl]. split; [|exact Hl].
  simpl. now rewrite BitBufferFacts.words_clearRange.
Qed.

Lemma shape_fuPos W p : hoare (shape W) (modify (with_fuPos p)) (fun _ => shape W).
Proof. apply hoare_modify. intros kr H. exact H. Qed.

Lemma shape_firstUnchecked W r :
  hoare (shape W) (modify (with_firstUnchecked r)) (fun _ => shape W).
Proof. apply hoare_modify. intros kr H. exact H. Qed.

Lemma shape_lastChecked W r :
  in_u64 r -> hoare (shape W) (modify (with_lastChecked r)) (fun _ => shape W).
Proof. intros Hr. apply hoare_modify. intros kr [Hw _]. split; [exact Hw | exact Hr]. Qed.

(** The loop of [migrateFirstUnchecked] stops within [lastChecked - rid]
    passes, at a round from [rid] up to [lastChecked] (or at [rid]). *)
Lemma migrate_loop_total fuel : forall kr rid,
  1 <= BitBuffer.words (bitStream kr) ->
  0 <= rid -> lastChecked kr < two64 ->
  (Z.to_nat (lastChecked kr - rid) <= fuel)%nat ->
  exists r, migrate_loop fuel kr rid = Done r
            /\ rid <= r /\ r <= Z.max rid (lastChecked kr).
Proof.
  induction fuel as [|fuel IH]; intros kr rid HW H0 Hl Hf;
    destruct (getBitStreamPos_total kr rid HW) as [p E]; simpl; rewrite E; simpl.
  - destruct (Z.ltb_spec rid (lastChecked kr)); [lia|].
    rewrite andb_false_r. exists rid. split; [reflexivity | lia].
  - destruct (BitBuffer.get (bitStream kr) p && (rid <? lastChecked kr)) eqn:C.
    + apply andb_true_iff in C as [_ C]. apply Z.ltb_lt in C.
      rewrite u64_id by (unfold in_u64; lia).
      destruct (IH kr (rid + 1) HW ltac:(lia) Hl ltac:(lia)) as (r & Er & H1 & H2).
      exists r. split; [exact Er | lia].
    + exists rid. split; [reflexivity | lia].
Qed.

Lemma shape_migrate W rid :
  1 <= W -> in_u64 rid ->
  hoare (shape W) (migrateFirstUnchecked rid) (fun _ => shape W).
Proof.
  intros HW Hr kr [Hw Hl].
  destruct (migrate_loop_total (Z.to_nat (lastChecked kr - rid)) kr rid
              ltac:(lia) ltac:(unfold in_u64 in Hr; lia)
              ltac:(unfold in_u64 in Hl; lia) ltac:(lia)) as (r & E & _).
  destruct (getBitStreamPos_total kr r ltac:(lia)) as [p Ep].
  eexists tt, _. split.
  - unfold migrateFirstUnchecked, bind, getS, lift, bitPos, modify.
    rewrite E, Ep. reflexivity.
  - split; [exact Hw | exact Hl].
Qed.

(** [Forward] returns on a buffer of at least one word. *)
Lemma shape_Forward W rid :
  1 <= W -> in_u64 rid -> hoare (shape W) (Forward rid) (fun _ => shape W).
Proof.
  intros HW Hr. unfold Forward. apply hoare_getS_any. intros kr0.
  destruct (lastChecked kr0 <? rid).
  - apply hoare_seq; [apply shape_firstUnchecked|].
    apply hoare_seq; [now apply shape_lastChecked|]. apply shape_fuPos.
  - destruct (firstUnchecked kr0 <=? rid); [now apply shape_migrate|].
    apply hoare_ret. auto.
Qed.

Lemma shape_extend_window W rid pos :
  1 <= W -> in_u64 rid ->
  hoare (shape W) (extend_window rid pos) (fun _ => shape W).
Proof.
  intros HW Hr. unfold extend_window. apply hoare_getS_any. intros kr1.
  destruct (lastChecked kr1 <? rid).
  - apply hoare_bitPos; [exact HW|]. intros start.
    apply hoare_seq; [apply shape_clearRange|]. now apply shape_lastChecked.
  - apply hoare_ret. auto.
Qed.

Lemma shape_advance_first W rid pos :
  1 <= W -> in_u64 rid ->
  hoare (shape W) (advance_first rid pos) (fun _ => shape W).
Proof.
  intros HW Hr. unfold advance_first. apply hoare_getS_any. intros kr1.
  apply hoare_bitPos; [exact HW|]. intros fp. destruct (fp =? pos).
  - apply hoare_bitPos; [exact HW|]. intros lp. destruct (lp =? pos).
    + apply hoare_bitPos; [exact HW|]. intros np.
      apply hoare_seq; [apply shape_fuPos|].
      apply hoare_seq; [apply shape_firstUnchecked|].
      apply hoare_seq; [apply shape_lastChecked, u64_range|].
      apply shape_clear.
    + now apply shape_migrate.
  - apply hoare_ret. auto.
Qed.

Lemma shape_handle_lapse W rid :
  1 <= W -> in_u64 rid ->
  hoare (shape W) (handle_lapse rid) (fun _ => shape W).
Proof.
  intros HW Hr. unfold handle_lapse. apply hoare_getS_any. intros kr1.
  destruct ((firstUnchecked kr1 <? rid)
            && (to_round (Len kr1) <=? u64 (rid - firstUnchecked kr1))).
  - apply hoare_bitPos; [exact HW|]. intros np.
    apply hoare_seq; [apply shape_fuPos|].
    apply hoare_seq; [apply shape_firstUnchecked|].
    now apply shape_migrate.
  - apply hoare_ret. auto.
Qed.

(** [check] returns on a buffer of at least one word. *)
Lemma shape_check W rid :
  1 <= W -> in_u64 rid -> hoare (shape W) (check rid) (fun _ => shape W).
Proof.
  intros HW Hr. unfold check. apply hoare_getS_any. intros kr0.
  destruct (rid <? firstUnchecked kr0); [apply hoare_ret; auto|].
  apply hoare_bitPos; [exact HW|]. intros pos.
  apply hoare_seq; [apply shape_set|].
  apply hoare_seq; [now apply shape_extend_window|].
  apply hoare_seq; [now apply shape_advance_first|].
  apply hoare_seq; [now apply shape_handle_lapse|].
  apply shape_set.
Qed.

Lemma check_total kr rid :
  1 <= BitBuffer.words (bitStream kr) -> in_u64 (lastChecked kr) -> in_u64 rid ->
  exists kr', check rid kr = Done (tt, kr')
              /\ BitBuffer.words (bitStream kr') = BitBuffer.words (bitStream kr).
Proof.
  intros HW Hl Hr.
  destruct (shape_check _ rid HW Hr kr (conj eq_refl Hl)) as ([] & kr' & E & Hw & _).
  eauto.
Qed.

(* ===================================================================== *)
(** ** The scope guard of [Check] and [ForceCheck] *)
(* ===================================================================== *)

(** What the guard computes when the two rounds are less than [2^63]
    apart: whether the distance reaches the capacity. *)
Lemma out_of_scope_distance kr rid :
  1 <= BitBuffer.words (bitStream kr) < 2 ^ 57 ->
  in_u64 (lastChecked kr) -> in_u64 rid ->
  Z.abs (lastChecked kr - rid) < two63 ->
  out_of_scope rid kr = Done (Len kr <=? Z.abs (lastChecked kr - rid), kr).
Proof.
  intros HW Hl Hr Hd. unfold out_of_scope, bind, getS, lift, go_div, ret.
  rewrite guard_distance by assumption.
  fold (Len kr). set (d := Z.abs (lastChecked kr - rid)) in *.
  assert (HL : 0 < Len kr) by (unfold Len; lia).
  destruct (Z.eqb_spec (Len kr) 0); [lia|].
  assert (Hd0 : 0 <= d) by (subst d; lia).
  rewrite Z.quot_div_nonneg by lia.
  assert (Hq : 0 <= d / Len kr <= d).
  { split; [apply Z.div_pos; lia|]. apply Z.div_le_upper_bound; nia. }
  rewrite i64_id by (unfold_ints; lia).
  do 2 f_equal.
  destruct (Z.leb_spec (Len kr) d) as [Hc|Hc].
  - apply Z.ltb_lt. apply Z.div_str_pos. lia.
  - apply Z.ltb_ge. rewrite Z.div_small; lia.
Qed.

(** C3 (as stated) fails: a round exactly [C] away from [lastChecked] is
    within the distance the claim allows, and [Check] panics on it. *)
Lemma Check_panics_at_capacity :
  let kr := mkKR [0] 0 0 0 in
  Z.abs (lastChecked kr - 64) <= Len kr /\ Check 64 kr = Panic OutOfScope.
Proof. split; [vm_compute; discriminate | reflexivity]. Qed.

(** C3 (amended): on a buffer of [W >= 1] words, for rounds less than
    [2^63] apart, the strict [Check(rid)] fails fatally if and only if the
    distance between [rid] and [lastChecked] is at least the capacity
    [C = 64 W]; when the distance is below [C], [Check(rid)] does not
    panic and is the shared [check] body. *)
Theorem Check_scope (kr : KnownRounds) (rid : Z) :
  1 <= BitBuffer.words (bitStream kr) < 2 ^ 57 ->
  in_u64 (lastChecked kr) -> in_u64 rid ->
  Z.abs (lastChecked kr - rid) < two63 ->
  (Check rid kr = Panic OutOfScope <-> Len kr <= Z.abs (lastChecked kr - rid))
  /\ (Z.abs (lastChecked kr - rid) < Len kr ->
      Check rid kr = check rid kr
      /\ exists kr', Check rid kr = Done (tt, kr')).
Proof.
  intros HW Hl Hr Hd.
  pose proof (out_of_scope_distance kr rid HW Hl Hr Hd) as Hg.
  destruct (check_total kr rid ltac:(lia) Hl Hr) as (kr' & Ec & _).
  assert (E : Check rid kr =
              if Len kr <=? Z.abs (lastChecked kr - rid)
              then Panic OutOfScope else check rid kr).
  { unfold Check, bind. rewrite Hg.
    destruct (Len kr <=? Z.abs (lastChecked kr - rid)); reflexivity. }
  rewrite E. destruct (Z.leb_spec (Len kr) (Z.abs (lastChecked kr - rid))) as [Hc|Hc].
  - split; [tauto | lia].
  - split.
    + split; [rewrite Ec; discriminate | lia].
    + intros _. split; [reflexivity | eauto].
Qed.

Lemma Check_scope_witness :
  let kr := mkKR [0] 0 0 0 in
  (Check 64 kr = Panic OutOfScope <-> Len kr <= Z.abs (lastChecked kr - 64))
  /\ (Z.abs (lastChecked kr - 63) < Len kr ->
      Check 63 kr = check 63 kr /\ exists kr', Check 63 kr = Done (tt, kr')).
Proof.
  split.
  - apply (Check_scope (mkKR [0] 0 0 0) 64); vm_compute; intuition discriminate.
  - apply (Check_scope (mkKR [0] 0 0 0) 63); vm_compute; intuition discriminate.
Defined.

(** C9 (as stated) fails: with [lastChecked = 2^64 - 1] and [rid = 0] the
    round is at least [C] below [lastChecked] and [rid < C], yet the guard
    reads the distance as 1, does not trip, and [ForceCheck] leaves the
    state as it was.  The state is the one [Forward(2^64 - 1)] makes from
    a new buffer of 64 rounds. *)
Lemma ForceCheck_stale_unchanged :
  let kr := mkKR [0] MaxUint64 MaxUint64 63 in
  obind (NewKnownRound 64) (Forward MaxUint64) = Done (tt, kr)
  /\ Len kr <= lastChecked kr - 0 /\ 0 < Len kr
  /\ ForceCheck 0 kr = Done (tt, kr).
Proof. repeat split; vm_compute; congruence. Qed.

(** C9 (amended): when [ForceCheck(rid)] is called with [rid < C] and
    [lastChecked] at a distance [d] above [rid] with [C <= d < 2^64 - C]
    and [d <> 2^63], the guard trips, the argument [rid - C] of [Forward]
    wraps to [2^64 + rid - C], which exceeds [lastChecked], and both
    cursors are reset to it; the buffer is left as it was, [fuPos] is
    [rid mod 64], and every round below [2^64 + rid - C] now reads as
    checked. *)
Theorem ForceCheck_stale (kr : KnownRounds) (rid : Z) :
  1 <= BitBuffer.words (bitStream kr) < 2 ^ 57 ->
  in_u64 (lastChecked kr) -> in_u64 rid ->
  rid < Len kr ->
  Len kr <= lastChecked kr - rid < two64 - Len kr ->
  lastChecked kr - rid <> two63 ->
  let target := two64 + rid - Len kr in
  let kr' := mkKR (bitStream kr) target target (rid mod 64) in
  u64 (rid - to_round (Len kr)) = target
  /\ lastChecked kr < target
  /\ ForceCheck rid kr = Done (tt, kr')
  /\ forall r, r < target -> Checked r kr' = Done (true, kr').
Proof.
  intros HW Hl Hr Hrid Hd Hne target kr'.
  assert (HL : 64 <= Len kr < two63) by (unfold Len; unfold_ints; lia).
  assert (Ht : u64 (rid - to_round (Len kr)) = target).
  { unfold to_round. rewrite (u64_id (Len kr)) by (unfold_ints; lia).
    rewrite <- (u64_wrap (rid - Len kr) 1). subst target.
    replace (rid - Len kr + 1 * two64) with (two64 + rid - Len kr) by lia.
    apply u64_id. unfold_ints. lia. }
  assert (Hg : out_of_scope rid kr = Done (true, kr)).
  { unfold out_of_scope, bind, getS, lift, go_div, ret. fold (Len kr).
    destruct (Z.eqb_spec (Len kr) 0); [lia|].
    rewrite u64_sub by (unfold in_u64 in *; lia).
    set (d := lastChecked kr - rid) in *.
    assert (Ha : Len kr <= abs (to_int d) < two63).
    { destruct (Z.lt_ge_cases d two63).
      - rewrite to_int_small, abs_nonneg by lia. lia.
      - rewrite to_int_large by (unfold_ints; lia).
        rewrite abs_neg by (unfold_ints; lia). unfold_ints. lia. }
    rewrite Z.quot_div_nonneg by lia.
    assert (Hq : 0 < abs (to_int d) / Len kr <= abs (to_int d)).
    { split; [apply Z.div_str_pos; lia|]. apply Z.div_le_upper_bound; nia. }
    rewrite i64_id by (unfold_ints; lia).
    destruct (Z.ltb_spec 0 (abs (to_int d) / Len kr)); [reflexivity | lia]. }
  assert (Hf : Forward target kr = Done (tt, kr')).
  { unfold Forward, bind, getS, modify.
    destruct (Z.ltb_spec (lastChecked kr) target); [|subst target; lia].
    simpl. unfold with_fuPos, with_lastChecked, with_firstUnchecked. simpl.
    subst kr'. do 3 f_equal.
    assert (Hm : target mod 64 = rid mod 64).
    { subst target. unfold Len.
      replace (two64 + rid - BitBuffer.words (bitStream kr) * 64)
        with (rid + (2 ^ 58 - BitBuffer.words (bitStream kr)) * 64)
        by (unfold_ints; lia).
      apply Z.mod_add. lia. }
    rewrite Hm. apply to_int_small.
    pose proof (Z.mod_pos_bound rid 64 ltac:(lia)). unfold_ints. lia. }
  split; [exact Ht|]. split; [subst target; lia|]. split.
  - unfold ForceCheck, bind. rewrite Hg. unfold getS at 1.
    fold (Len kr). rewrite Ht, Hf.
    unfold check, bind, getS, ret. simpl.
    destruct (Z.ltb_spec rid target); [reflexivity | subst target; unfold in_u64 in *; lia].
  - intros r Hlt. unfold Checked, bind, getS, ret. simpl.
    destruct (Z.ltb_spec r target); [reflexivity | lia].
Qed.

Lemma ForceCheck_stale_witness :
  let kr := mkKR [0] 1000 1000 40 in
  let kr' := mkKR [0] (two64 - 64) (two64 - 64) 0 in
  ForceCheck 0 kr = Done (tt, kr')
  /\ forall r, r < two64 - 64 -> Checked r kr' = Done (true, kr').
Proof.
  apply (ForceCheck_stale (mkKR [0] 1000 1000 40) 0);
    vm_compute; intuition discriminate.
Defined.

(* ===================================================================== *)
(** ** [Forward] *)
(* ===================================================================== *)



Lemma Forward_eq rid kr :
  Forward rid kr =
  if lastChecked kr <? rid
  then Done (tt, mkKR (bitStream kr) rid rid (to_int (rid mod 64)))
  else if firstUnchecked kr <=? rid then migrateFirstUnchecked rid kr
       else Done (tt, kr).
Proof.
  unfold Forward, bind, getS.
  destruct (lastChecked kr <? rid); [reflexivity|].
  destruct (firstUnchecked kr <=? rid); reflexivity.
Qed.

Lemma migrateFirstUnchecked_eq rid kr r p :
  migrate_loop (Z.to_nat (lastChecked kr - rid)) kr rid = Done r ->
  getBitStreamPos kr r = Done p ->
  migrateFirstUnchecked rid kr = Done (tt, with_firstUnchecked r (with_fuPos p kr)).
Proof.
  intros Er Ep. unfold migrateFirstUnchecked, bind, getS, lift, bitPos, modify.
  rewrite Er, Ep. reflexivity.
Qed.



(* ===================================================================== *)
(** ** [Marshal]: the text of the envelope *)
(* ===================================================================== *)

(** C1 (as stated) fails: for the state of the claim [Marshal] does not
    return the text whose [BitStream] is the array of integers. *)
Lemma Marshal_not_integer_array :
  Marshal marshal_test_state <> Done (integer_array_text, marshal_test_state).
Proof. vm_compute. discriminate. Qed.

Lemma Marshal_eq kr p q :
  getBitStreamPos kr (firstUnchecked kr) = Done p ->
  getBitStreamPos kr (lastChecked kr) = Done q ->
  Marshal kr =
  Done (Json.Marshal
          (mkDKR (BitBuffer.marshal
                    (compress (bitStream kr)
                              (fst (BitBuffer.convertLoc (bitStream kr) p))
                              (BitBuffer.delta (bitStream kr) p q)))
                 (u64 (firstUnchecked kr)) (u64 (lastChecked kr))), kr).
Proof.
  intros Ep Eq. unfold Marshal, bind, getS, bitPos, lift, ret.
  rewrite Ep, Eq. reflexivity.
Qed.

Lemma length_word_bytes w : length (BitBuffer.word_bytes w) = 8%nat.
Proof. reflexivity. Qed.

Lemma length_marshal u : length (BitBuffer.marshal u) = (8 * length u)%nat.
Proof.
  unfold BitBuffer.marshal. induction u as [|w u IH]; [reflexivity|].
  cbn [flat_map]. rewrite length_app, IH, length_word_bytes. simpl. lia.
Qed.

Lemma length_compress u b n : 0 <= n -> Z.of_nat (length (compress u b n)) = n.
Proof. intros Hn. unfold compress. rewrite length_map, length_seqZ. lia. Qed.

Lemma word_at_compress u b n i :
  0 <= i < n ->
  BitBuffer.word_at (compress u b n) i
  = BitBuffer.word_at u (Z.rem (i + b) (BitBuffer.words u)).
Proof.
  intros Hi. unfold BitBuffer.word_at at 1, compress.
  rewrite nth_lookup, list_lookup_fmap, lookup_seqZ_lt by lia.
  simpl. rewrite Z2Nat.id by lia. reflexivity.
Qed.

Lemma delta_pos u s e : 1 <= BitBuffer.words u -> 1 <= BitBuffer.delta u s e <= BitBuffer.words u.
Proof.
  intros HW. unfold BitBuffer.delta.
  pose proof (Z.mod_pos_bound
    (fst (BitBuffer.convertLoc u e) - fst (BitBuffer.convertLoc u s))
    (BitBuffer.words u) ltac:(lia)). lia.
Qed.

(** C1 (amended): [Marshal] emits the envelope with the [BitStream] field
    as a JSON string: the standard base64 encoding of the big-endian
    bytes, eight per word, of the words of the compressed active span
    (its type is [[]byte], which encoding/json writes so), not as an
    array of integers.  The span has as many words as [delta] counts
    between the positions of the two cursors, word [i] being word
    [(i + startBlock) % len] of the buffer.  For the state of the claim
    [Marshal] returns the text with [BitStream] equal to
    //////////8AAAAAAAAAAA==, [FirstUnchecked] 75 and [LastChecked] 150. *)
Theorem Marshal_base64 :
  Marshal marshal_test_state = Done (base64_text, marshal_test_state)
  /\ forall kr, 1 <= BitBuffer.words (bitStream kr) ->
       exists p q stream,
         getBitStreamPos kr (firstUnchecked kr) = Done p
         /\ getBitStreamPos kr (lastChecked kr) = Done q
         /\ BitBuffer.words stream = BitBuffer.delta (bitStream kr) p q
         /\ (forall i, 0 <= i < BitBuffer.words stream ->
               BitBuffer.word_at stream i
               = BitBuffer.word_at (bitStream kr)
                   (Z.rem (i + fst (BitBuffer.convertLoc (bitStream kr) p))
                          (BitBuffer.words (bitStream kr))))
         /\ length (BitBuffer.marshal stream) = (8 * length stream)%nat
         /\ Marshal kr =
            Done (string_of_list_ascii
                    (Json.lit "{" ++ Json.key "BitStream"
                     ++ [Json.dquote] ++ Json.base64_encode (BitBuffer.marshal stream)
                     ++ [Json.dquote]
                     ++ Json.lit "," ++ Json.key "FirstUnchecked"
                     ++ Json.digits (u64 (firstUnchecked kr))
                     ++ Json.lit "," ++ Json.key "LastChecked"
                     ++ Json.digits (u64 (lastChecked kr))
                     ++ Json.lit "}"), kr).
Proof.
  split; [vm_compute; reflexivity|].
  intros kr HW.
  destruct (getBitStreamPos_total kr (firstUnchecked kr) HW) as [p Ep].
  destruct (getBitStreamPos_total kr (lastChecked kr) HW) as [q Eq].
  pose proof (delta_pos (bitStream kr) p q HW) as Hd.
  exists p, q,
    (compress (bitStream kr) (fst (BitBuffer.convertLoc (bitStream kr) p))
              (BitBuffer.delta (bitStream kr) p q)).
  split; [exact Ep|]. split; [exact Eq|].
  assert (Hw : BitBuffer.words
                 (compress (bitStream kr) (fst (BitBuffer.convertLoc (bitStream kr) p))
                           (BitBuffer.delta (bitStream kr) p q))
               = BitBuffer.delta (bitStream kr) p q)
    by (apply length_compress; lia).
  split; [exact Hw|]. split; [|split].
  - intros i Hi. rewrite Hw in Hi. now apply word_at_compress.
  - apply length_marshal.
  - rewrite (Marshal_eq kr p q Ep Eq). reflexivity.
Qed.

Lemma Marshal_base64_witness :
  exists p q stream,
    getBitStreamPos marshal_test_state 75 = Done p
    /\ getBitStreamPos marshal_test_state 150 = Done q
    /\ BitBuffer.words stream = BitBuffer.delta [0; MaxUint64; 0; MaxUint64; 0] p q
    /\ (forall i, 0 <= i < BitBuffer.words stream ->
          BitBuffer.word_at stream i
          = BitBuffer.word_at [0; MaxUint64; 0; MaxUint64; 0]
              (Z.rem (i + fst (BitBuffer.convertLoc [0; MaxUint64; 0; MaxUint64; 0] p)) 5))
    /\ length (BitBuffer.marshal stream) = (8 * length stream)%nat
    /\ Marshal marshal_test_state =
       Done (string_of_list_ascii
               (Json.lit "{" ++ Json.key "BitStream"
                ++ [Json.dquote] ++ Json.base64_encode (BitBuffer.marshal stream)
                ++ [Json.dquote]
                ++ Json.lit "," ++ Json.key "FirstUnchecked"
                ++ Json.digits (u64 75)
                ++ Json.lit "," ++ Json.key "LastChecked"
                ++ Json.digits (u64 150)
                ++ Json.lit "}"), marshal_test_state).
Proof. apply (proj2 Marshal_base64 marshal_test_state). vm_compute. discriminate. Defined.

(* ===================================================================== *)
(** ** [RangeUnchecked]: the scan over the buffer *)
(* ===================================================================== *)

(** C2 (as stated) fails: in a scan of the rounds 0 to 3 with budget to
    spare, [roundCheck] is invoked on the rounds 1 and 3, for which
    [Checked] is true, and not on the rounds 0 and 2, for which it is
    false. *)
Lemma RangeUnchecked_asks_checked_rounds :
  map (checked_bit scan_test_state) [0; 1; 2; 3] = [false; true; false; true]
  /\ RangeUnchecked 4 0 10 (fun _ => true) scan_test_state
     = Done ((1, [1; 3]), scan_test_state).
Proof. split; reflexivity. Qed.

Lemma window_body_eq maxChecked f i s kr c :
  numChecked s < maxChecked ->
  Checked i kr = Done (c, kr) ->
  window_body maxChecked f i s kr
  = Done (Continue (if c then ask f i s else lower i s), kr).
Proof.
  intros Hb Ec. unfold window_body, exhausted.
  destruct (Z.leb_spec maxChecked (numChecked s)); [lia|].
  unfold bind. rewrite Ec. destruct c; reflexivity.
Qed.

Lemma window_body_spent maxChecked f i s kr :
  maxChecked <= numChecked s ->
  window_body maxChecked f i s kr
  = Done (Return (earliestChecked (lower i s)) (calls s), kr).
Proof.
  intros Hb. unfold window_body, exhausted.
  destruct (Z.leb_spec maxChecked (numChecked s)); [reflexivity | lia].
Qed.

Lemma checked_bit_eq kr i c : Checked i kr = Done (c, kr) -> checked_bit kr i = c.
Proof. intros E. unfold checked_bit. now rewrite E. Qed.

(** The rounds on which the loop over the buffer invokes [roundCheck]:
    the checked ones, in order, as far as the budget goes. *)
Lemma window_loop_calls fuel : forall kr maxChecked f i s,
  1 <= BitBuffer.words (bitStream kr) ->
  0 <= i -> lastChecked kr < MaxUint64 ->
  0 <= numChecked s -> maxChecked < two64 ->
  (Z.to_nat (lastChecked kr - i + 1) <= fuel)%nat ->
  exists fl,
    window_loop fuel maxChecked f i s kr = Done (fl, kr)
    /\ calls_of fl
       = calls s ++ firstn (Z.to_nat (maxChecked - numChecked s))
                           (filter (fun r => checked_bit kr r = true)
                                   (seqZ i (lastChecked kr - i + 1))).
Proof.
  induction fuel as [|fuel IH]; intros kr maxChecked f i s HW Hi Hl Hn Hm Hf.
  - assert (lastChecked kr < i) by lia.
    exists (Continue s). simpl. unfold bind, getS.
    destruct (Z.leb_spec i (lastChecked kr)); [lia|].
    split; [reflexivity|]. unfold seqZ. simpl.
    replace (Z.to_nat (lastChecked kr - i + 1)) with 0%nat by lia.
    simpl. rewrite firstn_nil, app_nil_r. reflexivity.
  - simpl. unfold bind at 1. unfold getS.
    destruct (Z.leb_spec i (lastChecked kr)) as [Hin|Hout].
    + assert (Hseq : seqZ i (lastChecked kr - i + 1)
                     = i :: seqZ (i + 1) (lastChecked kr - (i + 1) + 1)).
      { rewrite seqZ_cons by lia. f_equal. f_equal; lia. }
      destruct (Z.le_gt_cases maxChecked (numChecked s)) as [Hspent|Hbudget].
      * exists (Return (earliestChecked (lower i s)) (calls s)).
        unfold bind. rewrite window_body_spent by assumption.
        split; [reflexivity|]. simpl.
        replace (Z.to_nat (maxChecked - numChecked s)) with 0%nat by lia.
        simpl. now rewrite app_nil_r.
      * destruct (Checked_total kr i HW) as [c Ec].
        unfold bind. rewrite (window_body_eq _ _ _ _ _ c Hbudget Ec).
        rewrite u64_id by (unfold_ints; lia).
        rewrite Hseq, filter_cons.
        pose proof (checked_bit_eq kr i c Ec) as Hbit.
        destruct c.
        -- destruct (IH kr maxChecked f (i + 1) (ask f i s) HW ltac:(lia) Hl)
             as (fl & E & Hc).
           { simpl. unfold u64. apply Z.mod_pos_bound. reflexivity. }
           { exact Hm. }
           { lia. }
           exists fl. split; [exact E|]. rewrite Hc. simpl.
           rewrite u64_id by (unfold_ints; lia).
           rewrite decide_True by exact Hbit.
           replace (Z.to_nat (maxChecked - numChecked s))
             with (S (Z.to_nat (maxChecked - (numChecked s + 1)))) by lia.
           simpl. rewrite <- app_assoc. reflexivity.
        -- destruct (IH kr maxChecked f (i + 1) (lower i s) HW ltac:(lia) Hl)
             as (fl & E & Hc).
           { exact Hn. }
           { exact Hm. }
           { lia. }
           exists fl. split; [exact E|]. rewrite Hc. simpl.
           rewrite decide_False by (rewrite Hbit; discriminate). reflexivity.
    + exists (Continue s). split; [reflexivity|]. simpl.
      unfold seqZ. replace (Z.to_nat (lastChecked kr - i + 1)) with 0%nat by lia.
      simpl. rewrite firstn_nil, app_nil_r. reflexivity.
Qed.

(** C2 (amended): in the scan of [RangeUnchecked] over the rounds [i] of
    the buffer, on a pass with budget left: if [Checked(i)] is false the
    round is skipped, without invoking [roundCheck] and without consuming
    budget, and [earliestChecked] is lowered to [min(earliestChecked, i)];
    if [Checked(i)] is true, [roundCheck(i)] is invoked, the budget
    counter goes up by one, and when [roundCheck(i)] returns false
    [earliestChecked] is lowered to [min(earliestChecked, i)].  So over
    the whole scan [roundCheck] is invoked, budget permitting, exactly on
    the rounds with [Checked(i)] true. *)
Theorem RangeUnchecked_window_scan (kr : KnownRounds) (maxChecked : Z)
    (roundCheck : Z -> bool) (i : Z) (s : scan) :
  1 <= BitBuffer.words (bitStream kr) ->
  0 <= i -> lastChecked kr < MaxUint64 ->
  0 <= numChecked s < maxChecked -> maxChecked < two64 ->
  (exists c s',
     Checked i kr = Done (c, kr)
     /\ window_body maxChecked roundCheck i s kr = Done (Continue s', kr)
     /\ (c = false ->
         calls s' = calls s /\ numChecked s' = numChecked s
         /\ earliestChecked s' = Z.min (earliestChecked s) i)
     /\ (c = true ->
         calls s' = calls s ++ [i] /\ numChecked s' = numChecked s + 1
         /\ earliestChecked s'
            = if roundCheck i then earliestChecked s
              else Z.min (earliestChecked s) i))
  /\ (forall fuel, (Z.to_nat (lastChecked kr - i + 1) <= fuel)%nat ->
      exists fl,
        window_loop fuel maxChecked roundCheck i s kr = Done (fl, kr)
        /\ calls_of fl
           = calls s ++ firstn (Z.to_nat (maxChecked - numChecked s))
                               (filter (fun r => checked_bit kr r = true)
                                       (seqZ i (lastChecked kr - i + 1)))).
Proof.
  intros HW Hi Hl Hn Hm. split.
  - destruct (Checked_total kr i HW) as [c Ec].
    exists c, (if c then ask roundCheck i s else lower i s).
    split; [exact Ec|]. split; [apply window_body_eq; [lia | exact Ec]|].
    split; intros ->; simpl.
    + repeat split. destruct (Z.ltb_spec i (earliestChecked s)); lia.
    + repeat split; [apply u64_id; unfold_ints; lia|].
      destruct (roundCheck i); simpl; [reflexivity|].
      destruct (Z.ltb_spec i (earliestChecked s)); lia.
  - intros fuel Hf. apply window_loop_calls; try assumption; lia.
Qed.

Lemma RangeUnchecked_window_scan_witness :
  (exists c s',
     Checked 1 scan_test_state = Done (c, scan_test_state)
     /\ window_body 10 (fun _ => false) 1 (mkScan 0 MaxUint64 []) scan_test_state
        = Done (Continue s', scan_test_state)
     /\ (c = false ->
         calls s' = [] /\ numChecked s' = 0
         /\ earliestChecked s' = Z.min MaxUint64 1)
     /\ (c = true ->
         calls s' = [] ++ [1] /\ numChecked s' = 0 + 1
         /\ earliestChecked s' = Z.min MaxUint64 1))
  /\ (forall fuel, (Z.to_nat (3 - 1 + 1) <= fuel)%nat ->
      exists fl,
        window_loop fuel 10 (fun _ => false) 1 (mkScan 0 MaxUint64 []) scan_test_state
        = Done (fl, scan_test_state)
        /\ calls_of fl = [] ++ firstn (Z.to_nat (10 - 0)) [1; 3]).
Proof.
  apply (RangeUnchecked_window_scan scan_test_state 10 (fun _ => false) 1
           (mkScan 0 MaxUint64 [])); vm_compute; intuition discriminate.
Defined.

(* ===================================================================== *)
(** ** The cursors at the largest round *)
(* ===================================================================== *)

(** C6 fails on the code: from a new buffer of 64 rounds,
    [Forward(2^64 - 1)] and then [Check(2^64 - 1)] return, and leave
    [firstUnchecked = 2^64 - 1] above [lastChecked + 1 = 1].  In the
    single-round branch of [check] the sum [rid + 1] wraps to 0; the
    branch for a round that has lapped the buffer then takes [rid] to be
    far beyond [firstUnchecked = 0] and moves [firstUnchecked] to [rid],
    while [lastChecked] stays 0. *)
Theorem cursors_cross_at_max_round :
  exists kr',
    obind (NewKnownRound 64) (Forward MaxUint64 ;; Check MaxUint64) = Done (tt, kr')
    /\ firstUnchecked kr' = MaxUint64 /\ lastChecked kr' = 0
    /\ ~ (firstUnchecked kr' <= lastChecked kr' + 1).
Proof.
  eexists. split; [vm_compute; reflexivity|].
  simpl. repeat split. vm_compute. intros H. apply H. reflexivity.
Qed.

(* ===================================================================== *)
(** ** [Check] twice *)
(* ===================================================================== *)

Lemma bind_done {A B} (m : M A) (k : A -> M B) kr a kr' :
  m kr = Done (a, kr') -> bind m k kr = k a kr'.
Proof. intros E. unfold bind. now rewrite E. Qed.

Lemma bitPos_done kr r p : getBitStreamPos kr r = Done p -> bitPos r kr = Done (p, kr).
Proof. intros E. unfold bitPos, lift. now rewrite E. Qed.

Lemma mod_second_lap x C : C <= x < 2 * C -> x mod C = x - C.
Proof.
  intros H. replace x with ((x - C) + 1 * C) at 1 by lia.
  rewrite Z.mod_add by lia. apply Z.mod_small. lia.
Qed.

(** Two rounds of the window less than [C] apart have different
    positions. *)
Lemma mod_shift_eq a d C :
  0 <= a < C -> 0 <= d < C -> ((a + d) mod C = a <-> d = 0).
Proof.
  intros Ha Hd. destruct (Z.lt_ge_cases (a + d) C).
  - rewrite Z.mod_small by lia. lia.
  - rewrite mod_second_lap by lia. lia.
Qed.

(** The position of a round at or after [firstUnchecked], less than two
    laps away. *)
Lemma getBitStreamPos_window kr r :
  1 <= BitBuffer.words (bitStream kr) < 2 ^ 55 ->
  in_u64 (firstUnchecked kr) -> 0 <= fuPos kr < Len kr ->
  firstUnchecked kr <= r -> r - firstUnchecked kr < 2 * Len kr ->
  getBitStreamPos kr r = Done ((fuPos kr + (r - firstUnchecked kr)) mod Len kr).
Proof.
  intros HW Hfu Hp Hr Hd.
  assert (HL : 64 <= Len kr < 2 ^ 61) by (unfold Len; lia).
  unfold getBitStreamPos, go_rem.
  destruct (Z.eqb_spec (Len kr) 0); [lia|].
  destruct (Z.ltb_spec r (firstUnchecked kr)); [lia|].
  rewrite u64_id by (unfold_ints; lia).
  rewrite (to_int_small (r - firstUnchecked kr)) by (unfold_ints; lia).
  rewrite i64_id by (unfold_ints; lia).
  f_equal. apply Z.rem_mod_nonneg; lia.
Qed.

Lemma check_below rid kr : rid < firstUnchecked kr -> check rid kr = Done (tt, kr).
Proof.
  intros H. unfold check, bind, getS, ret.
  destruct (Z.ltb_spec rid (firstUnchecked kr)); [reflexivity | lia].
Qed.

Lemma extend_window_stay rid pos kr :
  rid <= lastChecked kr -> extend_window rid pos kr = Done (tt, kr).
Proof.
  intros H. unfold extend_window, bind, getS, ret.
  destruct (Z.ltb_spec (lastChecked kr) rid); [lia | reflexivity].
Qed.

Lemma extend_window_grow rid pos kr p1 :
  lastChecked kr < rid ->
  getBitStreamPos kr (u64 (lastChecked kr + 1)) = Done p1 ->
  extend_window rid pos kr
  = Done (tt, with_lastChecked rid
                (with_bitStream (BitBuffer.clearRange (bitStream kr) p1 pos) kr)).
Proof.
  intros H E. unfold extend_window. rewrite (bind_done _ _ kr kr kr eq_refl).
  destruct (Z.ltb_spec (lastChecked kr) rid); [|lia].
  rewrite (bind_done _ _ _ _ _ (bitPos_done _ _ _ E)). reflexivity.
Qed.

Lemma advance_first_stay rid pos kr fp :
  getBitStreamPos kr (firstUnchecked kr) = Done fp -> fp <> pos ->
  advance_first rid pos kr = Done (tt, kr).
Proof.
  intros E H. unfold advance_first. rewrite (bind_done _ _ kr kr kr eq_refl).
  rewrite (bind_done _ _ _ _ _ (bitPos_done _ _ _ E)).
  destruct (Z.eqb_spec fp pos); [contradiction | reflexivity].
Qed.

Lemma advance_first_single rid pos kr np :
  getBitStreamPos kr (firstUnchecked kr) = Done pos ->
  getBitStreamPos kr (lastChecked kr) = Done pos ->
  getBitStreamPos kr (u64 (rid + 1)) = Done np ->
  advance_first rid pos kr
  = Done (tt, mkKR (BitBuffer.clear (bitStream kr) np)
                   (u64 (rid + 1)) (u64 (rid + 1)) np).
Proof.
  intros E1 E2 E3. unfold advance_first. rewrite (bind_done _ _ kr kr kr eq_refl).
  rewrite (bind_done _ _ _ _ _ (bitPos_done _ _ _ E1)), Z.eqb_refl.
  rewrite (bind_done _ _ _ _ _ (bitPos_done _ _ _ E2)), Z.eqb_refl.
  rewrite (bind_done _ _ _ _ _ (bitPos_done _ _ _ E3)). reflexivity.
Qed.

Lemma advance_first_migrate rid pos kr lp :
  getBitStreamPos kr (firstUnchecked kr) = Done pos ->
  getBitStreamPos kr (lastChecked kr) = Done lp -> lp <> pos ->
  advance_first rid pos kr = migrateFirstUnchecked rid kr.
Proof.
  intros E1 E2 H. unfold advance_first. rewrite (bind_done _ _ kr kr kr eq_refl).
  rewrite (bind_done _ _ _ _ _ (bitPos_done _ _ _ E1)), Z.eqb_refl.
  rewrite (bind_done _ _ _ _ _ (bitPos_done _ _ _ E2)).
  destruct (Z.eqb_spec lp pos); [contradiction | reflexivity].
Qed.

Lemma handle_lapse_stay rid kr :
  (firstUnchecked kr <? rid)
  && (to_round (Len kr) <=? u64 (rid - firstUnchecked kr)) = false ->
  handle_lapse rid kr = Done (tt, kr).
Proof.
  intros H. unfold handle_lapse. rewrite (bind_done _ _ kr kr kr eq_refl).
  rewrite H. reflexivity.
Qed.

(** [check] on a round at or after [firstUnchecked], given what its four
    steps do. *)
Lemma check_steps rid kr pos kr2 kr3 kr4 :
  firstUnchecked kr <= rid ->
  getBitStreamPos kr rid = Done pos ->
  extend_window rid pos (with_bitStream (BitBuffer.set (bitStream kr) pos) kr)
  = Done (tt, kr2) ->
  advance_first rid pos kr2 = Done (tt, kr3) ->
  handle_lapse rid kr3 = Done (tt, kr4) ->
  check rid kr
  = Done (tt, with_bitStream (BitBuffer.set (bitStream kr4) pos) kr4).
Proof.
  intros H E E2 E3 E4. unfold check. rewrite (bind_done _ _ kr kr kr eq_refl).
  destruct (Z.ltb_spec rid (firstUnchecked kr)); [lia|].
  rewrite (bind_done _ _ _ _ _ (bitPos_done _ _ _ E)).
  rewrite (bind_done (bs_set pos) _ kr tt
             (with_bitStream (BitBuffer.set (bitStream kr) pos) kr) eq_refl).
  rewrite (bind_done _ _ _ _ _ E2), (bind_done _ _ _ _ _ E3), (bind_done _ _ _ _ _ E4).
  reflexivity.
Qed.

(** The first pass of the loop of [migrateFirstUnchecked] when the bit
    of [rid] is set and [rid] is below [lastChecked]. *)
Lemma migrate_loop_moves kr rid p :
  1 <= BitBuffer.words (bitStream kr) ->
  in_u64 rid -> in_u64 (lastChecked kr) ->
  getBitStreamPos kr rid = Done p ->
  BitBuffer.get (bitStream kr) p = true -> rid < lastChecked kr ->
  exists r, migrate_loop (Z.to_nat (lastChecked kr - rid)) kr rid = Done r
            /\ rid < r <= lastChecked kr.
Proof.
  intros HW Hr Hl Ep Hg Hlt.
  destruct (Z.to_nat (lastChecked kr - rid)) as [|fuel] eqn:Ef; [lia|].
  simpl. rewrite Ep. simpl. rewrite Hg.
  destruct (Z.ltb_spec rid (lastChecked kr)); [|lia]. simpl.
  rewrite u64_id by (unfold in_u64 in *; lia).
  destruct (migrate_loop_total fuel kr (rid + 1) HW
              ltac:(unfold in_u64 in *; lia) ltac:(unfold in_u64 in *; lia)
              ltac:(lia)) as (r & Er & H1 & H2).
  exists r. split; [exact Er | lia].
Qed.

Lemma out_of_scope_state rid kr b kr' : out_of_scope rid kr = Done (b, kr') -> kr' = kr.
Proof.
  unfold out_of_scope, bind, getS, lift, ret.
  destruct (go_div _ _); intros E; inversion E; reflexivity.
Qed.

(** Within the capacity [Check] is [check]. *)
Lemma Check_near rid kr :
  1 <= BitBuffer.words (bitStream kr) < 2 ^ 57 ->
  in_u64 (lastChecked kr) -> in_u64 rid ->
  Z.abs (lastChecked kr - rid) < Len kr ->
  Check rid kr = check rid kr.
Proof.
  intros HW Hl Hr Hd.
  assert (HL : Len kr < two63) by (unfold Len; unfold_ints; lia).
  unfold Check. rewrite (bind_done _ _ _ _ _ (out_of_scope_distance kr rid HW Hl Hr ltac:(lia))).
  destruct (Z.leb_spec (Len kr) (Z.abs (lastChecked kr - rid))); [lia | reflexivity].
Qed.

(** The position mapping reads the cursor, its position and the number
    of words only. *)
Lemma getBitStreamPos_ext kr kr' r :
  firstUnchecked kr' = firstUnchecked kr -> fuPos kr' = fuPos kr ->
  BitBuffer.words (bitStream kr') = BitBuffer.words (bitStream kr) ->
  getBitStreamPos kr' r = getBitStreamPos kr r.
Proof. intros E1 E2 E3. unfold getBitStreamPos, Len. now rewrite E1, E2, E3. Qed.

Lemma with_bitStream_same kr : with_bitStream (bitStream kr) kr = kr.
Proof. destruct kr. reflexivity. Qed.

(** A round of the window whose bit is set, other than the first
    unchecked one: [check] changes nothing. *)
Lemma check_settled rid kr :
  1 <= BitBuffer.words (bitStream kr) < 2 ^ 55 ->
  in_u64 (firstUnchecked kr) -> 0 <= fuPos kr < Len kr ->
  firstUnchecked kr < rid -> rid - firstUnchecked kr < Len kr ->
  rid <= lastChecked kr ->
  BitBuffer.set (bitStream kr) ((fuPos kr + (rid - firstUnchecked kr)) mod Len kr)
  = bitStream kr ->
  check rid kr = Done (tt, kr).
Proof.
  intros HW Hfu Hp Hlt Hd Hle Hset.
  set (pos := (fuPos kr + (rid - firstUnchecked kr)) mod Len kr) in *.
  assert (Epos : getBitStreamPos kr rid = Done pos)
    by (apply getBitStreamPos_window; try assumption; lia).
  assert (Efu : getBitStreamPos kr (firstUnchecked kr) = Done (fuPos kr)).
  { rewrite getBitStreamPos_window by (try assumption; lia).
    rewrite Z.sub_diag, Z.add_0_r, Z.mod_small by lia. reflexivity. }
  assert (Hne : fuPos kr <> pos).
  { intros Heq. symmetry in Heq. apply mod_shift_eq in Heq; lia. }
  rewrite (check_steps rid kr pos kr kr kr); try assumption; try lia.
  - rewrite Hset. now rewrite with_bitStream_same.
  - rewrite Hset, with_bitStream_same. now apply extend_window_stay.
  - now apply (advance_first_stay rid pos kr (fuPos kr)).
  - apply handle_lapse_stay.
    destruct (Z.ltb_spec (firstUnchecked kr) rid); [|lia]. simpl.
    unfold to_round. rewrite !u64_id by (unfold Len in *; unfold_ints; lia).
    apply Z.leb_gt. lia.
Qed.

(** C7 (as stated) fails on a state reached from a new buffer of 64
    rounds by [Check(10)]: the first [Check(70)] laps the buffer and
    leaves both cursors on round 70, the second one moves them to 71. *)
Lemma Check_twice_differs :
  exists kr kr1 kr2,
    obind (NewKnownRound 64) (Check 10) = Done (tt, kr)
    /\ Check 70 kr = Done (tt, kr1)
    /\ Check 70 kr1 = Done (tt, kr2)
    /\ firstUnchecked kr1 = 70 /\ firstUnchecked kr2 = 71.
Proof.
  eexists. eexists. eexists.
  split; [vm_compute; reflexivity|].
  split; [vm_compute; reflexivity|].
  split; [vm_compute; reflexivity|].
  split; reflexivity.
Qed.

(** C7 (amended): [Check] is idempotent on the states of the data model
    (a buffer of at least one word, [fuPos] a position of the buffer,
    [firstUnchecked <= lastChecked] less than the capacity apart) for
    every round [rid < 2^64 - 1] that does not lap the buffer
    ([rid - firstUnchecked < C]): when [Check(rid)] does not fail
    fatally, running it twice gives the state (buffer, both cursors and
    [fuPos]) that running it once gives. *)
Theorem Check_idempotent_in_window (kr : KnownRounds) (rid : Z) :
  window_ok kr ->
  in_u64 rid -> rid < MaxUint64 ->
  rid - firstUnchecked kr < Len kr ->
  forall kr1,
    Check rid kr = Done (tt, kr1) ->
    (Check rid ;; Check rid) kr = Done (tt, kr1).
Proof.
  intros (HW & Hfu & Hl & Hp & Hord & Hwin) Hr Hmax Hlap kr1 E.
  assert (HL : 64 <= Len kr < 2 ^ 61) by (unfold Len; lia).
  rewrite (bind_done _ _ _ _ _ E).
  destruct (Z.lt_ge_cases rid (firstUnchecked kr)) as [Hbelow|Hin].
  - (* the round is before the window: nothing changes *)
    assert (kr1 = kr); [|subst kr1; exact E].
    unfold Check, bind in E.
    destruct (out_of_scope rid kr) as [[far k]| |] eqn:Eg; try discriminate.
    apply out_of_scope_state in Eg. subst k.
    destruct far; [discriminate|].
    rewrite check_below in E by assumption. now inversion E.
  - rewrite Check_near in E by (try assumption; lia).
    set (pos := (fuPos kr + (rid - firstUnchecked kr)) mod Len kr).
    assert (Epos : getBitStreamPos kr rid = Done pos)
      by (apply getBitStreamPos_window; try assumption; lia).
    set (kra := with_bitStream (BitBuffer.set (bitStream kr) pos) kr).
    assert (Hwa : BitBuffer.words (bitStream kra) = BitBuffer.words (bitStream kr))
      by apply BitBufferFacts.words_set.
    assert (Hposa : forall r, getBitStreamPos kra r = getBitStreamPos kr r)
      by (intros r; apply getBitStreamPos_ext; auto).
    assert (Efu : getBitStreamPos kr (firstUnchecked kr) = Done (fuPos kr)).
    { rewrite getBitStreamPos_window by (try assumption; lia).
      rewrite Z.sub_diag, Z.add_0_r, Z.mod_small by lia. reflexivity. }
    destruct (Z.eq_dec rid (firstUnchecked kr)) as [Heq|Hne].
    + (* the round is the first unchecked one *)
      assert (Hpos : pos = fuPos kr).
      { subst pos. rewrite Heq, Z.sub_diag, Z.add_0_r. apply Z.mod_small. lia. }
      destruct (Z.eq_dec (lastChecked kr) (firstUnchecked kr)) as [Hone|Hmore].
      * (* a window of one round: both cursors step over it *)
        assert (Enp : getBitStreamPos kra (u64 (rid + 1))
                      = Done ((fuPos kr + 1) mod Len kr)).
        { rewrite Hposa, u64_id by (unfold_ints; lia).
          rewrite getBitStreamPos_window by (try assumption; lia).
          do 2 f_equal. lia. }
        assert (E2 : extend_window rid pos kra = Done (tt, kra))
          by (apply extend_window_stay; simpl; lia).
        set (kr3 := mkKR (BitBuffer.clear (bitStream kra) ((fuPos kr + 1) mod Len kr))
                         (u64 (rid + 1)) (u64 (rid + 1)) ((fuPos kr + 1) mod Len kr)).
        assert (E3 : advance_first rid pos kra = Done (tt, kr3)).
        { apply advance_first_single; [| |exact Enp].
          - rewrite Hposa, Hpos. exact Efu.
          - rewrite Hposa, Hpos. simpl. rewrite Hone. exact Efu. }
        assert (E4 : handle_lapse rid kr3 = Done (tt, kr3)).
        { apply handle_lapse_stay. simpl. rewrite u64_id by (unfold_ints; lia).
          destruct (Z.ltb_spec (rid + 1) rid); [lia | reflexivity]. }
        rewrite (check_steps rid kr pos kra kr3 kr3 Hin Epos E2 E3 E4) in E.
        inversion E as [E1]. clear E.
        rewrite Check_near.
        -- apply check_below. simpl. rewrite u64_id by (unfold_ints; lia). lia.
        -- simpl. rewrite BitBufferFacts.words_set, BitBufferFacts.words_clear,
             BitBufferFacts.words_set. lia.
        -- simpl. apply u64_range.
        -- exact Hr.
        -- simpl. rewrite u64_id by (unfold_ints; lia).
           unfold Len. simpl.
           rewrite BitBufferFacts.words_set, BitBufferFacts.words_clear,
             BitBufferFacts.words_set. fold (Len kr). lia.
      * (* the first unchecked round migrates past [rid] *)
        assert (Elc : getBitStreamPos kr (lastChecked kr)
                      = Done ((fuPos kr + (lastChecked kr - firstUnchecked kr))
                              mod Len kr))
          by (apply getBitStreamPos_window; try assumption; lia).
        assert (Hlp : (fuPos kr + (lastChecked kr - firstUnchecked kr)) mod Len kr
                      <> pos).
        { rewrite Hpos. intros Hc. apply mod_shift_eq in Hc; lia. }
        destruct (migrate_loop_moves kra rid pos) as (r & Er & Hr1 & Hr2).
        { lia. } { exact Hr. } { exact Hl. }
        { now rewrite Hposa. }
        { apply BitBufferFacts.get_set. lia. }
        { simpl. lia. }
        destruct (getBitStreamPos_total kra r ltac:(lia)) as [pr Epr].
        assert (E2 : extend_window rid pos kra = Done (tt, kra))
          by (apply extend_window_stay; simpl; lia).
        set (kr3 := with_firstUnchecked r (with_fuPos pr kra)).
        assert (E3 : advance_first rid pos kra = Done (tt, kr3)).
        { rewrite (advance_first_migrate rid pos kra
                     ((fuPos kr + (lastChecked kr - firstUnchecked kr)) mod Len kr)).
          - now apply migrateFirstUnchecked_eq.
          - rewrite Hposa, Hpos. exact Efu.
          - rewrite Hposa. exact Elc.
          - exact Hlp. }
        assert (E4 : handle_lapse rid kr3 = Done (tt, kr3)).
        { apply handle_lapse_stay. simpl.
          destruct (Z.ltb_spec r rid); [lia | reflexivity]. }
        rewrite (check_steps rid kr pos kra kr3 kr3 Hin Epos E2 E3 E4) in E.
        inversion E as [E1]. clear E.
        rewrite Check_near.
        -- apply check_below. simpl. lia.
        -- simpl. rewrite !BitBufferFacts.words_set. lia.
        -- exact Hl.
        -- exact Hr.
        -- unfold Len. simpl. rewrite !BitBufferFacts.words_set. fold (Len kr). lia.
    + (* a later round of the window: only its bit is set *)
      assert (exists kr2,
                extend_window rid pos kra = Done (tt, kr2)
                /\ firstUnchecked kr2 = firstUnchecked kr
                /\ fuPos kr2 = fuPos kr
                /\ BitBuffer.words (bitStream kr2) = BitBuffer.words (bitStream kr)
                /\ lastChecked kr2 = Z.max (lastChecked kr) rid)
        as (kr2 & E2 & Hfu2 & Hp2 & Hw2 & Hl2).
      { destruct (Z.le_gt_cases rid (lastChecked kr)) as [Hle|Hgt].
        - exists kra. split; [apply extend_window_stay; simpl; lia|].
          repeat split; try assumption. simpl. lia.
        - destruct (getBitStreamPos_total kra (u64 (lastChecked kra + 1)) ltac:(lia))
            as [p1 Ep1].
          eexists. split; [apply (extend_window_grow rid pos kra p1); [simpl; lia | exact Ep1]|].
          repeat split; simpl.
          + rewrite BitBufferFacts.words_clearRange. exact Hwa.
          + lia. }
      assert (Lenkr2 : Len kr2 = Len kr) by (unfold Len; now rewrite Hw2).
      assert (Hpos2 : forall r, getBitStreamPos kr2 r = getBitStreamPos kr r)
        by (intros r; apply getBitStreamPos_ext; auto).
      assert (Hne2 : fuPos kr <> pos).
      { intros Heq. symmetry in Heq. apply mod_shift_eq in Heq; lia. }
      assert (E3 : advance_first rid pos kr2 = Done (tt, kr2)).
      { apply (advance_first_stay rid pos kr2 (fuPos kr)); [|exact Hne2].
        rewrite Hfu2, Hpos2. exact Efu. }
      assert (E4 : handle_lapse rid kr2 = Done (tt, kr2)).
      { apply handle_lapse_stay. rewrite Hfu2, Lenkr2.
        destruct (Z.ltb_spec (firstUnchecked kr) rid); [|lia]. simpl.
        unfold to_round. rewrite !u64_id by (unfold_ints; lia).
        apply Z.leb_gt. lia. }
      rewrite (check_steps rid kr pos kr2 kr2 kr2 Hin Epos E2 E3 E4) in E.
      inversion E as [E1]. clear E.
      set (kr' := with_bitStream (BitBuffer.set (bitStream kr2) pos) kr2).
      assert (Hw' : BitBuffer.words (bitStream kr') = BitBuffer.words (bitStream kr)).
      { unfold kr'. simpl. now rewrite BitBufferFacts.words_set. }
      assert (Len' : Len kr' = Len kr) by (unfold Len; now rewrite Hw').
      rewrite Check_near.
      * apply check_settled.
        -- rewrite Hw'. exact HW.
        -- unfold kr'. simpl. now rewrite Hfu2.
        -- unfold kr'. simpl. rewrite Hp2. fold kr'. now rewrite Len'.
        -- unfold kr'. simpl. rewrite Hfu2. lia.
        -- rewrite Len'. unfold kr'. simpl. rewrite Hfu2. lia.
        -- unfold kr'. simpl. rewrite Hl2. lia.
        -- rewrite Len'. unfold kr'. simpl. rewrite Hfu2, Hp2. fold pos.
           apply BitBufferFacts.set_set. lia.
      * rewrite Hw'. lia.
      * unfold kr'. simpl. rewrite Hl2. unfold in_u64 in *. lia.
      * exact Hr.
      * rewrite Len'. unfold kr'. simpl. rewrite Hl2. lia.
Qed.

Lemma Check_idempotent_in_window_witness :
  (Check 95 ;; Check 95) (mkKR [0; MaxUint64; 0; MaxUint64; 0] 75 200 11)
  = Done (tt, mkKR [4294967296; MaxUint64; 0; MaxUint64; 0] 75 200 11).
Proof.
  apply (Check_idempotent_in_window (mkKR [0; MaxUint64; 0; MaxUint64; 0] 75 200 11) 95).
  - unfold window_ok. vm_compute. intuition discriminate.
  - vm_compute. intuition discriminate.
  - reflexivity.
  - reflexivity.
  - reflexivity.
Defined.

(* ===================================================================== *)
(** ** The JSON envelope reads back *)
(* ===================================================================== *)

Module JsonFacts.
Import Json.

Lemma byte_val_range b : 0 <= byte_val b < 256.
Proof. unfold byte_val. pose proof (Byte.to_N_bounded b). lia. Qed.

Lemma byte_of_val b : byte_of (byte_val b) = b.
Proof. unfold byte_of, byte_val. now rewrite N2Z.id, Byte.of_to_N. Qed.

Lemma byte_val_of z : 0 <= z < 256 -> byte_val (byte_of z) = z.
Proof.
  intros Hz. unfold byte_of, byte_val.
  destruct (Byte.of_N (Z.to_N z)) as [b|] eqn:E.
  - apply Byte.to_of_N in E. rewrite E. lia.
  - apply Byte.of_N_None_iff in E. lia.
Qed.

(** Every sextet has a character of its own, which is not the quote. *)
Lemma b64_char_facts n :
  0 <= n < 64 -> b64_val (b64_char n) = Some n /\ Ascii.eqb (b64_char n) dquote = false.
Proof.
  intros Hn. rewrite <- (Z2Nat.id n) by lia.
  assert (Hk : (Z.to_nat n < 64)%nat) by lia.
  generalize dependent (Z.to_nat n). clear n Hn. intros k Hk.
  do 64 (destruct k as [|k]; [split; reflexivity|]). lia.
Qed.

Lemma b64_val_char n : 0 <= n < 64 -> b64_val (b64_char n) = Some n.
Proof. intros H. now apply b64_char_facts. Qed.

Lemma list_ind3 {A} (P : list A -> Prop) :
  P [] -> (forall a, P [a]) -> (forall a b, P [a; b]) ->
  (forall a b c l, P l -> P (a :: b :: c :: l)) ->
  forall l, P l.
Proof.
  intros H0 H1 H2 H3 l.
  assert (H : forall n l, (length l <= n)%nat -> P l).
  { clear l. induction n as [|n IH]; intros l Hl.
    - destruct l; [exact H0 | simpl in Hl; lia].
    - destruct l as [|a [|b [|c l]]]; auto.
      apply H3, IH. simpl in Hl. lia. }
  apply (H (length l)). lia.
Qed.

Lemma sextet_ranges a b c :
  0 <= a < 256 -> 0 <= b < 256 -> 0 <= c < 256 ->
  0 <= a / 4 < 64 /\ 0 <= (a mod 4) * 16 + b / 16 < 64
  /\ 0 <= (b mod 16) * 4 + c / 64 < 64 /\ 0 <= c mod 64 < 64
  /\ 0 <= (a mod 4) * 16 < 64 /\ 0 <= (b mod 16) * 4 < 64.
Proof. intros. Z.div_mod_to_equations. lia. Qed.

Lemma dec3_enc3 a b c :
  0 <= a < 256 -> 0 <= b < 256 -> 0 <= c < 256 ->
  a / 4 * 4 + ((a mod 4) * 16 + b / 16) / 16 = a
  /\ (((a mod 4) * 16 + b / 16) mod 16) * 16 + ((b mod 16) * 4 + c / 64) / 4 = b
  /\ (((b mod 16) * 4 + c / 64) mod 4) * 64 + c mod 64 = c.
Proof. intros. Z.div_mod_to_equations. lia. Qed.

(** Decoding the base64 text of some bytes gives the bytes. *)
Lemma base64_decode_encode bs : base64_decode (base64_encode bs) = Some bs.
Proof.
  induction bs as [|x|x y|x y z l IH] using list_ind3.
  - reflexivity.
  - pose proof (byte_val_range x) as Hx.
    destruct (sextet_ranges (byte_val x) 0 0 Hx ltac:(lia) ltac:(lia))
      as (S1 & _ & _ & _ & S2 & _).
    cbn [base64_encode base64_decode].
    rewrite (b64_val_char _ S1), (b64_val_char _ S2).
    change (b64_val pad) with (@None Z). cbn.
    destruct (dec3_enc3 (byte_val x) 0 0 Hx ltac:(lia) ltac:(lia)) as (E1 & _).
    rewrite Z.div_0_l, Z.add_0_r in E1 by lia.
    rewrite E1, byte_of_val. reflexivity.
  - pose proof (byte_val_range x) as Hx. pose proof (byte_val_range y) as Hy.
    destruct (sextet_ranges (byte_val x) (byte_val y) 0 Hx Hy ltac:(lia))
      as (S1 & S2 & _ & _ & _ & S3).
    cbn [base64_encode base64_decode].
    rewrite (b64_val_char _ S1), (b64_val_char _ S2), (b64_val_char _ S3).
    change (b64_val pad) with (@None Z). cbn.
    destruct (dec3_enc3 (byte_val x) (byte_val y) 0 Hx Hy ltac:(lia)) as (E1 & E2 & _).
    rewrite Z.div_0_l, Z.add_0_r in E2 by lia.
    rewrite E1, E2, !byte_of_val. reflexivity.
  - pose proof (byte_val_range x) as Hx. pose proof (byte_val_range y) as Hy.
    pose proof (byte_val_range z) as Hz.
    destruct (sextet_ranges (byte_val x) (byte_val y) (byte_val z) Hx Hy Hz)
      as (S1 & S2 & S3 & S4 & _ & _).
    cbn [base64_encode enc3 app base64_decode].
    rewrite (b64_val_char _ S1), (b64_val_char _ S2),
      (b64_val_char _ S3), (b64_val_char _ S4), IH.
    destruct (dec3_enc3 (byte_val x) (byte_val y) (byte_val z) Hx Hy Hz)
      as (E1 & E2 & E3).
    unfold dec3. rewrite E1, E2, E3, !byte_of_val. reflexivity.
Qed.

(** No character of a base64 text is the quote. *)
Lemma base64_encode_no_quote bs :
  Forall (fun c => negb (Ascii.eqb c dquote) = true) (base64_encode bs).
Proof.
  assert (Hc : forall n, 0 <= n < 64 -> negb (Ascii.eqb (b64_char n) dquote) = true).
  { intros n Hn. destruct (b64_char_facts n Hn) as [_ ->]. reflexivity. }
  induction bs as [|x|x y|x y z l IH] using list_ind3.
  - constructor.
  - pose proof (byte_val_range x) as Hx.
    destruct (sextet_ranges (byte_val x) 0 0 Hx ltac:(lia) ltac:(lia))
      as (S1 & _ & _ & _ & S2 & _).
    cbn [base64_encode]. repeat constructor; auto.
  - pose proof (byte_val_range x) as Hx. pose proof (byte_val_range y) as Hy.
    destruct (sextet_ranges (byte_val x) (byte_val y) 0 Hx Hy ltac:(lia))
      as (S1 & S2 & _ & _ & _ & S3).
    cbn [base64_encode]. repeat constructor; auto.
  - pose proof (byte_val_range x) as Hx. pose proof (byte_val_range y) as Hy.
    pose proof (byte_val_range z) as Hz.
    destruct (sextet_ranges (byte_val x) (byte_val y) (byte_val z) Hx Hy Hz)
      as (S1 & S2 & S3 & S4 & _ & _).
    cbn [base64_encode enc3 app]. repeat constructor; auto.
Qed.

Lemma strip_prefix_app p s : strip_prefix p (p ++ s) = Some s.
Proof.
  induction p as [|c p IH]; [reflexivity|]. simpl.
  now rewrite Ascii.eqb_refl.
Qed.

Lemma strip_prefix_more a b s : strip_prefix (a ++ b) (a ++ s) = strip_prefix b s.
Proof.
  induction a as [|c a IH]; [reflexivity|]. simpl.
  now rewrite Ascii.eqb_refl.
Qed.

Lemma span_app f a c r :
  Forall (fun x => f x = true) a -> f c = false ->
  span f (a ++ c :: r) = (a, c :: r).
Proof.
  intros Ha Hc. induction Ha as [|x a Hx _ IH]; simpl.
  - now rewrite Hc.
  - now rewrite Hx, IH.
Qed.

Lemma is_text_refl a : is_text a a = true.
Proof. induction a as [|c a IH]; [reflexivity|]. simpl. now rewrite Ascii.eqb_refl. Qed.

Lemma lit_of_text s : string_of_list_ascii (lit s) = s.
Proof. apply string_of_list_ascii_of_string. Qed.

(** The digits of a number are digits, and there is at least one. *)
Lemma uint_digits d :
  Forall (fun x => is_digit x = true) (lit (NilEmpty.string_of_uint d)).
Proof. induction d; simpl; constructor; auto. Qed.

Lemma digits_are_digits n : Forall (fun x => is_digit x = true) (digits n).
Proof. apply uint_digits. Qed.

Lemma digits_nonempty n : digits n <> [].
Proof.
  unfold digits. destruct (Z.to_N n) as [|p]; [discriminate|].
  unfold N.to_uint. pose proof (DecimalPos.Unsigned.to_uint_nonnil p) as H.
  destruct (Pos.to_uint p); [contradiction | discriminate ..].
Qed.

Lemma parse_digits n : 0 <= n < two64 -> parse_u64 (digits n) = Some n.
Proof.
  intros Hn. unfold parse_u64.
  destruct (digits n) as [|c l] eqn:E; [now apply digits_nonempty in E|].
  rewrite <- E. unfold digits at 1. rewrite lit_of_text, NilEmpty.usu.
  rewrite DecimalN.Unsigned.of_to, Z2N.id by lia.
  destruct (Z.ltb_spec n two64); [|lia].
  now rewrite is_text_refl.
Qed.

(** [json.Unmarshal] reads back what [json.Marshal] wrote. *)
Lemma Unmarshal_Marshal d :
  0 <= FirstUnchecked d < two64 -> 0 <= LastChecked d < two64 ->
  Unmarshal (Marshal d) = Some d.
Proof.
  intros Hf Hl. unfold Unmarshal, Marshal.
  rewrite list_ascii_of_string_of_list_ascii.
  unfold Unmarshal_text, Marshal_text.
  rewrite !strip_prefix_more, strip_prefix_app. cbn [opt_bind].
  change ([dquote] ++ lit "," ++ key "FirstUnchecked" ++ digits (FirstUnchecked d)
          ++ lit "," ++ key "LastChecked" ++ digits (LastChecked d) ++ lit "}")
    with (dquote :: (lit "," ++ key "FirstUnchecked" ++ digits (FirstUnchecked d)
          ++ lit "," ++ key "LastChecked" ++ digits (LastChecked d) ++ lit "}")).
  rewrite (span_app _ _ _ _ (base64_encode_no_quote (BitStream d)))
    by (now rewrite Ascii.eqb_refl).
  rewrite base64_decode_encode. cbn [opt_bind].
  change (dquote :: (lit "," ++ key "FirstUnchecked" ++ digits (FirstUnchecked d)
          ++ lit "," ++ key "LastChecked" ++ digits (LastChecked d) ++ lit "}"))
    with (([dquote] ++ lit "," ++ key "FirstUnchecked")
          ++ digits (FirstUnchecked d)
          ++ ","%char :: (key "LastChecked" ++ digits (LastChecked d) ++ lit "}")).
  rewrite strip_prefix_app. cbn [opt_bind].
  rewrite (span_app _ _ _ _ (digits_are_digits _)) by reflexivity.
  rewrite parse_digits by assumption. cbn [opt_bind].
  change (","%char :: (key "LastChecked" ++ digits (LastChecked d) ++ lit "}"))
    with ((lit "," ++ key "LastChecked") ++ digits (LastChecked d) ++ "}"%char :: []).
  rewrite strip_prefix_app. cbn [opt_bind].
  rewrite (span_app _ _ _ _ (digits_are_digits _)) by reflexivity.
  rewrite parse_digits by assumption. cbn [opt_bind].
  change (is_text ["}"%char] (lit "}")) with true. cbn iota.
  destruct d. reflexivity.
Qed.

End JsonFacts.

(* ===================================================================== *)
(** ** The words read back from their bytes *)
(* ===================================================================== *)

Lemma bytes_word_bytes w : BitBuffer.word_ok w -> BitBuffer.bytes_word (BitBuffer.word_bytes w) = w.
Proof.
  unfold BitBuffer.word_ok. rewrite two64_eq. intros Hw.
  unfold BitBuffer.bytes_word, BitBuffer.word_bytes. cbn [map fold_left].
  fold Json.byte_of. fold Json.byte_val.
  assert (Hb : forall k, 0 <= k -> 0 <= (w / 2 ^ (8 * k)) mod 256 < 256)
    by (intros; apply Z.mod_pos_bound; lia).
  assert (Hv : forall k, 0 <= k ->
                 Json.byte_val (Json.byte_of ((w / 2 ^ (8 * k)) mod 256))
                 = (w / 2 ^ (8 * k)) mod 256).
  { intros k Hk. apply JsonFacts.byte_val_of. now apply Hb. }
  unfold Json.byte_val in Hv. unfold Json.byte_of in Hv.
  unfold Json.byte_val, Json.byte_of.
  rewrite !Hv by lia.
  change (2 ^ (8 * 7)) with 72057594037927936.
  change (2 ^ (8 * 6)) with 281474976710656.
  change (2 ^ (8 * 5)) with 1099511627776.
  change (2 ^ (8 * 4)) with 4294967296.
  change (2 ^ (8 * 3)) with 16777216.
  change (2 ^ (8 * 2)) with 65536.
  change (2 ^ (8 * 1)) with 256.
  change (2 ^ (8 * 0)) with 1.
  Z.div_mod_to_equations. lia.
Qed.

Lemma unmarshal_run_marshal u :
  BitBuffer.wf u ->
  BitBuffer.unmarshal_run (length u) (BitBuffer.marshal u) = u.
Proof.
  induction 1 as [|w u Hw _ IH]; [reflexivity|].
  cbn [length BitBuffer.unmarshal_run BitBuffer.marshal flat_map].
  change (flat_map BitBuffer.word_bytes u) with (BitBuffer.marshal u).
  change (firstn 8 (BitBuffer.word_bytes w ++ BitBuffer.marshal u))
    with (BitBuffer.word_bytes w).
  change (skipn 8 (BitBuffer.word_bytes w ++ BitBuffer.marshal u))
    with (BitBuffer.marshal u).
  now rewrite bytes_word_bytes, IH.
Qed.

(** [unmarshal] is the inverse of [marshal] on buffers of 64-bit words. *)
Lemma unmarshal_marshal u :
  BitBuffer.wf u -> BitBuffer.unmarshal (BitBuffer.marshal u) = Done u.
Proof.
  intros Hu. unfold BitBuffer.unmarshal. rewrite length_marshal.
  replace (Z.of_nat (8 * length u) mod 8) with 0
    by (rewrite Nat2Z.inj_mul, Z.mul_comm, Z.mod_mul; lia).
  rewrite Z.eqb_refl.
  replace (Nat.div (8 * length u) 8) with (length u)
    by (rewrite Nat.mul_comm, Nat.div_mul; lia).
  now rewrite unmarshal_run_marshal.
Qed.

Lemma word_at_ok u b : BitBuffer.wf u -> BitBuffer.word_ok (BitBuffer.word_at u b).
Proof.
  intros Hu. unfold BitBuffer.word_at.
  destruct (nth_in_or_default (Z.to_nat b) u 0) as [Hin | ->].
  - unfold BitBuffer.wf in Hu. rewrite List.Forall_forall in Hu. now apply Hu.
  - unfold BitBuffer.word_ok. rewrite two64_eq. lia.
Qed.

Lemma compress_wf u b n : BitBuffer.wf u -> BitBuffer.wf (compress u b n).
Proof.
  intros Hu. unfold compress, BitBuffer.wf.
  apply List.Forall_forall. intros w Hin. apply List.in_map_iff in Hin as (i & <- & _).
  now apply word_at_ok.
Qed.

(** Go's [copy] of a shorter buffer into a longer one. *)
Lemma go_copy_fits dst src :
  (length src <= length dst)%nat -> go_copy dst src = src ++ skipn (length src) dst.
Proof. intros H. unfold go_copy. now rewrite firstn_all2 by lia. Qed.

Lemma go_copy_twice dst src :
  (length src <= length dst)%nat -> go_copy (go_copy dst src) src = go_copy dst src.
Proof.
  intros H. rewrite (go_copy_fits dst src H).
  rewrite go_copy_fits by (rewrite length_app; lia).
  now rewrite skipn_app, skipn_all, Nat.sub_diag.
Qed.

Lemma words_go_copy dst src :
  (length src <= length dst)%nat -> BitBuffer.words (go_copy dst src) = BitBuffer.words dst.
Proof.
  intros H. unfold BitBuffer.words. rewrite go_copy_fits by assumption.
  rewrite length_app, length_skipn. lia.
Qed.

Lemma word_at_go_copy dst src i :
  (length src <= length dst)%nat -> 0 <= i < BitBuffer.words src ->
  BitBuffer.word_at (go_copy dst src) i = BitBuffer.word_at src i.
Proof.
  intros H Hi. unfold BitBuffer.words in Hi. rewrite go_copy_fits by assumption.
  unfold BitBuffer.word_at. apply app_nth1. lia.
Qed.

(* ===================================================================== *)
(** ** [Marshal] then [Unmarshal] *)
(* ===================================================================== *)

(** The word and the bit of a position reduced modulo the capacity. *)
Lemma convertLoc_mod u x :
  1 <= BitBuffer.words u -> 0 <= x ->
  BitBuffer.convertLoc u (x mod BitBuffer.cap u)
  = ((x / 64) mod BitBuffer.words u, x mod 64).
Proof.
  intros HW Hx. unfold BitBuffer.convertLoc. rewrite Z.mod_mod by (unfold BitBuffer.cap; lia).
  unfold BitBuffer.cap. rewrite Z.rem_mul_r by lia.
  pose proof (Z.mod_pos_bound (x / 64) (BitBuffer.words u) ltac:(lia)).
  set (t := (x / 64) mod BitBuffer.words u) in *.
  f_equal; Z.div_mod_to_equations; lia.
Qed.

(** What [Unmarshal] does with data that fits. *)
Lemma Unmarshal_fits data dkr stream kr2 :
  Json.Unmarshal data = Some dkr ->
  BitBuffer.unmarshal (BitStream dkr) = Done stream ->
  1 <= BitBuffer.words stream <= BitBuffer.words (bitStream kr2) ->
  Unmarshal data kr2
  = Done (None, mkKR (go_copy (bitStream kr2) stream)
                     (FirstUnchecked dkr) (LastChecked dkr)
                     (to_int (FirstUnchecked dkr mod 64))).
Proof.
  intros Ej Eu Hw. unfold Unmarshal. rewrite Ej.
  unfold bind at 1. unfold lift. rewrite Eu.
  rewrite (bind_done _ _ kr2 kr2 kr2 eq_refl).
  destruct (Z.eqb_spec (BitBuffer.words (bitStream kr2)) 0); [lia|].
  destruct (Z.leb_spec (BitBuffer.words stream) (BitBuffer.words (bitStream kr2))); [|lia].
  unfold bind, modify, ret. simpl.
  rewrite go_copy_twice by (unfold BitBuffer.words in *; lia). reflexivity.
Qed.


(** The round trip when the cursors are in order. *)
Lemma roundtrip_in_order (kr : KnownRounds) :
  window_ok kr -> BitBuffer.wf (bitStream kr) ->
  fuPos kr mod 64 = firstUnchecked kr mod 64 ->
  fuPos kr mod 64 + (lastChecked kr - firstUnchecked kr) < Len kr ->
  exists data stream,
    Marshal kr = Done (data, kr)
    /\ Json.Unmarshal data
       = Some (mkDKR (BitBuffer.marshal stream) (firstUnchecked kr) (lastChecked kr))
    /\ forall kr2,
         BitBuffer.words stream <= BitBuffer.words (bitStream kr2) < 2 ^ 55 ->
         exists kr2',
           Unmarshal data kr2 = Done (None, kr2')
           /\ firstUnchecked kr2' = firstUnchecked kr
           /\ lastChecked kr2' = lastChecked kr
           /\ forall rid, exists b,
                Checked rid kr = Done (b, kr) /\ Checked rid kr2' = Done (b, kr2').
Proof.
  intros (HW & Hfu & Hl & Hp & Hord & Hwin) Hwf Halign Hfit.
  set (W := BitBuffer.words (bitStream kr)) in *.
  set (o := fuPos kr mod 64) in *.
  set (sb := fuPos kr / 64).
  set (n := lastChecked kr - firstUnchecked kr) in *.
  set (m := (o + n) / 64).
  assert (HL : Len kr = 64 * W) by (unfold Len; lia).
  assert (Hcap : BitBuffer.cap (bitStream kr) = Len kr) by (symmetry; apply Len_cap).
  assert (Ho : 0 <= o < 64) by (apply Z.mod_pos_bound; lia).
  assert (Hfp : fuPos kr = 64 * sb + o) by (apply Z.div_mod; lia).
  assert (Hsb : 0 <= sb < W) by (subst sb; Z.div_mod_to_equations; lia).
  assert (Hm : 0 <= m < W) by (subst m; Z.div_mod_to_equations; lia).
  (* the positions of the two cursors *)
  assert (Ep : getBitStreamPos kr (firstUnchecked kr) = Done (fuPos kr)).
  { rewrite getBitStreamPos_window by (try assumption; lia).
    rewrite Z.sub_diag, Z.add_0_r, Z.mod_small by lia. reflexivity. }
  assert (Eq : getBitStreamPos kr (lastChecked kr) = Done ((fuPos kr + n) mod Len kr))
    by (apply getBitStreamPos_window; try assumption; lia).
  assert (Hblock : forall k, 0 <= k ->
            BitBuffer.convertLoc (bitStream kr) ((fuPos kr + k) mod Len kr)
            = ((sb + (o + k) / 64) mod W, (o + k) mod 64)).
  { intros k Hk. rewrite <- Hcap, convertLoc_mod by lia. fold W.
    f_equal; [f_equal|]; rewrite Hfp; Z.div_mod_to_equations; lia. }
  assert (Hstart : BitBuffer.convertLoc (bitStream kr) (fuPos kr) = (sb, o)).
  { pose proof (Hblock 0 ltac:(lia)) as H.
    rewrite !Z.add_0_r, (Z.mod_small (fuPos kr)) in H by lia. rewrite H.
    f_equal; [|apply Z.mod_small; lia].
    rewrite (Z.div_small o) by lia. rewrite Z.add_0_r. apply Z.mod_small. lia. }
  assert (Hdelta : BitBuffer.delta (bitStream kr) (fuPos kr) ((fuPos kr + n) mod Len kr)
                   = m + 1).
  { unfold BitBuffer.delta. rewrite Hstart, (Hblock n) by lia. simpl. fold W. fold m.
    rewrite Zminus_mod_idemp_l. replace (sb + m - sb) with m by lia.
    rewrite Z.mod_small by lia. reflexivity. }
  set (stream := compress (bitStream kr) sb (m + 1)).
  assert (Hwords : BitBuffer.words stream = m + 1)
    by (apply length_compress; lia).
  exists (Json.Marshal (mkDKR (BitBuffer.marshal stream)
                              (firstUnchecked kr) (lastChecked kr))), stream.
  split; [|split].
  - rewrite (Marshal_eq kr _ _ Ep Eq), Hstart, Hdelta. simpl.
    now rewrite !u64_id by assumption.
  - apply JsonFacts.Unmarshal_Marshal; assumption.
  - intros kr2 [Hw2 Hw2'].
    eexists. split; [|split; [|split]].
    + eapply Unmarshal_fits.
      * apply JsonFacts.Unmarshal_Marshal; assumption.
      * simpl. apply unmarshal_marshal, compress_wf, Hwf.
      * lia.
    + reflexivity.
    + reflexivity.
    + intros rid. cbn [FirstUnchecked LastChecked].
      set (kr2' := mkKR (go_copy (bitStream kr2) stream) (firstUnchecked kr)
                        (lastChecked kr) (to_int (firstUnchecked kr mod 64))).
      assert (Hlen : (length stream <= length (bitStream kr2))%nat)
        by (unfold BitBuffer.words in *; lia).
      assert (Hw2c : BitBuffer.words (bitStream kr2') = BitBuffer.words (bitStream kr2))
        by (apply words_go_copy; exact Hlen).
      assert (Hfp2 : fuPos kr2' = o).
      { unfold kr2'. simpl. rewrite <- Halign. fold o. apply to_int_small.
        unfold_ints. lia. }
      unfold Checked. rewrite !(bind_done getS _ _ _ _ eq_refl).
      change (firstUnchecked kr2') with (firstUnchecked kr).
      change (lastChecked kr2') with (lastChecked kr).
      destruct (rid <? firstUnchecked kr) eqn:Hlo; [exists true; auto|].
      destruct (lastChecked kr <? rid) eqn:Hhi; [exists false; auto|].
      apply Z.ltb_ge in Hlo, Hhi.
      set (k := rid - firstUnchecked kr).
      assert (Hk : 0 <= k <= n) by (subst k n; lia).
      assert (Hj : 0 <= (o + k) / 64 <= m) by (subst m; Z.div_mod_to_equations; lia).
      assert (Hok : o + k < 64 * (m + 1)) by (subst m; Z.div_mod_to_equations; lia).
      assert (E1 : getBitStreamPos kr rid = Done ((fuPos kr + k) mod Len kr))
        by (apply getBitStreamPos_window; try assumption; lia).
      assert (E2 : getBitStreamPos kr2' rid = Done (o + k)).
      { rewrite getBitStreamPos_window.
        - rewrite Hfp2. change (firstUnchecked kr2') with (firstUnchecked kr). fold k.
          f_equal. apply Z.mod_small. unfold Len. rewrite Hw2c. lia.
        - rewrite Hw2c. lia.
        - exact Hfu.
        - rewrite Hfp2. unfold Len. rewrite Hw2c. lia.
        - simpl. lia.
        - change (firstUnchecked kr2') with (firstUnchecked kr).
          unfold Len. rewrite Hw2c. lia. }
      rewrite (bind_done _ _ _ _ _ (bitPos_done _ _ _ E1)).
      rewrite (bind_done _ _ _ _ _ (bitPos_done _ _ _ E2)).
      eexists. split; [reflexivity|]. unfold ret. do 2 f_equal.
      (* the same bit of the same word *)
      rewrite (BitBufferFacts.get_testbit (bitStream kr) _ _ _ ltac:(lia) (Hblock k ltac:(lia))).
      assert (Hloc2 : BitBuffer.convertLoc (bitStream kr2') (o + k)
                      = ((o + k) / 64, (o + k) mod 64)).
      { unfold BitBuffer.convertLoc, BitBuffer.cap. rewrite Hw2c.
        rewrite (Z.mod_small (o + k)) by lia. reflexivity. }
      rewrite (BitBufferFacts.get_testbit (bitStream kr2') _ _ _ ltac:(lia) Hloc2).
      f_equal. unfold kr2'. cbn [bitStream].
      rewrite word_at_go_copy by (try exact Hlen; lia).
      unfold stream. rewrite word_at_compress by lia.
      fold W. rewrite Z.rem_mod_nonneg by lia.
      f_equal. f_equal. lia.
Qed.

(** The round trip when no round is in the window
    ([firstUnchecked = lastChecked + 1]): [Checked] never reads the
    buffer. *)
Lemma roundtrip_empty_window (kr : KnownRounds) :
  1 <= BitBuffer.words (bitStream kr) -> BitBuffer.wf (bitStream kr) ->
  in_u64 (firstUnchecked kr) -> in_u64 (lastChecked kr) ->
  lastChecked kr < firstUnchecked kr ->
  exists data stream,
    Marshal kr = Done (data, kr)
    /\ Json.Unmarshal data
       = Some (mkDKR (BitBuffer.marshal stream) (firstUnchecked kr) (lastChecked kr))
    /\ forall kr2,
         BitBuffer.words stream <= BitBuffer.words (bitStream kr2) < 2 ^ 55 ->
         exists kr2',
           Unmarshal data kr2 = Done (None, kr2')
           /\ firstUnchecked kr2' = firstUnchecked kr
           /\ lastChecked kr2' = lastChecked kr
           /\ forall rid, exists b,
                Checked rid kr = Done (b, kr) /\ Checked rid kr2' = Done (b, kr2').
Proof.
  intros HW Hwf Hfu Hl Hgap.
  destruct (getBitStreamPos_total kr (firstUnchecked kr) HW) as [p Ep].
  destruct (getBitStreamPos_total kr (lastChecked kr) HW) as [q Eq].
  pose proof (delta_pos (bitStream kr) p q HW) as Hd.
  set (stream := compress (bitStream kr) (fst (BitBuffer.convertLoc (bitStream kr) p))
                          (BitBuffer.delta (bitStream kr) p q)).
  assert (Hwords : BitBuffer.words stream = BitBuffer.delta (bitStream kr) p q)
    by (apply length_compress; lia).
  exists (Json.Marshal (mkDKR (BitBuffer.marshal stream)
                              (firstUnchecked kr) (lastChecked kr))), stream.
  split; [|split].
  - rewrite (Marshal_eq kr p q Ep Eq). now rewrite !u64_id by assumption.
  - apply JsonFacts.Unmarshal_Marshal; assumption.
  - intros kr2 [Hw2 Hw2'].
    eexists. split; [|split; [|split]].
    + eapply Unmarshal_fits.
      * apply JsonFacts.Unmarshal_Marshal; assumption.
      * simpl. apply unmarshal_marshal, compress_wf, Hwf.
      * lia.
    + reflexivity.
    + reflexivity.
    + intros rid. cbn [FirstUnchecked LastChecked].
      unfold Checked. rewrite !(bind_done getS _ _ _ _ eq_refl). cbn [firstUnchecked lastChecked].
      destruct (Z.ltb_spec rid (firstUnchecked kr)); [exists true; auto|].
      destruct (Z.ltb_spec (lastChecked kr) rid); [exists false; auto | lia].
Qed.

(** X29: for every state of the data model (a buffer of at
    least one word of 64 bits, [fuPos] a position of the buffer congruent
    to [firstUnchecked] modulo 64, [firstUnchecked <= lastChecked + 1],
    the cursors less than the capacity apart) whose window does not run
    past the end of the buffer back into the word in which it starts
    ([fuPos mod 64 + lastChecked - firstUnchecked < C]), [Marshal]
    succeeds, and [Unmarshal] of its data into any buffer with at least
    as many words as the compressed span succeeds and yields a state
    equal in [firstUnchecked], in [lastChecked], and in [Checked(rid)]
    for every round. *)
Theorem Marshal_Unmarshal_roundtrip (kr : KnownRounds) :
  snapshot_ok kr ->
  fuPos kr mod 64 + (lastChecked kr - firstUnchecked kr) < Len kr ->
  exists data stream,
    Marshal kr = Done (data, kr)
    /\ Json.Unmarshal data
       = Some (mkDKR (BitBuffer.marshal stream) (firstUnchecked kr) (lastChecked kr))
    /\ forall kr2,
         BitBuffer.words stream <= BitBuffer.words (bitStream kr2) < 2 ^ 55 ->
         exists kr2',
           Unmarshal data kr2 = Done (None, kr2')
           /\ firstUnchecked kr2' = firstUnchecked kr
           /\ lastChecked kr2' = lastChecked kr
           /\ forall rid, exists b,
                Checked rid kr = Done (b, kr) /\ Checked rid kr2' = Done (b, kr2').
Proof.
  intros (HW & Hwf & Hfu & Hl & Hp & Halign & Hord & Hwin) Hfit.
  destruct (Z.le_gt_cases (firstUnchecked kr) (lastChecked kr)) as [Hle|Hgt].
  - apply roundtrip_in_order; try assumption. unfold window_ok. tauto.
  - apply roundtrip_empty_window; try assumption; lia.
Qed.

Lemma Marshal_Unmarshal_roundtrip_witness :
  let kr := mkKR [0; MaxUint64; 0; 0; 0] 75 150 11 in
  exists data stream,
    Marshal kr = Done (data, kr)
    /\ Json.Unmarshal data
       = Some (mkDKR (BitBuffer.marshal stream) (firstUnchecked kr) (lastChecked kr))
    /\ forall kr2,
         BitBuffer.words stream <= BitBuffer.words (bitStream kr2) < 2 ^ 55 ->
         exists kr2',
           Unmarshal data kr2 = Done (None, kr2')
           /\ firstUnchecked kr2' = firstUnchecked kr
           /\ lastChecked kr2' = lastChecked kr
           /\ forall rid, exists b,
                Checked rid kr = Done (b, kr) /\ Checked rid kr2' = Done (b, kr2').
Proof.
  apply (Marshal_Unmarshal_roundtrip (mkKR [0; MaxUint64; 0; 0; 0] 75 150 11)).
  - unfold snapshot_ok. split; [vm_compute; intuition discriminate|].
    split; [repeat constructor; vm_compute; intuition discriminate|].
    vm_compute. intuition discriminate.
  - vm_compute. reflexivity.
Defined.

(* ===================================================================== *)
(** ** The order of the cursors below the largest round *)
(* ===================================================================== *)

Lemma hoare_getS_eq {A} P (k : KnownRounds -> M A) R :
  (forall a, hoare (fun kr => a = kr /\ P kr) (k a) R) -> hoare P (bind getS k) R.
Proof. intros H. eapply hoare_bind; [apply hoare_getS | exact H]. Qed.

Lemma hoare_bitPos_any {A} (I : KnownRounds -> Prop) r (k : Z -> M A) R :
  (forall kr, I kr -> 1 <= BitBuffer.words (bitStream kr)) ->
  (forall p, hoare I (k p) R) ->
  hoare I (bind (bitPos r) k) R.
Proof.
  intros HI Hk kr H.
  destruct (getBitStreamPos_total kr r (HI kr H)) as [p E].
  destruct (Hk p kr H) as (a & kr' & E' & HR).
  exists a, kr'. split; [|exact HR].
  rewrite (bind_done _ _ _ _ _ (bitPos_done _ _ _ E)). exact E'.
Qed.

(** An operation on the bits keeps what is said of the cursors and of
    the number of words. *)
Lemma hoare_bits (I : KnownRounds -> Prop) (f : BitBuffer.t -> BitBuffer.t) :
  (forall u, BitBuffer.words (f u) = BitBuffer.words u) ->
  (forall kr u, I kr -> BitBuffer.words u = BitBuffer.words (bitStream kr) ->
                I (with_bitStream u kr)) ->
  hoare I (modify (fun kr => with_bitStream (f (bitStream kr)) kr)) (fun _ => I).
Proof. intros Hf HI. apply hoare_modify. intros kr H. apply HI; auto. Qed.

Lemma migrate_ordered W rid :
  1 <= W -> in_u64 rid ->
  hoare (fun kr => shape W kr /\ rid <= lastChecked kr)
        (migrateFirstUnchecked rid)
        (fun _ kr => ordered W kr /\ rid <= lastChecked kr).
Proof.
  intros HW Hr kr [[Hw Hl] Hle].
  destruct (migrate_loop_total (Z.to_nat (lastChecked kr - rid)) kr rid
              ltac:(lia) ltac:(unfold in_u64 in Hr; lia)
              ltac:(unfold in_u64 in Hl; lia) ltac:(lia)) as (r & E & H1 & H2).
  destruct (getBitStreamPos_total kr r ltac:(lia)) as [p Ep].
  exists tt, (with_firstUnchecked r (with_fuPos p kr)).
  split; [now apply migrateFirstUnchecked_eq|].
  repeat split; simpl; try assumption; unfold in_u64 in *; lia.
Qed.

(** [Forward] keeps the cursors in order. *)
Lemma Forward_ordered W rid :
  1 <= W -> in_u64 rid -> hoare (ordered W) (Forward rid) (fun _ => ordered W).
Proof.
  intros HW Hr kr [[Hw Hl] Hord]. rewrite Forward_eq.
  destruct (Z.ltb_spec (lastChecked kr) rid).
  - eexists tt, _. split; [reflexivity|]. repeat split; simpl; try assumption; unfold in_u64 in *; lia.
  - destruct (Z.leb_spec (firstUnchecked kr) rid).
    + destruct (migrate_ordered W rid HW Hr kr) as ([] & kr' & E & Ho & _).
      { split; [split|]; [assumption | assumption | lia]. }
      exists tt, kr'. auto.
    + exists tt, kr. split; [reflexivity|]. split; [split|]; assumption.
Qed.

(** [check] of a round below the largest one keeps the cursors in
    order. *)
Lemma check_ordered W rid :
  1 <= W -> 0 <= rid < MaxUint64 ->
  hoare (ordered W) (check rid) (fun _ => ordered W).
Proof.
  intros HW Hr.
  assert (Hr' : in_u64 rid) by (unfold_ints; lia).
  assert (Hnext : u64 (rid + 1) = rid + 1) by (apply u64_id; unfold_ints; lia).
  set (I1 := fun kr => ordered W kr /\ firstUnchecked kr <= rid).
  set (I2 := fun kr => ordered W kr /\ rid <= lastChecked kr).
  set (J := fun kr => shape W kr /\ rid <= lastChecked kr).
  assert (HwI1 : forall kr, I1 kr -> 1 <= BitBuffer.words (bitStream kr))
    by (intros kr [[[Hw _] _] _]; lia).
  assert (HwI2 : forall kr, I2 kr -> 1 <= BitBuffer.words (bitStream kr))
    by (intros kr [[[Hw _] _] _]; lia).
  assert (HbI1 : forall kr u, I1 kr -> BitBuffer.words u = BitBuffer.words (bitStream kr) ->
                              I1 (with_bitStream u kr)).
  { intros kr u [[[Hw Hl] Ho] Hf] Hu. repeat split; simpl; try assumption; unfold in_u64 in *; lia. }
  assert (HbI2 : forall kr u, I2 kr -> BitBuffer.words u = BitBuffer.words (bitStream kr) ->
                              I2 (with_bitStream u kr)).
  { intros kr u [[[Hw Hl] Ho] Hf] Hu. repeat split; simpl; try assumption; unfold in_u64 in *; lia. }
  assert (Hextend : forall pos, hoare I1 (extend_window rid pos) (fun _ => I2)).
  { intros pos. unfold extend_window. apply hoare_getS_eq. intros kr1.
    destruct (Z.ltb_spec (lastChecked kr1) rid).
    - eapply hoare_weaken with (P' := I1) (Q' := fun _ => I2); [|tauto|auto].
      apply hoare_bitPos_any; [exact HwI1|]. intros start.
      eapply hoare_bind.
      + apply (hoare_bits I1 (fun u => BitBuffer.clearRange u start pos));
          [intros; apply BitBufferFacts.words_clearRange | exact HbI1].
      + intros ?. apply hoare_modify. intros kr [[[Hw Hl] Ho] Hf].
        repeat split; simpl; try assumption; unfold in_u64 in *; lia.
    - apply hoare_ret. intros kr [-> [Ho Hf]]. split; [exact Ho | lia]. }
  assert (Hadvance : forall pos, hoare I2 (advance_first rid pos) (fun _ => I2)).
  { intros pos. unfold advance_first. apply hoare_getS_eq. intros kr1.
    eapply hoare_weaken with (P' := I2) (Q' := fun _ => I2); [|tauto|auto].
    apply hoare_bitPos_any; [exact HwI2|]. intros fp. destruct (fp =? pos).
    - apply hoare_bitPos_any; [exact HwI2|]. intros lp. destruct (lp =? pos).
      + apply hoare_bitPos_any; [exact HwI2|]. intros np.
        intros kr [[[Hw Hl] Ho] Hf]. eexists tt, _. split; [reflexivity|].
        rewrite Hnext. repeat split; simpl.
        * now rewrite BitBufferFacts.words_clear.
        * unfold_ints. lia.
        * unfold_ints. lia.
        * lia.
        * lia.
      + eapply hoare_weaken; [apply (migrate_ordered W rid HW Hr') | | auto].
        intros kr [[Hs _] Hle]. split; assumption.
    - apply hoare_ret. auto. }
  assert (Hlapse : hoare I2 (handle_lapse rid) (fun _ => I2)).
  { unfold handle_lapse. apply hoare_getS_eq. intros kr1.
    destruct ((firstUnchecked kr1 <? rid)
              && (to_round (Len kr1) <=? u64 (rid - firstUnchecked kr1))).
    - eapply hoare_weaken with (P' := J) (Q' := fun _ => I2); [| |auto].
      + apply hoare_bitPos_any; [intros kr [[Hw _] _]; lia|]. intros np.
        eapply hoare_bind with (Q := fun _ => J);
          [apply hoare_modify; intros kr H; exact H|]. intros ?.
        eapply hoare_bind with (Q := fun _ => J);
          [apply hoare_modify; intros kr H; exact H|]. intros ?.
        apply (migrate_ordered W rid HW Hr').
      + intros kr [_ [[Hs _] Hle]]. split; assumption.
    - apply hoare_ret. tauto. }
  unfold check. apply hoare_getS_eq. intros kr0.
  destruct (Z.ltb_spec rid (firstUnchecked kr0)).
  - apply hoare_ret. tauto.
  - eapply hoare_weaken with (P' := I1) (Q' := fun _ => ordered W).
    + apply hoare_bitPos_any; [exact HwI1|]. intros pos.
      eapply hoare_bind;
        [apply (hoare_bits I1 (fun u => BitBuffer.set u pos));
           [intros; apply BitBufferFacts.words_set | exact HbI1]|]. intros ?.
      eapply hoare_bind; [apply Hextend|]. intros ?.
      eapply hoare_bind; [apply Hadvance|]. intros ?.
      eapply hoare_bind; [apply Hlapse|]. intros ?.
      eapply hoare_weaken with (Q' := fun _ => I2);
        [apply (hoare_bits I2 (fun u => BitBuffer.set u pos));
           [intros; apply BitBufferFacts.words_set | exact HbI2]
        | auto | intros ? kr [Ho _]; exact Ho].
    + intros kr [-> Ho]. split; [exact Ho | lia].
    + auto.
Qed.

(** The guard returns on a buffer of at least one word, in the state it
    was given. *)
Lemma out_of_scope_total rid kr :
  1 <= BitBuffer.words (bitStream kr) -> exists far, out_of_scope rid kr = Done (far, kr).
Proof.
  intros HW. unfold out_of_scope, bind, getS, lift, go_div, ret.
  destruct (Z.eqb_spec (BitBuffer.words (bitStream kr) * 64) 0); [lia|]. eauto.
Qed.

Lemma Check_ordered W rid kr kr' :
  1 <= W -> 0 <= rid < MaxUint64 ->
  ordered W kr -> Check rid kr = Done (tt, kr') -> ordered W kr'.
Proof.
  intros HW Hr Ho E.
  destruct (out_of_scope_total rid kr) as [far Eg]; [destruct Ho as [[-> _] _]; lia|].
  unfold Check in E. rewrite (bind_done _ _ _ _ _ Eg) in E.
  destruct far; [discriminate|].
  destruct (check_ordered W rid HW Hr kr Ho) as ([] & kr1 & E1 & Ho1).
  rewrite E1 in E. now inversion E; subst.
Qed.

Lemma ForceCheck_ordered W rid :
  1 <= W -> 0 <= rid < MaxUint64 ->
  hoare (ordered W) (ForceCheck rid) (fun _ => ordered W).
Proof.
  intros HW Hr kr Ho.
  destruct (out_of_scope_total rid kr) as [far Eg]; [destruct Ho as [[-> _] _]; lia|].
  unfold ForceCheck. rewrite (bind_done _ _ _ _ _ Eg).
  rewrite (bind_done getS _ kr kr kr eq_refl).
  destruct far.
  - destruct (Forward_ordered W
                (u64 (rid - to_round (BitBuffer.words (bitStream kr) * 64)))
                HW (u64_range _) kr Ho) as ([] & kr1 & E1 & Ho1).
    rewrite (bind_done _ _ _ _ _ E1). apply (check_ordered W rid HW Hr kr1 Ho1).
  - rewrite (bind_done (ret tt) _ kr tt kr eq_refl).
    apply (check_ordered W rid HW Hr kr Ho).
Qed.

(** [RangeUnchecked] leaves the state as it was. *)
Lemma window_loop_state fuel : forall maxChecked f i s kr fl kr',
  window_loop fuel maxChecked f i s kr = Done (fl, kr') -> kr' = kr.
Proof.
  induction fuel as [|fuel IH]; intros maxChecked f i s kr fl kr' E; simpl in E;
    rewrite (bind_done getS _ kr kr kr eq_refl) in E;
    destruct (i <=? lastChecked kr); try discriminate;
    try (now inversion E).
  unfold bind at 1 in E.
  destruct (window_body maxChecked f i s kr) as [[fb kb]| |] eqn:Eb; try discriminate.
  assert (kb = kr).
  { unfold window_body in Eb. destruct (exhausted maxChecked i s).
    - now inversion Eb.
    - unfold bind in Eb. destruct (Checked_cases kr i) as [[c Ec]|[Ec _]];
        rewrite Ec in Eb; [|discriminate].
      destruct c; now inversion Eb. }
  subst kb. destruct fb as [r cs|s'].
  - now inversion E.
  - now apply IH in E.
Qed.

Lemma RangeUnchecked_tail fuel m f newest s1 kr x kr' :
  bind (if firstUnchecked kr <=? newest
        then window_loop fuel m f newest s1
        else ret (Continue s1))
       (fun f2 =>
          match f2 with
          | Return r cs => ret (r, cs)
          | Continue s2 =>
              ret (u64 ((if u64 (lastChecked kr + 1) <? earliestChecked s2
                         then lastChecked kr else earliestChecked s2) + 1),
                   calls s2)
          end) kr = Done (x, kr') ->
  kr' = kr.
Proof.
  unfold bind. destruct (firstUnchecked kr <=? newest).
  - destruct (window_loop fuel m f newest s1 kr) as [[f2 k2]| |] eqn:E2; try discriminate.
    apply window_loop_state in E2. subst k2.
    destruct f2; intros E; now inversion E.
  - simpl. intros E. now inversion E.
Qed.

Lemma RangeUnchecked_state fuel o m f kr x kr' :
  RangeUnchecked fuel o m f kr = Done (x, kr') -> kr' = kr.
Proof.
  unfold RangeUnchecked. rewrite (bind_done getS _ kr kr kr eq_refl).
  destruct (lastChecked kr <? o); [intros E; now inversion E|].
  destruct (o <? firstUnchecked kr).
  - unfold bind at 1. unfold lift.
    destruct (before_loop _ _ _ _ _ _) as [[r cs|s1]| |]; try discriminate.
    + intros E. now inversion E.
    + apply RangeUnchecked_tail.
  - rewrite (bind_done (ret (Continue (mkScan 0 MaxUint64 []))) _ kr _ kr eq_refl).
    apply RangeUnchecked_tail.
Qed.

(** Every call below the largest round that returns keeps the cursors in
    order. *)
Lemma run_call_ordered W c kr kr' :
  1 <= W -> below_max c -> ordered W kr ->
  run_call c kr = Done (tt, kr') -> ordered W kr'.
Proof.
  intros HW Hc Ho E. destruct c as [rid|rid|rid|fuel o m f]; simpl in *.
  - now apply (Check_ordered W rid kr kr').
  - destruct (ForceCheck_ordered W rid HW Hc kr Ho) as ([] & k & E1 & Ho1).
    rewrite E1 in E. now inversion E; subst.
  - destruct (Forward_ordered W rid HW Hc kr Ho) as ([] & k & E1 & Ho1).
    rewrite E1 in E. now inversion E; subst.
  - unfold bind in E.
    destruct (RangeUnchecked fuel o m f kr) as [[x k]| |] eqn:E1; try discriminate.
    apply RangeUnchecked_state in E1. subst k. now inversion E; subst.
Qed.

(** X1: after a new buffer of at least one round, every sequence of
    calls of [Check], [ForceCheck], [Forward] and [RangeUnchecked] that
    returns, and that checks no round [2^64 - 1], ends with
    [firstUnchecked <= lastChecked]. *)
Lemma cursors_ordered_below_max (capacity : Z) (cs : list call) kr0 kr' :
  1 <= capacity -> capacity + 63 < two63 ->
  Forall below_max cs ->
  NewKnownRound capacity = Done kr0 ->
  run_calls cs kr0 = Done (tt, kr') ->
  firstUnchecked kr' <= lastChecked kr'.
Proof.
  intros Hc1 Hc2 Hcs Enew Erun.
  destruct (NewKnownRound_start capacity kr0 Hc1 Hc2 Enew) as (HW & Hfu & Hlc).
  assert (Ho : ordered (BitBuffer.words (bitStream kr0)) kr0).
  { repeat split; rewrite ?Hlc, ?Hfu; unfold_ints; lia. }
  clear Enew Hfu Hlc.
  generalize dependent kr0.
  induction Hcs as [|c cs Hc _ IH]; intros kr0 Erun HW Ho.
  - inversion Erun; subst. apply Ho.
  - simpl in Erun. unfold bind in Erun.
    destruct (run_call c kr0) as [[[] k]| |] eqn:E; try discriminate.
    pose proof (run_call_ordered _ c kr0 k HW Hc Ho E) as Hk.
    apply (IH k Erun).
    + destruct Hk as [[-> _] _]. exact HW.
    + destruct Hk as [[Hw Hl] Hord].
      split; [split; [reflexivity | exact Hl] | exact Hord].
Qed.

Ltac by_compute :=
  first [ solve [vm_compute; intuition discriminate]
        | solve [simpl; lia]
        | solve [vm_compute; lia] ].

Lemma cursors_ordered_below_max_witness :
  let kr' := mkKR [2155872256; 0] 1001 1120 41 in
  run_calls [CallCheck 10; CallForward 7; CallForceCheck 1000; CallCheck 1120]
            (mkKR [0; 0] 0 0 0) = Done (tt, kr')
  /\ firstUnchecked kr' <= lastChecked kr'.
Proof.
  split; [reflexivity|].
  apply (cursors_ordered_below_max 100
           [CallCheck 10; CallForward 7; CallForceCheck 1000; CallCheck 1120]
           (mkKR [0; 0] 0 0 0)).
  - lia.
  - reflexivity.
  - repeat constructor; by_compute.
  - reflexivity.
  - reflexivity.
Defined.

(* ===================================================================== *)
(** ** More facts on the bit buffer *)
(* ===================================================================== *)

Module BitFacts.
Import BitBuffer BitBufferFacts.

Lemma convertLoc_eq_iff u p q :
  1 <= words u ->
  (convertLoc u p = convertLoc u q <-> p mod cap u = q mod cap u).
Proof.
  intros HW. unfold convertLoc. split.
  - intros [= E1 E2].
    rewrite (Z.div_mod (p mod cap u) 64), (Z.div_mod (q mod cap u) 64) by lia.
    now rewrite E1, E2.
  - intros ->. reflexivity.
Qed.

Lemma word_at_set_word_ne u b b' w :
  0 <= b -> 0 <= b' -> b <> b' -> word_at (set_word u b w) b' = word_at u b'.
Proof.
  intros Hb Hb' Hne. unfold word_at, set_word.
  rewrite !nth_lookup, list_lookup_insert_ne by lia. reflexivity.
Qed.

Lemma testbit_one k j : 0 <= k -> 0 <= j -> Z.testbit (Z.shiftl 1 k) j = (j =? k).
Proof.
  intros Hk Hj. rewrite Z.shiftl_spec by lia.
  destruct (Z.eqb_spec j k) as [->|Hne].
  - now rewrite Z.sub_diag.
  - destruct (Z.lt_ge_cases j k).
    + apply Z.testbit_neg_r. lia.
    + change 1 with (2 ^ 0). apply Z.pow2_bits_false. lia.
Qed.

(** Reading a bit after writing one, in terms of the reduced positions. *)
Lemma get_set_cases u p q :
  1 <= words u ->
  get (set u p) q = (q mod cap u =? p mod cap u) || get u q.
Proof.
  intros HW.
  destruct (convertLoc u p) as [b i] eqn:Ep.
  destruct (convertLoc u q) as [b' i'] eqn:Eq.
  destruct (convertLoc_bounds u p b i HW Ep) as [Hb Hi].
  destruct (convertLoc_bounds u q b' i' HW Eq) as [Hb' Hi'].
  assert (Eq' : convertLoc (set u p) q = (b', i')) by now rewrite convertLoc_set.
  assert (HW' : 1 <= words (set u p)) by (rewrite words_set; lia).
  rewrite (get_testbit _ _ _ _ HW' Eq'), (get_testbit _ _ _ _ HW Eq).
  unfold set. rewrite Ep.
  destruct (Z.eqb_spec (q mod cap u) (p mod cap u)) as [Hm|Hm].
  - apply (convertLoc_eq_iff u q p HW) in Hm. rewrite Eq, Ep in Hm.
    injection Hm as -> ->.
    rewrite word_at_set_word_eq by assumption.
    rewrite Z.lor_spec, testbit_one by lia. rewrite Z.eqb_refl. apply orb_true_r.
  - simpl. destruct (Z.eq_dec b b') as [<-|Hbb].
    + rewrite word_at_set_word_eq by assumption.
      rewrite Z.lor_spec, testbit_one by lia.
      destruct (Z.eqb_spec (63 - i') (63 - i)) as [Hii|_]; [|apply orb_false_r].
      exfalso. apply Hm. apply (convertLoc_eq_iff u q p HW).
      rewrite Eq, Ep. f_equal. lia.
    + now rewrite word_at_set_word_ne by lia.
Qed.

Lemma cap_clear u p : cap (clear u p) = cap u.
Proof. unfold cap. now rewrite words_clear. Qed.

Lemma convertLoc_clear u p q : convertLoc (clear u p) q = convertLoc u q.
Proof. unfold convertLoc. now rewrite cap_clear. Qed.

Lemma get_clear_cases u p q :
  1 <= words u ->
  get (clear u p) q = negb (q mod cap u =? p mod cap u) && get u q.
Proof.
  intros HW.
  destruct (convertLoc u p) as [b i] eqn:Ep.
  destruct (convertLoc u q) as [b' i'] eqn:Eq.
  destruct (convertLoc_bounds u p b i HW Ep) as [Hb Hi].
  destruct (convertLoc_bounds u q b' i' HW Eq) as [Hb' Hi'].
  assert (Eq' : convertLoc (clear u p) q = (b', i')) by now rewrite convertLoc_clear.
  assert (HW' : 1 <= words (clear u p)) by (rewrite words_clear; lia).
  rewrite (get_testbit _ _ _ _ HW' Eq'), (get_testbit _ _ _ _ HW Eq).
  unfold clear. rewrite Ep.
  destruct (Z.eqb_spec (q mod cap u) (p mod cap u)) as [Hm|Hm].
  - apply (convertLoc_eq_iff u q p HW) in Hm. rewrite Eq, Ep in Hm.
    injection Hm as -> ->.
    rewrite word_at_set_word_eq by assumption.
    rewrite Z.ldiff_spec, testbit_one by lia. rewrite Z.eqb_refl. simpl. apply andb_false_r.
  - simpl. destruct (Z.eq_dec b b') as [<-|Hbb].
    + rewrite word_at_set_word_eq by assumption.
      rewrite Z.ldiff_spec, testbit_one by lia.
      destruct (Z.eqb_spec (63 - i') (63 - i)) as [Hii|_]; [|apply andb_true_r].
      exfalso. apply Hm. apply (convertLoc_eq_iff u q p HW).
      rewrite Eq, Ep. f_equal. lia.
    + now rewrite word_at_set_word_ne by lia.
Qed.

Lemma cap_clear_run n : forall u p, cap (clear_run u p n) = cap u.
Proof. intros. unfold cap. now rewrite words_clear_run. Qed.

(** Reading a bit after clearing a run of [n <= C] positions. *)
Lemma get_clear_run n : forall u s q,
  1 <= words u -> Z.of_nat n <= cap u ->
  get (clear_run u s n) q
  = negb ((q - s) mod cap u <? Z.of_nat n) && get u q.
Proof.
  induction n as [|n IH]; intros u s q HW Hn.
  - cbn [clear_run]. change (Z.of_nat 0) with 0.
    pose proof (Z.mod_pos_bound (q - s) (cap u) ltac:(unfold cap; lia)).
    destruct (Z.ltb_spec ((q - s) mod cap u) 0); [lia | reflexivity].
  - cbn [clear_run]. rewrite IH by (rewrite ?words_clear, ?cap_clear; lia).
    rewrite cap_clear, get_clear_cases by assumption.
    set (C := cap u) in *. assert (HC : 0 < C) by (unfold C, cap; lia).
    pose proof (Z.mod_pos_bound (q - s) C HC) as H1.
    pose proof (Z.mod_pos_bound (q - (s + 1)) C HC) as H2.
    destruct (Z.eqb_spec (q mod C) (s mod C)) as [Hm|Hm].
    + assert (E0 : (q - s) mod C = 0).
      { rewrite Zminus_mod, Hm, Z.sub_diag. apply Z.mod_0_l. lia. }
      rewrite E0. simpl. rewrite andb_false_r.
      destruct (Z.ltb_spec 0 (Z.of_nat (S n))); [reflexivity | lia].
    + assert (E0 : (q - s) mod C <> 0).
      { intros E. apply Hm. apply Z.mod_divide in E; [|lia].
        destruct E as [k Hk]. replace q with (s + k * C) by lia.
        apply Z.mod_add. lia. }
      assert (E1 : (q - (s + 1)) mod C = (q - s) mod C - 1).
      { replace (q - (s + 1)) with ((q - s) - 1) by lia.
        rewrite Zminus_mod. rewrite (Z.mod_small 1 C) by lia.
        apply Z.mod_small. lia. }
      rewrite E1. simpl.
      destruct (Z.ltb_spec ((q - s) mod C - 1) (Z.of_nat n));
        destruct (Z.ltb_spec ((q - s) mod C) (Z.of_nat (S n))); try lia; reflexivity.
Qed.

Lemma get_clearRange u s e q :
  1 <= words u ->
  get (clearRange u s e) q
  = negb ((q - s) mod cap u <? (e - s) mod cap u) && get u q.
Proof.
  intros HW. unfold clearRange.
  pose proof (Z.mod_pos_bound (e - s) (cap u) ltac:(unfold cap; lia)).
  rewrite get_clear_run by (try assumption; lia).
  rewrite Z2Nat.id by lia. reflexivity.
Qed.

End BitFacts.

(* ===================================================================== *)
(** ** The answers of [Checked] on the data model *)
(* ===================================================================== *)

Lemma window_ok_Len kr : window_ok kr -> 64 <= Len kr < 2 ^ 61.
Proof. intros (HW & _). unfold Len. lia. Qed.

Lemma window_pos_range kr r : window_ok kr -> 0 <= window_pos kr r < Len kr.
Proof.
  intros H. pose proof (window_ok_Len kr H). unfold window_pos.
  apply Z.mod_pos_bound. lia.
Qed.

Lemma window_pos_first kr : window_ok kr -> window_pos kr (firstUnchecked kr) = fuPos kr.
Proof.
  intros (HW & Hfu & Hl & Hp & Hord & Hwin). unfold window_pos.
  rewrite Z.sub_diag, Z.add_0_r. apply Z.mod_small. lia.
Qed.

Lemma getBitStreamPos_pos kr r :
  window_ok kr -> firstUnchecked kr <= r -> r - firstUnchecked kr < 2 * Len kr ->
  getBitStreamPos kr r = Done (window_pos kr r).
Proof.
  intros (HW & Hfu & Hl & Hp & Hord & Hwin) H1 H2.
  now apply getBitStreamPos_window.
Qed.

(** Two rounds have the same position when they are a multiple of the
    capacity apart. *)
Lemma window_pos_eq_iff kr r r' :
  window_ok kr -> Z.abs (r - r') < Len kr ->
  (window_pos kr r = window_pos kr r' <-> r = r').
Proof.
  intros H Hd. pose proof (window_ok_Len kr H) as HL. unfold window_pos.
  split; [|now intros ->]. intros E.
  assert (Hm : (r - r') mod Len kr = 0).
  { replace (r - r') with ((fuPos kr + (r - firstUnchecked kr))
                           - (fuPos kr + (r' - firstUnchecked kr))) by lia.
    rewrite Zminus_mod, E, Z.sub_diag. apply Z.mod_0_l. lia. }
  apply Z.mod_divide in Hm; [|lia]. destruct Hm as [k Hk].
  assert (k = 0) by (destruct (Z.lt_trichotomy k 0) as [|[|]]; [nia | assumption | nia]).
  subst k. lia.
Qed.

Lemma window_pos_mod kr r : window_ok kr ->
  window_pos kr r mod BitBuffer.cap (bitStream kr) = window_pos kr r.
Proof.
  intros H. rewrite <- Len_cap. apply Z.mod_small. now apply window_pos_range.
Qed.

Lemma Checked_status kr r :
  window_ok kr -> Checked r kr = Done (status kr r, kr).
Proof.
  intros H. pose proof H as (HW & Hfu & Hl & Hp & Hord & Hwin).
  unfold Checked, status. rewrite (bind_done getS _ kr kr kr eq_refl).
  destruct (Z.ltb_spec r (firstUnchecked kr)); [reflexivity|].
  destruct (Z.ltb_spec (lastChecked kr) r); [reflexivity|].
  rewrite (bind_done _ _ _ _ _ (bitPos_done _ _ _
            (getBitStreamPos_pos kr r H ltac:(lia) ltac:(lia)))).
  reflexivity.
Qed.

(* ===================================================================== *)
(** ** [migrateFirstUnchecked] and [check], case by case *)
(* ===================================================================== *)

Lemma window_ok_bits kr u :
  window_ok kr -> BitBuffer.words u = BitBuffer.words (bitStream kr) ->
  window_ok (with_bitStream u kr).
Proof.
  intros (HW & Hfu & Hl & Hp & Hord & Hwin) Hu.
  unfold window_ok, Len in *. simpl. rewrite Hu. tauto.
Qed.

Lemma Len_bits kr u :
  BitBuffer.words u = BitBuffer.words (bitStream kr) -> Len (with_bitStream u kr) = Len kr.
Proof. intros Hu. unfold Len. simpl. now rewrite Hu. Qed.

Lemma window_pos_ext kr kr' r :
  firstUnchecked kr' = firstUnchecked kr -> fuPos kr' = fuPos kr ->
  Len kr' = Len kr -> window_pos kr' r = window_pos kr r.
Proof. intros E1 E2 E3. unfold window_pos. now rewrite E1, E2, E3. Qed.

(** Where the loop of [migrateFirstUnchecked] stops: at the first round
    from [rid] on whose bit is not set, or at [lastChecked]. *)
Lemma migrate_loop_spec fuel : forall kr rid,
  window_ok kr -> firstUnchecked kr <= rid -> rid <= lastChecked kr ->
  (Z.to_nat (lastChecked kr - rid) <= fuel)%nat ->
  exists r,
    migrate_loop fuel kr rid = Done r
    /\ rid <= r <= lastChecked kr
    /\ (forall j, rid <= j < r ->
          BitBuffer.get (bitStream kr) (window_pos kr j) = true)
    /\ (r < lastChecked kr ->
          BitBuffer.get (bitStream kr) (window_pos kr r) = false).
Proof.
  induction fuel as [|fuel IH]; intros kr rid Hok Hin Hle Hf;
    pose proof Hok as (HW & Hfu & Hl & Hp & Hord & Hwin);
    pose proof (getBitStreamPos_pos kr rid Hok Hin ltac:(lia)) as Ep;
    simpl; rewrite Ep; simpl.
  - destruct (Z.ltb_spec rid (lastChecked kr)); [lia|].
    rewrite andb_false_r. exists rid. split; [reflexivity|].
    split; [lia|]. split; intros; lia.
  - destruct (BitBuffer.get (bitStream kr) (window_pos kr rid)) eqn:Hg; simpl.
    + destruct (Z.ltb_spec rid (lastChecked kr)) as [Hlt|Hge].
      * rewrite u64_id by (unfold in_u64 in *; lia).
        destruct (IH kr (rid + 1) Hok ltac:(lia) ltac:(lia) ltac:(lia))
          as (r & Er & Hr1 & Hset & Hstop).
        exists r. split; [exact Er|]. split; [lia|]. split; [|exact Hstop].
        intros j Hj. destruct (Z.eq_dec j rid) as [->|]; [exact Hg|].
        apply Hset. lia.
      * exists rid. split; [reflexivity|]. split; [lia|]. split; intros; lia.
    + exists rid. split; [reflexivity|]. split; [lia|].
      split; [intros; lia | intros _; exact Hg].
Qed.

(** [migrateFirstUnchecked] on a round of the window. *)
Lemma migrate_spec kr rid :
  window_ok kr -> firstUnchecked kr <= rid -> rid <= lastChecked kr ->
  exists r,
    migrateFirstUnchecked rid kr
    = Done (tt, with_firstUnchecked r (with_fuPos (window_pos kr r) kr))
    /\ rid <= r <= lastChecked kr
    /\ (forall j, rid <= j < r ->
          BitBuffer.get (bitStream kr) (window_pos kr j) = true)
    /\ (r < lastChecked kr ->
          BitBuffer.get (bitStream kr) (window_pos kr r) = false).
Proof.
  intros Hok Hin Hle. pose proof Hok as (HW & Hfu & Hl & Hp & Hord & Hwin).
  destruct (migrate_loop_spec (Z.to_nat (lastChecked kr - rid)) kr rid Hok Hin Hle
              ltac:(lia)) as (r & Er & Hr & Hset & Hstop).
  exists r. split; [|auto].
  apply migrateFirstUnchecked_eq; [exact Er|].
  apply getBitStreamPos_pos; [exact Hok | lia | lia].
Qed.

(** Moving the first unchecked round inside the window keeps the
    positions of the rounds. *)
Lemma window_pos_moved kr r j :
  window_ok kr ->
  window_pos (with_firstUnchecked r (with_fuPos (window_pos kr r) kr)) j
  = window_pos kr j.
Proof.
  intros Hok. pose proof (window_ok_Len kr Hok) as HL.
  unfold window_pos. simpl. change (Len (with_firstUnchecked r _)) with (Len kr).
  rewrite Zplus_mod_idemp_l. f_equal. lia.
Qed.

Lemma window_ok_moved kr r :
  window_ok kr -> firstUnchecked kr <= r <= lastChecked kr ->
  window_ok (with_firstUnchecked r (with_fuPos (window_pos kr r) kr)).
Proof.
  intros Hok Hr. pose proof (window_pos_range kr r Hok).
  destruct Hok as (HW & Hfu & Hl & Hp & Hord & Hwin).
  unfold window_ok. simpl. change (Len (with_firstUnchecked r _)) with (Len kr).
  unfold in_u64 in *. repeat split; try lia.
Qed.

(* ------------------------------------------------------------------ *)
(** The four ways [check] goes on a round that does not lap the buffer,
    and the two ways on one that does. *)

(** The round is the only one of the window: both cursors step over it. *)
Lemma check_single kr rid :
  window_ok kr -> rid < MaxUint64 ->
  firstUnchecked kr = rid -> lastChecked kr = rid ->
  check rid kr
  = Done (tt, mkKR (BitBuffer.set
                      (BitBuffer.clear (BitBuffer.set (bitStream kr) (fuPos kr))
                                       (window_pos kr (rid + 1)))
                      (fuPos kr))
                   (rid + 1) (rid + 1) (window_pos kr (rid + 1))).
Proof.
  intros Hok Hmax Hf Hlc. pose proof Hok as (HW & Hfu & Hl & Hp & Hord & Hwin).
  pose proof (window_ok_Len kr Hok) as HL.
  assert (Hnext : u64 (rid + 1) = rid + 1) by (apply u64_id; unfold_ints; lia).
  set (kra := with_bitStream (BitBuffer.set (bitStream kr) (fuPos kr)) kr).
  assert (Hoka : window_ok kra) by (apply window_ok_bits; [assumption | apply BitBufferFacts.words_set]).
  assert (Hposa : forall r, getBitStreamPos kra r = getBitStreamPos kr r)
    by (intros r; apply getBitStreamPos_ext; auto; apply BitBufferFacts.words_set).
  assert (Epos : getBitStreamPos kr rid = Done (fuPos kr)).
  { rewrite getBitStreamPos_pos by (try assumption; lia).
    rewrite <- Hf. now rewrite window_pos_first. }
  assert (Enp : getBitStreamPos kra (u64 (rid + 1)) = Done (window_pos kr (rid + 1))).
  { rewrite Hnext, Hposa. apply getBitStreamPos_pos; [assumption | lia | lia]. }
  set (kr3 := mkKR (BitBuffer.clear (bitStream kra) (window_pos kr (rid + 1)))
                   (u64 (rid + 1)) (u64 (rid + 1)) (window_pos kr (rid + 1))).
  assert (E2 : extend_window rid (fuPos kr) kra = Done (tt, kra))
    by (apply extend_window_stay; simpl; lia).
  assert (E3 : advance_first rid (fuPos kr) kra = Done (tt, kr3)).
  { apply advance_first_single; [| |exact Enp].
    - rewrite Hposa. change (firstUnchecked kra) with (firstUnchecked kr).
      rewrite Hf. exact Epos.
    - rewrite Hposa. change (lastChecked kra) with (lastChecked kr).
      rewrite Hlc. exact Epos. }
  assert (E4 : handle_lapse rid kr3 = Done (tt, kr3)).
  { apply handle_lapse_stay. simpl. rewrite Hnext.
    destruct (Z.ltb_spec (rid + 1) rid); [lia | reflexivity]. }
  rewrite (check_steps rid kr (fuPos kr) kra kr3 kr3 ltac:(lia) Epos E2 E3 E4).
  unfold kr3, with_bitStream. simpl. rewrite Hnext. reflexivity.
Qed.

(** The round is the first unchecked one and later rounds are in the
    window: the first unchecked round migrates. *)
Lemma check_first kr rid :
  window_ok kr ->
  firstUnchecked kr = rid -> rid < lastChecked kr ->
  exists r,
    check rid kr
    = Done (tt, mkKR (BitBuffer.set (bitStream kr) (fuPos kr))
                     r (lastChecked kr) (window_pos kr r))
    /\ rid < r <= lastChecked kr
    /\ (forall j, rid < j < r ->
          BitBuffer.get (bitStream kr) (window_pos kr j) = true)
    /\ (r < lastChecked kr ->
          BitBuffer.get (bitStream kr) (window_pos kr r) = false).
Proof.
  intros Hok Hf Hlt. pose proof Hok as (HW & Hfu & Hl & Hp & Hord & Hwin).
  pose proof (window_ok_Len kr Hok) as HL.
  set (kra := with_bitStream (BitBuffer.set (bitStream kr) (fuPos kr)) kr).
  assert (Hwa : BitBuffer.words (bitStream kra) = BitBuffer.words (bitStream kr))
    by apply BitBufferFacts.words_set.
  assert (Hoka : window_ok kra) by (apply window_ok_bits; assumption).
  assert (Hposa : forall r, getBitStreamPos kra r = getBitStreamPos kr r)
    by (intros r; apply getBitStreamPos_ext; auto).
  assert (Hwpa : forall r, window_pos kra r = window_pos kr r)
    by (intros r; apply window_pos_ext; auto; now apply Len_bits).
  assert (Epos : getBitStreamPos kr rid = Done (fuPos kr)).
  { rewrite getBitStreamPos_pos by (try assumption; lia).
    rewrite <- Hf. now rewrite window_pos_first. }
  assert (Hcap : BitBuffer.cap (bitStream kr) = Len kr) by (symmetry; apply Len_cap).
  destruct (migrate_spec kra rid Hoka ltac:(simpl; lia) ltac:(simpl; lia))
    as (r & Em & Hr & Hset & Hstop).
  assert (Hfirst : BitBuffer.get (bitStream kra) (window_pos kra rid) = true).
  { rewrite Hwpa, <- Hf, window_pos_first by assumption.
    apply BitBufferFacts.get_set. lia. }
  assert (Hr' : rid < r).
  { destruct (Z.eq_dec r rid) as [->|]; [|lia].
    rewrite Hstop in Hfirst by (simpl; lia). discriminate. }
  assert (Hother : forall j, rid < j <= lastChecked kr ->
            BitBuffer.get (bitStream kra) (window_pos kra j)
            = BitBuffer.get (bitStream kr) (window_pos kr j)).
  { intros j Hj. rewrite Hwpa. unfold kra. simpl.
    rewrite BitFacts.get_set_cases by lia. rewrite Hcap.
    rewrite <- (window_pos_first kr Hok).
    rewrite !Z.mod_small by (apply window_pos_range; assumption).
    destruct (Z.eqb_spec (window_pos kr j) (window_pos kr (firstUnchecked kr))) as [E|];
      [|reflexivity].
    apply window_pos_eq_iff in E; [lia | assumption | lia]. }
  assert (E2 : extend_window rid (fuPos kr) kra = Done (tt, kra))
    by (apply extend_window_stay; simpl; lia).
  set (kr3 := with_firstUnchecked r (with_fuPos (window_pos kra r) kra)).
  assert (E3 : advance_first rid (fuPos kr) kra = Done (tt, kr3)).
  { rewrite (advance_first_migrate rid (fuPos kr) kra (window_pos kr (lastChecked kr))).
    - exact Em.
    - rewrite Hposa. change (firstUnchecked kra) with (firstUnchecked kr).
      rewrite Hf. exact Epos.
    - rewrite Hposa. change (lastChecked kra) with (lastChecked kr).
      apply getBitStreamPos_pos; [assumption | lia | lia].
    - rewrite <- (window_pos_first kr Hok). intros E.
      apply window_pos_eq_iff in E; [lia | assumption | lia]. }
  assert (E4 : handle_lapse rid kr3 = Done (tt, kr3)).
  { apply handle_lapse_stay. simpl.
    destruct (Z.ltb_spec r rid); [lia | reflexivity]. }
  exists r. split; [|split; [simpl in Hr; lia|split]].
  - rewrite (check_steps rid kr (fuPos kr) kra kr3 kr3 ltac:(lia) Epos E2 E3 E4).
    unfold kr3, with_bitStream, with_firstUnchecked, with_fuPos. simpl.
    rewrite BitBufferFacts.set_set by lia. rewrite Hwpa. reflexivity.
  - intros j Hj. rewrite <- Hother by (simpl in Hr; lia). apply Hset. lia.
  - intros Hlt'. rewrite <- Hother by (simpl in Hr; lia). apply Hstop. exact Hlt'.
Qed.

(** A later round of the window: only its bit is set. *)
Lemma check_inner kr rid :
  window_ok kr ->
  firstUnchecked kr < rid -> rid <= lastChecked kr ->
  check rid kr
  = Done (tt, with_bitStream (BitBuffer.set (bitStream kr) (window_pos kr rid)) kr).
Proof.
  intros Hok Hlt Hle. pose proof Hok as (HW & Hfu & Hl & Hp & Hord & Hwin).
  pose proof (window_ok_Len kr Hok) as HL.
  set (pos := window_pos kr rid).
  set (kra := with_bitStream (BitBuffer.set (bitStream kr) pos) kr).
  assert (Hposa : forall r, getBitStreamPos kra r = getBitStreamPos kr r)
    by (intros r; apply getBitStreamPos_ext; auto; apply BitBufferFacts.words_set).
  assert (Epos : getBitStreamPos kr rid = Done pos)
    by (apply getBitStreamPos_pos; [assumption | lia | lia]).
  assert (Hne : fuPos kr <> pos).
  { rewrite <- (window_pos_first kr Hok). intros E.
    apply window_pos_eq_iff in E; [lia | assumption | lia]. }
  assert (E2 : extend_window rid pos kra = Done (tt, kra))
    by (apply extend_window_stay; simpl; lia).
  assert (E3 : advance_first rid pos kra = Done (tt, kra)).
  { apply (advance_first_stay rid pos kra (fuPos kr)); [|exact Hne].
    rewrite Hposa. change (firstUnchecked kra) with (firstUnchecked kr).
    rewrite getBitStreamPos_pos by (try assumption; lia).
    now rewrite window_pos_first. }
  assert (E4 : handle_lapse rid kra = Done (tt, kra)).
  { apply handle_lapse_stay. change (firstUnchecked kra) with (firstUnchecked kr).
    unfold kra. rewrite Len_bits by apply BitBufferFacts.words_set.
    destruct (Z.ltb_spec (firstUnchecked kr) rid); [|lia]. simpl.
    unfold to_round. rewrite !u64_id by (unfold_ints; lia).
    apply Z.leb_gt. lia. }
  rewrite (check_steps rid kr pos kra kra kra ltac:(lia) Epos E2 E3 E4).
  unfold kra, with_bitStream. simpl.
  rewrite BitBufferFacts.set_set by lia. reflexivity.
Qed.

Lemma extend_window_extended kr rid :
  window_ok kr -> in_u64 rid ->
  lastChecked kr < rid -> rid - lastChecked kr <= Len kr ->
  extend_window rid (window_pos kr rid)
    (with_bitStream (BitBuffer.set (bitStream kr) (window_pos kr rid)) kr)
  = Done (tt, extended kr rid).
Proof.
  intros Hok Hr Hlt Hsc. pose proof Hok as (HW & Hfu & Hl & Hp & Hord & Hwin).
  pose proof (window_ok_Len kr Hok) as HL.
  set (pos := window_pos kr rid).
  set (kra := with_bitStream (BitBuffer.set (bitStream kr) pos) kr).
  assert (Hposa : forall r, getBitStreamPos kra r = getBitStreamPos kr r)
    by (intros r; apply getBitStreamPos_ext; auto; apply BitBufferFacts.words_set).
  rewrite (extend_window_grow rid pos kra (window_pos kr (lastChecked kr + 1))).
  - reflexivity.
  - simpl. lia.
  - change (lastChecked kra) with (lastChecked kr).
    rewrite u64_id by (unfold in_u64 in *; lia).
    rewrite Hposa. apply getBitStreamPos_pos; [assumption | lia | lia].
Qed.

Lemma words_extended kr rid :
  BitBuffer.words (bitStream (extended kr rid)) = BitBuffer.words (bitStream kr).
Proof.
  unfold extended. simpl.
  now rewrite BitBufferFacts.words_clearRange, BitBufferFacts.words_set.
Qed.

Lemma Len_extended kr rid : Len (extended kr rid) = Len kr.
Proof. unfold Len. now rewrite words_extended. Qed.

Lemma getBitStreamPos_extended kr rid r :
  getBitStreamPos (extended kr rid) r = getBitStreamPos kr r.
Proof. apply getBitStreamPos_ext; auto. apply words_extended. Qed.

(** A round after [lastChecked] that does not lap the buffer: the window
    is extended to it. *)
Lemma check_extend kr rid :
  window_ok kr -> in_u64 rid ->
  lastChecked kr < rid -> rid - firstUnchecked kr < Len kr ->
  check rid kr
  = Done (tt, with_bitStream
                (BitBuffer.set (bitStream (extended kr rid)) (window_pos kr rid))
                (extended kr rid)).
Proof.
  intros Hok Hr Hlt Hlap. pose proof Hok as (HW & Hfu & Hl & Hp & Hord & Hwin).
  pose proof (window_ok_Len kr Hok) as HL.
  set (pos := window_pos kr rid).
  assert (Epos : getBitStreamPos kr rid = Done pos)
    by (apply getBitStreamPos_pos; [assumption | lia | lia]).
  assert (Hne : fuPos kr <> pos).
  { rewrite <- (window_pos_first kr Hok). intros E.
    apply window_pos_eq_iff in E; [lia | assumption | lia]. }
  assert (E2 := extend_window_extended kr rid Hok Hr Hlt ltac:(lia)). fold pos in E2.
  assert (E3 : advance_first rid pos (extended kr rid) = Done (tt, extended kr rid)).
  { apply (advance_first_stay rid pos _ (fuPos kr)); [|exact Hne].
    rewrite getBitStreamPos_extended. change (firstUnchecked (extended kr rid)) with (firstUnchecked kr).
    rewrite getBitStreamPos_pos by (try assumption; lia).
    now rewrite window_pos_first. }
  assert (E4 : handle_lapse rid (extended kr rid) = Done (tt, extended kr rid)).
  { apply handle_lapse_stay. rewrite Len_extended.
    change (firstUnchecked (extended kr rid)) with (firstUnchecked kr).
    destruct (Z.ltb_spec (firstUnchecked kr) rid); [|lia]. simpl.
    unfold to_round. rewrite !u64_id by (unfold_ints; lia).
    apply Z.leb_gt. lia. }
  now rewrite (check_steps rid kr pos _ _ _ ltac:(lia) Epos E2 E3 E4).
Qed.

(** A round exactly one lap after the first unchecked one: the window is
    extended to it, and both cursors step over it. *)
Lemma check_lap_exact kr rid :
  window_ok kr -> in_u64 rid -> rid < MaxUint64 ->
  rid = firstUnchecked kr + Len kr ->
  check rid kr
  = Done (tt, mkKR (BitBuffer.set
                      (BitBuffer.clear (bitStream (extended kr rid))
                                       (window_pos kr (rid + 1)))
                      (window_pos kr rid))
                   (rid + 1) (rid + 1) (window_pos kr (rid + 1))).
Proof.
  intros Hok Hr Hmax Hlap. pose proof Hok as (HW & Hfu & Hl & Hp & Hord & Hwin).
  pose proof (window_ok_Len kr Hok) as HL.
  assert (Hnext : u64 (rid + 1) = rid + 1) by (apply u64_id; unfold_ints; lia).
  set (pos := window_pos kr rid).
  assert (Epos : getBitStreamPos kr rid = Done pos)
    by (apply getBitStreamPos_pos; [assumption | lia | lia]).
  assert (Hpos : pos = fuPos kr).
  { unfold pos, window_pos. rewrite Hlap.
    replace (fuPos kr + (firstUnchecked kr + Len kr - firstUnchecked kr))
      with (fuPos kr + 1 * Len kr) by lia.
    rewrite Z.mod_add by lia. apply Z.mod_small. lia. }
  assert (E2 := extend_window_extended kr rid Hok Hr ltac:(lia) ltac:(lia)). fold pos in E2.
  set (kr3 := mkKR (BitBuffer.clear (bitStream (extended kr rid)) (window_pos kr (rid + 1)))
                   (u64 (rid + 1)) (u64 (rid + 1)) (window_pos kr (rid + 1))).
  assert (E3 : advance_first rid pos (extended kr rid) = Done (tt, kr3)).
  { apply advance_first_single.
    - rewrite getBitStreamPos_extended. change (firstUnchecked (extended kr rid)) with (firstUnchecked kr).
      rewrite getBitStreamPos_pos by (try assumption; lia).
      now rewrite window_pos_first, Hpos.
    - rewrite getBitStreamPos_extended. exact Epos.
    - rewrite getBitStreamPos_extended, Hnext.
      apply getBitStreamPos_pos; [assumption | lia | lia]. }
  assert (E4 : handle_lapse rid kr3 = Done (tt, kr3)).
  { apply handle_lapse_stay. simpl. rewrite Hnext.
    destruct (Z.ltb_spec (rid + 1) rid); [lia | reflexivity]. }
  rewrite (check_steps rid kr pos _ _ _ ltac:(lia) Epos E2 E3 E4).
  unfold kr3, with_bitStream. simpl. rewrite Hnext. reflexivity.
Qed.

Lemma handle_lapse_go rid kr np :
  (firstUnchecked kr <? rid)
  && (to_round (Len kr) <=? u64 (rid - firstUnchecked kr)) = true ->
  getBitStreamPos kr (u64 (u64 (rid + 1) - to_round (Len kr))) = Done np ->
  handle_lapse rid kr
  = migrateFirstUnchecked rid
      (with_firstUnchecked (u64 (u64 (rid + 1) - to_round (Len kr))) (with_fuPos np kr)).
Proof.
  intros H E. unfold handle_lapse. rewrite (bind_done getS _ kr kr kr eq_refl).
  rewrite H. rewrite (bind_done _ _ _ _ _ (bitPos_done _ _ _ E)). reflexivity.
Qed.

(** A round more than one lap after the first unchecked one: the window
    is extended to it and then reduced to it alone. *)
Lemma check_lap kr rid :
  window_ok kr -> in_u64 rid -> rid < MaxUint64 ->
  firstUnchecked kr + Len kr < rid -> rid - lastChecked kr <= Len kr ->
  check rid kr
  = Done (tt, mkKR (BitBuffer.set (bitStream (extended kr rid)) (window_pos kr rid))
                   rid rid (window_pos kr rid)).
Proof.
  intros Hok Hr Hmax Hlap Hsc. pose proof Hok as (HW & Hfu & Hl & Hp & Hord & Hwin).
  pose proof (window_ok_Len kr Hok) as HL.
  assert (Hnext : u64 (rid + 1) = rid + 1) by (apply u64_id; unfold_ints; lia).
  set (pos := window_pos kr rid).
  assert (Epos : getBitStreamPos kr rid = Done pos)
    by (apply getBitStreamPos_pos; [assumption | lia | lia]).
  assert (Hne : fuPos kr <> pos).
  { rewrite <- (window_pos_first kr Hok). intros E.
    unfold pos, window_pos in E.
    replace (fuPos kr + (rid - firstUnchecked kr))
      with (fuPos kr + (rid - Len kr - firstUnchecked kr) + 1 * Len kr) in E by lia.
    rewrite Z.mod_add in E by lia.
    apply (window_pos_eq_iff kr _ (rid - Len kr) Hok) in E; lia. }
  assert (E2 := extend_window_extended kr rid Hok Hr ltac:(lia) Hsc). fold pos in E2.
  set (kr2 := extended kr rid) in *.
  assert (E3 : advance_first rid pos kr2 = Done (tt, kr2)).
  { apply (advance_first_stay rid pos _ (fuPos kr)); [|exact Hne].
    unfold kr2. rewrite getBitStreamPos_extended.
    change (firstUnchecked (extended kr rid)) with (firstUnchecked kr).
    rewrite getBitStreamPos_pos by (try assumption; lia).
    now rewrite window_pos_first. }
  set (newFu := rid + 1 - Len kr).
  assert (Hnew : u64 (u64 (rid + 1) - to_round (Len kr2)) = newFu).
  { unfold kr2. rewrite Len_extended, Hnext. unfold to_round.
    rewrite (u64_id (Len kr)) by (unfold_ints; lia).
    apply u64_id. unfold newFu. unfold_ints. lia. }
  set (kr3 := with_firstUnchecked newFu (with_fuPos (window_pos kr newFu) kr2)).
  assert (Hok3 : window_ok kr3).
  { pose proof (window_pos_range kr newFu Hok).
    assert (Hw3 : BitBuffer.words (bitStream kr3) = BitBuffer.words (bitStream kr))
      by apply words_extended.
    assert (HL3 : Len kr3 = Len kr) by apply Len_extended.
    unfold window_ok. rewrite Hw3, HL3.
    change (firstUnchecked kr3) with newFu. change (lastChecked kr3) with rid.
    change (fuPos kr3) with (window_pos kr newFu).
    unfold newFu, in_u64 in *. repeat split; try lia. }
  assert (Hp3 : window_pos kr3 rid = pos).
  { unfold window_pos at 1. simpl. change (Len kr3) with (Len kr2).
    unfold kr2. rewrite Len_extended. unfold window_pos at 1.
    rewrite Zplus_mod_idemp_l. unfold pos, window_pos. f_equal. lia. }
  assert (E4 : handle_lapse rid kr2 = Done (tt, mkKR (bitStream kr2) rid rid pos)).
  { rewrite (handle_lapse_go rid kr2 (window_pos kr newFu)).
    - rewrite Hnew. fold kr3.
      destruct (migrate_spec kr3 rid Hok3 ltac:(simpl; unfold newFu; lia) ltac:(simpl; lia))
        as (r & Em & Hr3 & _).
      simpl in Hr3. assert (r = rid) by lia. subst r.
      rewrite Em, Hp3. reflexivity.
    - change (firstUnchecked kr2) with (firstUnchecked kr).
      unfold kr2. rewrite Len_extended.
      destruct (Z.ltb_spec (firstUnchecked kr) rid); [|lia]. simpl.
      unfold to_round. rewrite !u64_id by (unfold_ints; lia).
      apply Z.leb_le. lia.
    - rewrite Hnew. unfold kr2. rewrite getBitStreamPos_extended.
      apply getBitStreamPos_pos; [assumption | unfold newFu; lia | unfold newFu; lia]. }
  now rewrite (check_steps rid kr pos _ _ _ ltac:(lia) Epos E2 E3 E4).
Qed.

(* ===================================================================== *)
(** ** What [check], [Forward] and [ForceCheck] do *)
(* ===================================================================== *)

Lemma window_pos_diff kr a b :
  window_ok kr ->
  (window_pos kr a - window_pos kr b) mod Len kr = (a - b) mod Len kr.
Proof.
  intros Hok. unfold window_pos. rewrite <- Zminus_mod. f_equal. lia.
Qed.

(** The answers of a state whose buffer has the words of [kr] and whose
    first unchecked round sits where [kr] has it. *)
Lemma status_anchor kr u f l r :
  window_ok kr -> BitBuffer.words u = BitBuffer.words (bitStream kr) ->
  status (mkKR u f l (window_pos kr f)) r
  = if r <? f then true else if l <? r then false
    else BitBuffer.get u (window_pos kr r).
Proof.
  intros Hok Hu. unfold status. simpl.
  destruct (r <? f); [reflexivity|]. destruct (l <? r); [reflexivity|].
  f_equal. unfold window_pos at 1. simpl.
  replace (Len (mkKR u f l (window_pos kr f))) with (Len kr)
    by (unfold Len; simpl; now rewrite Hu).
  unfold window_pos at 1. rewrite Zplus_mod_idemp_l.
  unfold window_pos. f_equal. lia.
Qed.

Lemma window_ok_anchor kr u f l :
  window_ok kr -> BitBuffer.words u = BitBuffer.words (bitStream kr) ->
  in_u64 f -> in_u64 l -> f <= l -> l - f < Len kr ->
  window_ok (mkKR u f l (window_pos kr f)).
Proof.
  intros Hok Hu Hf Hl Hord Hwin. pose proof (window_pos_range kr f Hok).
  destruct Hok as (HW & _).
  unfold window_ok. simpl.
  replace (Len (mkKR u f l (window_pos kr f))) with (Len kr)
    by (unfold Len; simpl; now rewrite Hu).
  rewrite Hu. tauto.
Qed.

(** Reading the bit of a round after the bit of another round was set or
    cleared. *)
Lemma get_set_pos kr u a b :
  window_ok kr -> BitBuffer.words u = BitBuffer.words (bitStream kr) ->
  BitBuffer.get (BitBuffer.set u (window_pos kr a)) (window_pos kr b)
  = (window_pos kr b =? window_pos kr a) || BitBuffer.get u (window_pos kr b).
Proof.
  intros Hok Hu. pose proof Hok as (HW & _).
  rewrite BitFacts.get_set_cases by lia.
  replace (BitBuffer.cap u) with (Len kr)
    by (rewrite Len_cap; unfold BitBuffer.cap; now rewrite Hu).
  now rewrite !Z.mod_small by (apply window_pos_range; assumption).
Qed.

Lemma get_clear_pos kr u a b :
  window_ok kr -> BitBuffer.words u = BitBuffer.words (bitStream kr) ->
  BitBuffer.get (BitBuffer.clear u (window_pos kr a)) (window_pos kr b)
  = negb (window_pos kr b =? window_pos kr a) && BitBuffer.get u (window_pos kr b).
Proof.
  intros Hok Hu. pose proof Hok as (HW & _).
  rewrite BitFacts.get_clear_cases by lia.
  replace (BitBuffer.cap u) with (Len kr)
    by (rewrite Len_cap; unfold BitBuffer.cap; now rewrite Hu).
  now rewrite !Z.mod_small by (apply window_pos_range; assumption).
Qed.

Lemma get_clearRange_pos kr u a b c :
  window_ok kr -> BitBuffer.words u = BitBuffer.words (bitStream kr) ->
  BitBuffer.get (BitBuffer.clearRange u (window_pos kr a) (window_pos kr b))
                (window_pos kr c)
  = negb ((c - a) mod Len kr <? (b - a) mod Len kr)
    && BitBuffer.get u (window_pos kr c).
Proof.
  intros Hok Hu. pose proof Hok as (HW & _).
  rewrite BitFacts.get_clearRange by lia.
  replace (BitBuffer.cap u) with (Len kr)
    by (rewrite Len_cap; unfold BitBuffer.cap; now rewrite Hu).
  now rewrite !window_pos_diff by assumption.
Qed.

Lemma window_pos_eqb kr a b :
  window_ok kr -> Z.abs (a - b) < Len kr ->
  (window_pos kr a =? window_pos kr b) = (a =? b).
Proof.
  intros Hok Hd. destruct (Z.eqb_spec a b) as [->|Hne].
  - apply Z.eqb_refl.
  - apply Z.eqb_neq. intros E. apply window_pos_eq_iff in E; auto.
Qed.

(** The bits of the window after it is extended to [rid]. *)
Lemma get_extended kr rid r :
  window_ok kr -> lastChecked kr < rid -> rid - lastChecked kr <= Len kr ->
  rid - Len kr < r < rid ->
  BitBuffer.get (bitStream (extended kr rid)) (window_pos kr r)
  = (r <=? lastChecked kr) && BitBuffer.get (bitStream kr) (window_pos kr r).
Proof.
  intros Hok Hlt Hsc Hr. pose proof (window_ok_Len kr Hok) as HL.
  unfold extended. cbn [bitStream].
  rewrite get_clearRange_pos by (try assumption; apply BitBufferFacts.words_set).
  rewrite get_set_pos by auto.
  rewrite window_pos_eqb by (try assumption; lia).
  destruct (Z.eqb_spec r rid); [lia|]. cbn [orb].
  replace ((rid - (lastChecked kr + 1)) mod Len kr) with (rid - lastChecked kr - 1)
    by (rewrite Z.mod_small; lia).
  destruct (Z.leb_spec r (lastChecked kr)) as [Hle|Hgt].
  - replace (r - (lastChecked kr + 1))
      with ((r - lastChecked kr - 1 + Len kr) + (-1) * Len kr) by lia.
    rewrite Z.mod_add, Z.mod_small by lia.
    destruct (Z.ltb_spec (r - lastChecked kr - 1 + Len kr) (rid - lastChecked kr - 1));
      [lia | reflexivity].
  - rewrite Z.mod_small by lia.
    destruct (Z.ltb_spec (r - (lastChecked kr + 1)) (rid - lastChecked kr - 1));
      [reflexivity | lia].
Qed.

(** What [check] does to a state of the data model, for a round below
    the largest one that is at most one capacity after [lastChecked]. *)
Lemma check_effect kr rid :
  window_ok kr -> in_u64 rid -> rid < MaxUint64 ->
  rid - lastChecked kr <= Len kr ->
  exists kr1,
    check rid kr = Done (tt, kr1)
    /\ window_ok kr1
    /\ BitBuffer.words (bitStream kr1) = BitBuffer.words (bitStream kr)
    /\ firstUnchecked kr <= firstUnchecked kr1
    /\ (lastChecked kr <= lastChecked kr1
        /\ (lastChecked kr1 <= Z.max (lastChecked kr) rid
            \/ (lastChecked kr1 = rid + 1
                /\ (rid = firstUnchecked kr \/ rid = firstUnchecked kr + Len kr))))
    /\ status kr1 rid = true
    /\ (rid - firstUnchecked kr < Len kr ->
        forall r, r <> rid -> status kr1 r = status kr r)
    /\ (firstUnchecked kr + Len kr < rid ->
        firstUnchecked kr1 = rid /\ lastChecked kr1 = rid)
    /\ (rid = firstUnchecked kr + Len kr ->
        firstUnchecked kr1 = rid + 1 /\ lastChecked kr1 = rid + 1
        /\ status kr1 (rid + 1) = false).
Proof.
  intros Hok Hr Hmax Hsc. pose proof Hok as (HW & Hfu & Hl & Hp & Hord & Hwin).
  pose proof (window_ok_Len kr Hok) as HL.
  assert (Hfp : fuPos kr = window_pos kr (firstUnchecked kr))
    by (symmetry; now apply window_pos_first).
  assert (Hws : forall p, BitBuffer.words (BitBuffer.set (bitStream kr) p)
                          = BitBuffer.words (bitStream kr))
    by (intros; apply BitBufferFacts.words_set).
  destruct (Z.lt_ge_cases rid (firstUnchecked kr)) as [Hbelow|Hin].
  { (* before the window *)
    exists kr. split; [now apply check_below|]. split; [assumption|].
    repeat split; try lia.
    unfold status. destruct (Z.ltb_spec rid (firstUnchecked kr)); [reflexivity | lia]. }
  destruct (Z.le_gt_cases rid (lastChecked kr)) as [Hle|Hgt].
  - destruct (Z.eq_dec rid (firstUnchecked kr)) as [Heq|Hne].
    + destruct (Z.eq_dec (lastChecked kr) rid) as [Hone|Hmore].
      * (* the only round of the window *)
        eexists. split; [apply check_single; auto|].
        rewrite Hfp, <- Heq.
        set (u := BitBuffer.set (BitBuffer.clear _ _) _).
        assert (Hu : BitBuffer.words u = BitBuffer.words (bitStream kr)).
        { unfold u. now rewrite BitBufferFacts.words_set, BitBufferFacts.words_clear, Hws. }
        split; [apply window_ok_anchor; auto; unfold in_u64 in *; unfold_ints; lia|].
        split; [exact Hu|]. cbn [firstUnchecked lastChecked].
        split; [lia|]. split; [lia|]. split; [|split; [|split; intros; lia]].
        -- rewrite status_anchor by auto.
           destruct (Z.ltb_spec rid (rid + 1)); [reflexivity | lia].
        -- intros _ r Hr'. rewrite status_anchor by auto. unfold status.
           destruct (Z.ltb_spec r (rid + 1)), (Z.ltb_spec r (firstUnchecked kr));
             try lia; try reflexivity.
           destruct (Z.ltb_spec (rid + 1) r), (Z.ltb_spec (lastChecked kr) r);
             try lia; try reflexivity.
           assert (r = rid + 1) by lia. subst r. unfold u.
           rewrite get_set_pos
             by (auto; now rewrite BitBufferFacts.words_clear, Hws).
           rewrite window_pos_eqb by (try assumption; lia).
           destruct (Z.eqb_spec (rid + 1) rid); [lia|]. cbn [orb].
           rewrite get_clear_pos by auto. now rewrite Z.eqb_refl.
      * (* the first unchecked round, with later rounds in the window *)
        destruct (check_first kr rid Hok ltac:(lia) ltac:(lia))
          as (r0 & E & Hr0 & Hset & Hstop).
        eexists. split; [exact E|]. rewrite Hfp.
        split; [apply window_ok_anchor; auto; unfold in_u64 in *; lia|].
        split; [apply Hws|]. cbn [firstUnchecked lastChecked].
        split; [lia|]. split; [lia|]. split; [|split; [|split; intros; lia]].
        -- rewrite status_anchor by auto.
           destruct (Z.ltb_spec rid r0); [reflexivity | lia].
        -- intros _ r Hr'. rewrite status_anchor by auto. unfold status.
           destruct (Z.ltb_spec r r0), (Z.ltb_spec r (firstUnchecked kr));
             try lia; try reflexivity.
           ++ destruct (Z.ltb_spec (lastChecked kr) r); [lia|].
              symmetry. apply Hset. lia.
           ++ destruct (Z.ltb_spec (lastChecked kr) r); [reflexivity|].
              rewrite get_set_pos by auto.
              rewrite window_pos_eqb by (try assumption; lia).
              destruct (Z.eqb_spec r (firstUnchecked kr)); [lia | reflexivity].
    + (* a later round of the window *)
      eexists. split; [apply check_inner; auto; lia|].
      unfold with_bitStream. rewrite Hfp.
      split; [apply window_ok_anchor; auto; lia|].
      split; [apply Hws|]. cbn [firstUnchecked lastChecked].
      split; [lia|]. split; [lia|]. split; [|split; [|split; intros; lia]].
      * rewrite status_anchor by auto.
        destruct (Z.ltb_spec rid (firstUnchecked kr)); [lia|].
        destruct (Z.ltb_spec (lastChecked kr) rid); [lia|].
        rewrite get_set_pos by auto. now rewrite Z.eqb_refl.
      * intros _ r Hr'. rewrite status_anchor by auto. unfold status.
        destruct (Z.ltb_spec r (firstUnchecked kr)); [reflexivity|].
        destruct (Z.ltb_spec (lastChecked kr) r); [reflexivity|].
        rewrite get_set_pos by auto.
        rewrite window_pos_eqb by (try assumption; lia).
        destruct (Z.eqb_spec r rid); [lia | reflexivity].
  - assert (Hwe : BitBuffer.words (BitBuffer.set (bitStream (extended kr rid))
                                                 (window_pos kr rid))
                  = BitBuffer.words (bitStream kr))
      by (rewrite BitBufferFacts.words_set; apply words_extended).
    destruct (Z.lt_trichotomy (rid - firstUnchecked kr) (Len kr)) as [Hno|[Hex|Hlap]].
    + (* the window is extended *)
      eexists. split; [apply check_extend; auto|].
      unfold with_bitStream. cbn [firstUnchecked lastChecked fuPos extended].
      fold (extended kr rid). rewrite Hfp.
      split; [apply window_ok_anchor; auto; lia|].
      split; [exact Hwe|]. cbn [firstUnchecked lastChecked].
      split; [lia|]. split; [lia|]. split; [|split; [|split; intros; lia]].
      * rewrite status_anchor by auto.
        destruct (Z.ltb_spec rid (firstUnchecked kr)); [lia|].
        rewrite Z.ltb_irrefl.
        rewrite get_set_pos by (auto; apply words_extended). now rewrite Z.eqb_refl.
      * intros _ r Hr'. rewrite status_anchor by auto. unfold status.
        destruct (Z.ltb_spec r (firstUnchecked kr)); [reflexivity|].
        destruct (Z.ltb_spec rid r), (Z.ltb_spec (lastChecked kr) r);
          try lia; try reflexivity;
          rewrite get_set_pos by (auto; apply words_extended);
          rewrite window_pos_eqb by (try assumption; lia);
          (destruct (Z.eqb_spec r rid); [lia|]); cbn [orb];
          rewrite get_extended by (try assumption; lia).
        -- destruct (Z.leb_spec r (lastChecked kr)); [lia | reflexivity].
        -- destruct (Z.leb_spec r (lastChecked kr)); [reflexivity | lia].
    + (* exactly one lap *)
      eexists. split; [apply check_lap_exact; auto; lia|].
      set (u := BitBuffer.set (BitBuffer.clear _ _) _).
      assert (Hu : BitBuffer.words u = BitBuffer.words (bitStream kr)).
      { unfold u. rewrite BitBufferFacts.words_set, BitBufferFacts.words_clear.
        apply words_extended. }
      split; [apply window_ok_anchor; auto; unfold in_u64 in *; unfold_ints; lia|].
      split; [exact Hu|]. cbn [firstUnchecked lastChecked].
      split; [lia|]. split; [lia|]. split; [|split; [intros; lia|split; [intros; lia|]]].
      * rewrite status_anchor by auto.
        destruct (Z.ltb_spec rid (rid + 1)); [reflexivity | lia].
      * intros _. split; [reflexivity|]. split; [reflexivity|].
        rewrite status_anchor by auto. rewrite !Z.ltb_irrefl. unfold u.
        rewrite get_set_pos
          by (auto; rewrite BitBufferFacts.words_clear; apply words_extended).
        rewrite window_pos_eqb by (try assumption; lia).
        destruct (Z.eqb_spec (rid + 1) rid); [lia|]. cbn [orb].
        rewrite get_clear_pos by (auto; apply words_extended).
        now rewrite Z.eqb_refl.
    + (* more than one lap *)
      eexists. split; [apply check_lap; auto; lia|].
      split; [apply window_ok_anchor; auto; lia|].
      split; [exact Hwe|]. cbn [firstUnchecked lastChecked].
      split; [lia|]. split; [lia|]. split; [|split; [intros; lia|split; intros; lia]].
      rewrite status_anchor by auto. rewrite Z.ltb_irrefl.
      rewrite get_set_pos by (auto; apply words_extended). now rewrite Z.eqb_refl.
Qed.

Lemma status_below kr r : r < firstUnchecked kr -> status kr r = true.
Proof. intros H. unfold status. destruct (Z.ltb_spec r (firstUnchecked kr)); [reflexivity | lia]. Qed.

Lemma status_above kr r :
  firstUnchecked kr <= r -> lastChecked kr < r -> status kr r = false.
Proof.
  intros H1 H2. unfold status.
  destruct (Z.ltb_spec r (firstUnchecked kr)); [lia|].
  destruct (Z.ltb_spec (lastChecked kr) r); [reflexivity | lia].
Qed.

(** What [Forward] does to a state of the data model. *)
Lemma Forward_effect kr rid :
  window_ok kr -> in_u64 rid ->
  exists kr1,
    Forward rid kr = Done (tt, kr1)
    /\ window_ok kr1
    /\ bitStream kr1 = bitStream kr
    /\ firstUnchecked kr <= firstUnchecked kr1
    /\ lastChecked kr <= lastChecked kr1
    /\ (forall r, r < rid -> status kr1 r = true)
    /\ (rid <= lastChecked kr ->
        lastChecked kr1 = lastChecked kr
        /\ forall r, rid <= r -> status kr1 r = status kr r)
    /\ (lastChecked kr < rid ->
        kr1 = mkKR (bitStream kr) rid rid (rid mod 64))
    /\ rid <= firstUnchecked kr1.
Proof.
  intros Hok Hr. pose proof Hok as (HW & Hfu & Hl & Hp & Hord & Hwin).
  pose proof (window_ok_Len kr Hok) as HL.
  rewrite Forward_eq.
  destruct (Z.ltb_spec (lastChecked kr) rid) as [Hgt|Hle].
  - pose proof (Z.mod_pos_bound rid 64 ltac:(lia)) as Hm.
    rewrite to_int_small by (unfold_ints; lia).
    eexists. split; [reflexivity|]. cbn [bitStream firstUnchecked lastChecked].
    split.
    { unfold window_ok, Len. simpl. fold (Len kr). unfold in_u64 in *. repeat split; lia. }
    split; [reflexivity|]. split; [lia|]. split; [lia|].
    split; [intros r Hlt; now apply status_below|].
    split; [intros; lia|]. split; [reflexivity | lia].
  - destruct (Z.leb_spec (firstUnchecked kr) rid) as [Hin|Hbelow].
    + destruct (migrate_spec kr rid Hok Hin Hle) as (r0 & E & Hr0 & Hset & _).
      eexists. split; [exact E|].
      change (with_firstUnchecked r0 (with_fuPos (window_pos kr r0) kr))
        with (mkKR (bitStream kr) r0 (lastChecked kr) (window_pos kr r0)).
      cbn [bitStream firstUnchecked lastChecked].
      split; [apply window_ok_anchor; auto; unfold in_u64 in *; lia|].
      split; [reflexivity|]. split; [lia|]. split; [lia|].
      split; [intros r Hlt; apply status_below; simpl; lia|].
      split; [|split; [intros; lia | lia]]. intros _. split; [reflexivity|].
      intros r Hge. rewrite status_anchor by auto. unfold status.
      destruct (Z.ltb_spec r r0), (Z.ltb_spec r (firstUnchecked kr));
        try lia; try reflexivity.
      destruct (Z.ltb_spec (lastChecked kr) r); [lia|].
      symmetry. apply Hset. lia.
    + exists kr. split; [reflexivity|]. split; [assumption|].
      split; [reflexivity|]. split; [lia|]. split; [lia|].
      split; [intros r Hlt; apply status_below; lia|].
      split; [auto|]. split; [intros; lia | lia].
Qed.

(** The guard on a state of the data model, for a round below [2^63]
    that [check] would act on. *)
Lemma out_of_scope_window kr rid :
  window_ok kr -> 0 <= rid < two63 -> firstUnchecked kr <= rid ->
  out_of_scope rid kr = Done (Len kr <=? Z.abs (lastChecked kr - rid), kr).
Proof.
  intros Hok Hr Hin. pose proof Hok as (HW & Hfu & Hl & Hp & Hord & Hwin).
  pose proof (window_ok_Len kr Hok) as HL.
  apply out_of_scope_distance; try assumption; unfold_ints; lia.
Qed.

(** What [ForceCheck] does to a state of the data model, for a round
    below [2^63]. *)
Lemma ForceCheck_effect kr rid :
  window_ok kr -> 0 <= rid < two63 ->
  exists kr1,
    ForceCheck rid kr = Done (tt, kr1)
    /\ window_ok kr1
    /\ BitBuffer.words (bitStream kr1) = BitBuffer.words (bitStream kr)
    /\ status kr1 rid = true.
Proof.
  intros Hok Hr. pose proof Hok as (HW & Hfu & Hl & Hp & Hord & Hwin).
  pose proof (window_ok_Len kr Hok) as HL.
  assert (Hr' : in_u64 rid) by (unfold_ints; lia).
  assert (Hmax : rid < MaxUint64) by (unfold_ints; lia).
  unfold ForceCheck.
  destruct (out_of_scope_total rid kr ltac:(lia)) as [far Eg].
  rewrite (bind_done _ _ _ _ _ Eg), (bind_done getS _ kr kr kr eq_refl).
  destruct (Z.lt_ge_cases rid (firstUnchecked kr)) as [Hbelow|Hin].
  - (* the round is before the window, whatever [Forward] does *)
    assert (exists kr1, (if far
                         then Forward (u64 (rid - to_round (BitBuffer.words (bitStream kr) * 64)))
                         else ret tt) kr = Done (tt, kr1)
                        /\ window_ok kr1 /\ bitStream kr1 = bitStream kr
                        /\ firstUnchecked kr <= firstUnchecked kr1)
      as (kr1 & E1 & Hok1 & Hb1 & Hf1).
    { destruct far.
      - destruct (Forward_effect kr _ Hok (u64_range (rid - to_round (BitBuffer.words (bitStream kr) * 64))))
          as (kr1 & E1 & Hok1 & Hb1 & Hf1 & _).
        exists kr1. auto.
      - exists kr. split; [reflexivity|]. split; [assumption|].
        split; [reflexivity | lia]. }
    rewrite (bind_done _ _ _ _ _ E1).
    exists kr1. split; [apply check_below; lia|]. split; [assumption|].
    split; [now rewrite Hb1|]. apply status_below. lia.
  - rewrite (out_of_scope_window kr rid Hok Hr Hin) in Eg. injection Eg as <-.
    destruct (Z.leb_spec (Len kr) (Z.abs (lastChecked kr - rid))) as [Hfar|Hnear].
    + (* far ahead: the window is moved to one capacity before the round *)
      assert (Hahead : Len kr <= rid - lastChecked kr) by lia.
      assert (Ht : u64 (rid - to_round (BitBuffer.words (bitStream kr) * 64)) = rid - Len kr).
      { fold (Len kr). unfold to_round. rewrite (u64_id (Len kr)) by (unfold_ints; lia).
        apply u64_id. unfold_ints. lia. }
      rewrite Ht.
      destruct (Forward_effect kr (rid - Len kr) Hok ltac:(unfold_ints; lia))
        as (kr1 & E1 & Hok1 & Hb1 & Hf1 & Hl1 & _ & Hin1 & Hout1 & _).
      rewrite (bind_done _ _ _ _ _ E1).
      assert (HL1 : Len kr1 = Len kr) by (unfold Len; now rewrite Hb1).
      assert (Hlc1 : lastChecked kr1 = rid - Len kr).
      { destruct (Z.eq_dec (lastChecked kr) (rid - Len kr)) as [Heq|Hne].
        - destruct (Hin1 ltac:(lia)) as [-> _]. exact Heq.
        - rewrite (Hout1 ltac:(lia)). reflexivity. }
      destruct (check_effect kr1 rid Hok1 Hr' Hmax ltac:(lia))
        as (kr2 & E2 & Hok2 & Hw2 & _ & _ & Hs2 & _).
      exists kr2. split; [exact E2|]. split; [assumption|].
      split; [now rewrite Hw2, Hb1 | exact Hs2].
    + rewrite (bind_done (ret tt) _ kr tt kr eq_refl).
      destruct (check_effect kr rid Hok Hr' Hmax ltac:(lia))
        as (kr2 & E2 & Hok2 & Hw2 & _ & _ & Hs2 & _).
      exists kr2. auto.
Qed.

(* ===================================================================== *)
(** ** [Check] as [Checked] sees it *)
(* ===================================================================== *)

(** X2: on a state of the data model, [Check(rid)] of a round below
    [2^64 - 1] that is less than the capacity away from [lastChecked]
    returns, and [Checked(rid)] is true afterwards. *)
Theorem Check_marks_round (kr : KnownRounds) (rid : Z) :
  window_ok kr -> in_u64 rid -> rid < MaxUint64 ->
  Z.abs (lastChecked kr - rid) < Len kr ->
  exists kr1,
    Check rid kr = Done (tt, kr1) /\ Checked rid kr1 = Done (true, kr1).
Proof.
  intros Hok Hr Hmax Hsc. pose proof Hok as (HW & Hfu & Hl & _).
  rewrite Check_near by (try assumption; lia).
  destruct (check_effect kr rid Hok Hr Hmax ltac:(lia))
    as (kr1 & E & Hok1 & _ & _ & _ & Hs & _).
  exists kr1. split; [exact E|]. rewrite Checked_status by assumption.
  now rewrite Hs.
Qed.

Lemma Check_marks_round_witness :
  exists kr1,
    Check 95 test_state = Done (tt, kr1) /\ Checked 95 kr1 = Done (true, kr1).
Proof.
  apply (Check_marks_round test_state 95).
  - unfold window_ok. by_compute.
  - by_compute.
  - reflexivity.
  - reflexivity.
Defined.

(** X3: on a state of the data model, [Check(rid)] of a round that is in
    scope and does not lap the buffer ([rid - firstUnchecked < C])
    changes the answer of [Checked] for no other round. *)
Theorem Check_keeps_other_rounds (kr : KnownRounds) (rid : Z) :
  window_ok kr -> in_u64 rid -> rid < MaxUint64 ->
  Z.abs (lastChecked kr - rid) < Len kr ->
  rid - firstUnchecked kr < Len kr ->
  exists kr1,
    Check rid kr = Done (tt, kr1)
    /\ forall r, r <> rid ->
         exists b, Checked r kr = Done (b, kr) /\ Checked r kr1 = Done (b, kr1).
Proof.
  intros Hok Hr Hmax Hsc Hlap. pose proof Hok as (HW & Hfu & Hl & _).
  rewrite Check_near by (try assumption; lia).
  destruct (check_effect kr rid Hok Hr Hmax ltac:(lia))
    as (kr1 & E & Hok1 & _ & _ & _ & _ & Hframe & _).
  exists kr1. split; [exact E|]. intros r Hne. exists (status kr r).
  rewrite !Checked_status by assumption. now rewrite (Hframe Hlap r Hne).
Qed.

Lemma Check_keeps_other_rounds_witness :
  exists kr1,
    Check 95 test_state = Done (tt, kr1)
    /\ forall r, r <> 95 ->
         exists b, Checked r test_state = Done (b, test_state)
                   /\ Checked r kr1 = Done (b, kr1).
Proof.
  apply (Check_keeps_other_rounds test_state 95).
  - unfold window_ok. by_compute.
  - by_compute.
  - reflexivity.
  - reflexivity.
  - reflexivity.
Defined.

(** X4: on a state of the data model, [Check(rid)] of a round after
    [lastChecked] that does not lap the buffer makes [rid] the last
    checked round, keeps [firstUnchecked] and [fuPos], and every round
    between the old [lastChecked] and [rid] reads as unchecked. *)
Theorem Check_extends_window (kr : KnownRounds) (rid : Z) :
  window_ok kr -> in_u64 rid ->
  lastChecked kr < rid -> rid - firstUnchecked kr < Len kr ->
  exists kr1,
    Check rid kr = Done (tt, kr1)
    /\ firstUnchecked kr1 = firstUnchecked kr
    /\ lastChecked kr1 = rid
    /\ fuPos kr1 = fuPos kr
    /\ forall r, lastChecked kr < r < rid -> Checked r kr1 = Done (false, kr1).
Proof.
  intros Hok Hr Hlt Hlap. pose proof Hok as (HW & Hfu & Hl & Hp & Hord & Hwin).
  pose proof (window_ok_Len kr Hok) as HL.
  rewrite Check_near by (try assumption; lia).
  rewrite check_extend by assumption.
  eexists. split; [reflexivity|]. cbn [firstUnchecked lastChecked fuPos with_bitStream extended].
  split; [reflexivity|]. split; [reflexivity|]. split; [reflexivity|].
  intros r Hbetween.
  assert (Hfp : fuPos kr = window_pos kr (firstUnchecked kr))
    by (symmetry; now apply window_pos_first).
  change (with_bitStream
            (BitBuffer.set (bitStream (extended kr rid)) (window_pos kr rid))
            (extended kr rid))
    with (mkKR (BitBuffer.set (bitStream (extended kr rid)) (window_pos kr rid))
               (firstUnchecked kr) rid (fuPos kr)).
  rewrite Hfp.
  assert (Hwe : BitBuffer.words (BitBuffer.set (bitStream (extended kr rid))
                                               (window_pos kr rid))
                = BitBuffer.words (bitStream kr))
    by (rewrite BitBufferFacts.words_set; apply words_extended).
  rewrite Checked_status by (apply window_ok_anchor; auto; lia).
  do 2 f_equal. rewrite status_anchor by auto.
  destruct (Z.ltb_spec r (firstUnchecked kr)); [lia|].
  destruct (Z.ltb_spec rid r); [lia|].
  rewrite get_set_pos by (auto; apply words_extended).
  rewrite window_pos_eqb by (try assumption; lia).
  destruct (Z.eqb_spec r rid); [lia|]. cbn [orb].
  rewrite get_extended by (try assumption; lia).
  destruct (Z.leb_spec r (lastChecked kr)); [lia | reflexivity].
Qed.

Lemma Check_extends_window_witness :
  exists kr1,
    Check 210 test_state = Done (tt, kr1)
    /\ firstUnchecked kr1 = firstUnchecked test_state
    /\ lastChecked kr1 = 210
    /\ fuPos kr1 = fuPos test_state
    /\ forall r, lastChecked test_state < r < 210 -> Checked r kr1 = Done (false, kr1).
Proof. apply (Check_extends_window test_state 210); by_compute. Defined.

(** X5: on a state of the data model, [Check(rid)] of a round in scope
    that is a capacity or more after [firstUnchecked] leaves a window of
    one round ([firstUnchecked = lastChecked]), and afterwards [Checked]
    is true for every round up to [rid] and false for every later one:
    the rounds before [rid] that were never checked read as checked. *)
Theorem Check_lap_forgets (kr : KnownRounds) (rid : Z) :
  window_ok kr -> in_u64 rid -> rid < MaxUint64 ->
  Z.abs (lastChecked kr - rid) < Len kr ->
  firstUnchecked kr + Len kr <= rid ->
  exists kr1,
    Check rid kr = Done (tt, kr1)
    /\ firstUnchecked kr1 = lastChecked kr1
    /\ forall r, Checked r kr1 = Done (r <=? rid, kr1).
Proof.
  intros Hok Hr Hmax Hsc Hlap. pose proof Hok as (HW & Hfu & Hl & _).
  rewrite Check_near by (try assumption; lia).
  destruct (check_effect kr rid Hok Hr Hmax ltac:(lia))
    as (kr1 & E & Hok1 & _ & _ & _ & Hs & _ & Hcol & Hex).
  exists kr1. split; [exact E|].
  destruct (Z.eq_dec rid (firstUnchecked kr + Len kr)) as [Heq|Hne].
  - destruct (Hex Heq) as (Hf1 & Hl1 & Hnext). split; [lia|].
    intros r. rewrite Checked_status by assumption. do 2 f_equal.
    destruct (Z.leb_spec r rid) as [Hle|Hgt].
    + apply status_below. lia.
    + destruct (Z.eq_dec r (rid + 1)) as [->|]; [exact Hnext|].
      apply status_above; lia.
  - destruct (Hcol ltac:(lia)) as [Hf1 Hl1]. split; [lia|].
    intros r. rewrite Checked_status by assumption. do 2 f_equal.
    destruct (Z.leb_spec r rid) as [Hle|Hgt].
    + destruct (Z.eq_dec r rid) as [->|]; [exact Hs|]. apply status_below. lia.
    + apply status_above; lia.
Qed.

Lemma Check_lap_forgets_witness :
  exists kr1,
    Check 70 checked_10_state = Done (tt, kr1)
    /\ firstUnchecked kr1 = lastChecked kr1
    /\ forall r, Checked r kr1 = Done (r <=? 70, kr1).
Proof.
  apply (Check_lap_forgets checked_10_state 70).
  - unfold window_ok. by_compute.
  - by_compute.
  - reflexivity.
  - reflexivity.
  - by_compute.
Defined.

(** [Check] of a round of the window that does not lap the buffer, as a
    change of the answers of [Checked]. *)
Lemma Check_in_window kr a :
  window_ok kr -> in_u64 a -> a < MaxUint64 ->
  firstUnchecked kr <= a -> a - firstUnchecked kr < Len kr ->
  exists kr1,
    Check a kr = Done (tt, kr1)
    /\ window_ok kr1 /\ Len kr1 = Len kr
    /\ firstUnchecked kr <= firstUnchecked kr1
    /\ lastChecked kr <= lastChecked kr1
    /\ (lastChecked kr1 <= Z.max (lastChecked kr) a
        \/ (lastChecked kr1 = a + 1 /\ a = firstUnchecked kr))
    /\ forall r, status kr1 r = (r =? a) || status kr r.
Proof.
  intros Hok Ha Hmax Hin Hlap. pose proof Hok as (HW & Hfu & Hl & Hp & Hord & Hwin).
  pose proof (window_ok_Len kr Hok) as HL.
  rewrite Check_near by (try assumption; lia).
  destruct (check_effect kr a Hok Ha Hmax ltac:(lia))
    as (kr1 & E & Hok1 & Hw1 & Hf1 & Hl1 & Hs & Hframe & _).
  exists kr1. split; [exact E|]. split; [assumption|].
  split; [unfold Len; now rewrite Hw1|]. split; [lia|]. split; [lia|].
  split; [lia|]. intros r. destruct (Z.eqb_spec r a) as [->|Hne].
  - exact Hs.
  - now apply Hframe.
Qed.

(** X6: two calls of [Check] on rounds of the window that do not lap the
    buffer can be made in either order: both orders return, and the
    states they end in give the same answer of [Checked] for every
    round. *)
Theorem Check_commutes (kr : KnownRounds) (a b : Z) :
  window_ok kr ->
  in_u64 a -> a < MaxUint64 -> in_u64 b -> b < MaxUint64 ->
  firstUnchecked kr <= a -> a - firstUnchecked kr < Len kr ->
  firstUnchecked kr <= b -> b - firstUnchecked kr < Len kr ->
  exists k1 k2,
    (Check a ;; Check b) kr = Done (tt, k1)
    /\ (Check b ;; Check a) kr = Done (tt, k2)
    /\ forall r, exists s,
         Checked r k1 = Done (s, k1) /\ Checked r k2 = Done (s, k2).
Proof.
  intros Hok Ha Hamax Hb Hbmax Hain Halap Hbin Hblap.
  assert (Hthen : forall x y,
            in_u64 x -> x < MaxUint64 -> in_u64 y -> y < MaxUint64 ->
            firstUnchecked kr <= x -> x - firstUnchecked kr < Len kr ->
            firstUnchecked kr <= y -> y - firstUnchecked kr < Len kr ->
            exists k, (Check x ;; Check y) kr = Done (tt, k)
                      /\ window_ok k
                      /\ forall r, status k r = (r =? y) || ((r =? x) || status kr r)).
  { intros x y Hx Hxmax Hy Hymax Hxin Hxlap Hyin Hylap.
    destruct (Check_in_window kr x Hok Hx Hxmax Hxin Hxlap)
      as (kx & Ex & Hokx & HLx & Hfx & Hlx & Hux & Hsx).
    rewrite (bind_done _ _ _ _ _ Ex).
    pose proof Hok as (HW & Hfu & Hl & Hp & Hord & Hwin).
    pose proof Hokx as (HWx & Hfux & Hlcx & Hpx & Hordx & Hwinx).
    pose proof (window_ok_Len kr Hok) as HL.
    assert (Hscope : Z.abs (lastChecked kx - y) < Len kx) by lia.
    destruct (Z.lt_ge_cases y (firstUnchecked kx)) as [Hbelow|Hge].
    - (* the first unchecked round has moved past [y] *)
      exists kx. split; [|split; [assumption|]].
      + rewrite Check_near by (try assumption; lia). now apply check_below.
      + intros r. rewrite Hsx. destruct (Z.eqb_spec r y) as [->|]; [|reflexivity].
        rewrite <- Hsx. cbn [orb]. now apply status_below.
    - destruct (Check_in_window kx y Hokx Hy Hymax Hge ltac:(lia))
        as (ky & Ey & Hoky & _ & _ & _ & _ & Hsy).
      exists ky. split; [exact Ey|]. split; [assumption|].
      intros r. now rewrite Hsy, Hsx. }
  destruct (Hthen a b Ha Hamax Hb Hbmax Hain Halap Hbin Hblap) as (k1 & E1 & Hok1 & Hs1).
  destruct (Hthen b a Hb Hbmax Ha Hamax Hbin Hblap Hain Halap) as (k2 & E2 & Hok2 & Hs2).
  exists k1, k2. split; [exact E1|]. split; [exact E2|].
  intros r. exists (status k1 r). rewrite !Checked_status by assumption.
  split; [reflexivity|]. do 2 f_equal. rewrite Hs1, Hs2.
  destruct (r =? a), (r =? b); reflexivity.
Qed.

Lemma Check_commutes_witness :
  exists k1 k2,
    (Check 95 ;; Check 210) test_state = Done (tt, k1)
    /\ (Check 210 ;; Check 95) test_state = Done (tt, k2)
    /\ forall r, exists s,
         Checked r k1 = Done (s, k1) /\ Checked r k2 = Done (s, k2).
Proof.
  apply (Check_commutes test_state 95 210); by_compute.
Defined.

(** X7: a round before [firstUnchecked] is left alone: [Check] of it,
    when it is in scope, and [ForceCheck] of it, when it is at least the
    capacity, return the state they were given. *)
Theorem old_round_is_left_alone (kr : KnownRounds) (rid : Z) :
  window_ok kr -> in_u64 rid -> rid < firstUnchecked kr ->
  (lastChecked kr - rid < Len kr -> Check rid kr = Done (tt, kr))
  /\ (Len kr <= rid -> ForceCheck rid kr = Done (tt, kr)).
Proof.
  intros Hok Hr Hold. pose proof Hok as (HW & Hfu & Hl & Hp & Hord & Hwin).
  pose proof (window_ok_Len kr Hok) as HL. split.
  - intros Hsc. rewrite Check_near by (try assumption; lia). now apply check_below.
  - intros Hge. unfold ForceCheck.
    destruct (out_of_scope_total rid kr ltac:(lia)) as [far Eg].
    rewrite (bind_done _ _ _ _ _ Eg), (bind_done getS _ kr kr kr eq_refl).
    assert (Ef : (if far
                  then Forward (u64 (rid - to_round (BitBuffer.words (bitStream kr) * 64)))
                  else ret tt) kr = Done (tt, kr)).
    { destruct far; [|reflexivity]. fold (Len kr). unfold to_round.
      rewrite (u64_id (Len kr)) by (unfold_ints; lia).
      rewrite u64_id by (unfold in_u64 in *; lia).
      rewrite Forward_eq.
      destruct (Z.ltb_spec (lastChecked kr) (rid - Len kr)); [lia|].
      destruct (Z.leb_spec (firstUnchecked kr) (rid - Len kr)); [lia | reflexivity]. }
    rewrite (bind_done _ _ _ _ _ Ef). now apply check_below.
Qed.

Lemma old_round_is_left_alone_witness :
  let kr := mkKR test_buffer 1000 1100 40 in
  (lastChecked kr - 900 < Len kr -> Check 900 kr = Done (tt, kr))
  /\ (Len kr <= 400 -> ForceCheck 400 kr = Done (tt, kr)).
Proof.
  split.
  - apply (old_round_is_left_alone (mkKR test_buffer 1000 1100 40) 900); by_compute.
  - apply (old_round_is_left_alone (mkKR test_buffer 1000 1100 40) 400); by_compute.
Defined.

(* ===================================================================== *)
(** ** [ForceCheck] as [Checked] sees it *)
(* ===================================================================== *)

(** X8: on a state of the data model, [ForceCheck(rid)] of a round below
    [2^63] always returns, and [Checked(rid)] is true afterwards. *)
Theorem ForceCheck_marks_round (kr : KnownRounds) (rid : Z) :
  window_ok kr -> 0 <= rid < two63 ->
  exists kr1,
    ForceCheck rid kr = Done (tt, kr1) /\ Checked rid kr1 = Done (true, kr1).
Proof.
  intros Hok Hr.
  destruct (ForceCheck_effect kr rid Hok Hr) as (kr1 & E & Hok1 & _ & Hs).
  exists kr1. split; [exact E|]. rewrite Checked_status by assumption. now rewrite Hs.
Qed.

Lemma ForceCheck_marks_round_witness :
  exists kr1,
    ForceCheck 1000 test_state = Done (tt, kr1) /\ Checked 1000 kr1 = Done (true, kr1).
Proof.
  apply (ForceCheck_marks_round test_state 1000).
  - unfold window_ok. by_compute.
  - by_compute.
Defined.

(** X9: whenever [Check(rid)] returns, [ForceCheck(rid)] returns the
    same state. *)
Theorem ForceCheck_agrees_with_Check (kr kr' : KnownRounds) (rid : Z) :
  Check rid kr = Done (tt, kr') -> ForceCheck rid kr = Done (tt, kr').
Proof.
  unfold Check, ForceCheck, bind.
  destruct (out_of_scope rid kr) as [[far k]| |] eqn:Eg; try discriminate.
  apply out_of_scope_state in Eg. subst k.
  destruct far; [discriminate|]. unfold getS, ret. auto.
Qed.

Lemma ForceCheck_agrees_with_Check_witness :
  ForceCheck 95 test_state
  = Done (tt, mkKR [4294967296; MaxUint64; 0; MaxUint64; 0] 75 200 11).
Proof. apply (ForceCheck_agrees_with_Check test_state _ 95). reflexivity. Defined.

(** X10: on a state of the data model, [ForceCheck(rid)] of a round
    below [2^63] that is a capacity or more after [lastChecked] slides
    the window past it: both cursors end at [rid + 1], and [Checked] is
    true for every round up to [rid] and false for every later one. *)
Theorem ForceCheck_far_ahead_forgets (kr : KnownRounds) (rid : Z) :
  window_ok kr -> 0 <= rid < two63 ->
  Len kr <= rid - lastChecked kr ->
  exists kr1,
    ForceCheck rid kr = Done (tt, kr1)
    /\ firstUnchecked kr1 = rid + 1 /\ lastChecked kr1 = rid + 1
    /\ forall r, Checked r kr1 = Done (r <=? rid, kr1).
Proof.
  intros Hok Hr Hfar. pose proof Hok as (HW & Hfu & Hl & Hp & Hord & Hwin).
  pose proof (window_ok_Len kr Hok) as HL.
  assert (Hr' : in_u64 rid) by (unfold_ints; lia).
  assert (Hmax : rid < MaxUint64) by (unfold_ints; lia).
  unfold ForceCheck.
  rewrite (bind_done _ _ _ _ _ (out_of_scope_window kr rid Hok Hr ltac:(lia))).
  rewrite (bind_done getS _ kr kr kr eq_refl).
  destruct (Z.leb_spec (Len kr) (Z.abs (lastChecked kr - rid))); [|lia].
  assert (Ht : u64 (rid - to_round (BitBuffer.words (bitStream kr) * 64)) = rid - Len kr).
  { fold (Len kr). unfold to_round. rewrite (u64_id (Len kr)) by (unfold_ints; lia).
    apply u64_id. unfold_ints. lia. }
  rewrite Ht.
  destruct (Forward_effect kr (rid - Len kr) Hok ltac:(unfold_ints; lia))
    as (kr1 & E1 & Hok1 & Hb1 & Hf1 & Hl1 & _ & Hin1 & Hout1 & Hge1).
  rewrite (bind_done _ _ _ _ _ E1).
  assert (HL1 : Len kr1 = Len kr) by (unfold Len; now rewrite Hb1).
  assert (Hlc1 : lastChecked kr1 = rid - Len kr).
  { destruct (Z.eq_dec (lastChecked kr) (rid - Len kr)) as [Heq|Hne].
    - destruct (Hin1 ltac:(lia)) as [-> _]. exact Heq.
    - rewrite (Hout1 ltac:(lia)). reflexivity. }
  assert (Hfu1 : firstUnchecked kr1 = rid - Len kr).
  { destruct Hok1 as (_ & _ & _ & _ & Hord1 & _). lia. }
  destruct (check_effect kr1 rid Hok1 Hr' Hmax ltac:(lia))
    as (kr2 & E2 & Hok2 & _ & _ & _ & _ & _ & _ & Hex).
  destruct (Hex ltac:(lia)) as (Hf2 & Hl2 & Hnext).
  exists kr2. split; [exact E2|]. split; [exact Hf2|]. split; [exact Hl2|].
  intros r. rewrite Checked_status by assumption. do 2 f_equal.
  destruct (Z.leb_spec r rid) as [Hle|Hgt].
  - apply status_below. lia.
  - destruct (Z.eq_dec r (rid + 1)) as [->|]; [exact Hnext|].
    apply status_above; lia.
Qed.

Lemma ForceCheck_far_ahead_forgets_witness :
  exists kr1,
    ForceCheck 1000 test_state = Done (tt, kr1)
    /\ firstUnchecked kr1 = 1000 + 1 /\ lastChecked kr1 = 1000 + 1
    /\ forall r, Checked r kr1 = Done (r <=? 1000, kr1).
Proof.
  apply (ForceCheck_far_ahead_forgets test_state 1000).
  - unfold window_ok. by_compute.
  - by_compute.
  - by_compute.
Defined.

(* ===================================================================== *)
(** ** [Forward] and [migrateFirstUnchecked] as [Checked] sees them *)
(* ===================================================================== *)

(** X11: on a state of the data model, [Forward(rid)] returns, leaves
    the buffer as it was, ends with [firstUnchecked >= rid], and
    [Checked] is true afterwards for every round before [rid]. *)
Theorem Forward_marks_checked (kr : KnownRounds) (rid : Z) :
  window_ok kr -> in_u64 rid ->
  exists kr1,
    Forward rid kr = Done (tt, kr1)
    /\ bitStream kr1 = bitStream kr
    /\ rid <= firstUnchecked kr1
    /\ forall r, r < rid -> Checked r kr1 = Done (true, kr1).
Proof.
  intros Hok Hr.
  destruct (Forward_effect kr rid Hok Hr)
    as (kr1 & E & Hok1 & Hb & _ & _ & Hs & _ & _ & Hge).
  exists kr1. split; [exact E|]. split; [exact Hb|]. split; [exact Hge|].
  intros r Hlt. rewrite Checked_status by assumption. now rewrite Hs.
Qed.

Lemma Forward_marks_checked_witness :
  exists kr1,
    Forward 150 test_state = Done (tt, kr1)
    /\ bitStream kr1 = bitStream test_state
    /\ 150 <= firstUnchecked kr1
    /\ forall r, r < 150 -> Checked r kr1 = Done (true, kr1).
Proof.
  apply (Forward_marks_checked test_state 150).
  - unfold window_ok. by_compute.
  - by_compute.
Defined.

(** X12: on a state of the data model, [Forward(rid)] to a round not
    after [lastChecked] keeps [lastChecked] and the answer of [Checked]
    for every round from [rid] on. *)
Theorem Forward_keeps_later_rounds (kr : KnownRounds) (rid : Z) :
  window_ok kr -> in_u64 rid -> rid <= lastChecked kr ->
  exists kr1,
    Forward rid kr = Done (tt, kr1)
    /\ lastChecked kr1 = lastChecked kr
    /\ forall r, rid <= r ->
         exists b, Checked r kr = Done (b, kr) /\ Checked r kr1 = Done (b, kr1).
Proof.
  intros Hok Hr Hle.
  destruct (Forward_effect kr rid Hok Hr)
    as (kr1 & E & Hok1 & _ & _ & _ & _ & Hin & _).
  destruct (Hin Hle) as [Hl1 Hs].
  exists kr1. split; [exact E|]. split; [exact Hl1|].
  intros r Hge. exists (status kr r).
  rewrite !Checked_status by assumption. now rewrite (Hs r Hge).
Qed.

Lemma Forward_keeps_later_rounds_witness :
  exists kr1,
    Forward 150 test_state = Done (tt, kr1)
    /\ lastChecked kr1 = lastChecked test_state
    /\ forall r, 150 <= r ->
         exists b, Checked r test_state = Done (b, test_state)
                   /\ Checked r kr1 = Done (b, kr1).
Proof.
  apply (Forward_keeps_later_rounds test_state 150).
  - unfold window_ok. by_compute.
  - by_compute.
  - by_compute.
Defined.

(** X13: [Forward(rid)] to a round after [lastChecked] sets both cursors
    to [rid] and [fuPos] to [rid mod 64] without touching the buffer, so
    [Checked(rid)] afterwards answers the bit that the buffer already
    held at position [rid mod 64] (true if an earlier round had set it);
    every earlier round reads as checked and every later one as
    unchecked. *)
Theorem Forward_past_window_keeps_bit (kr : KnownRounds) (rid : Z) :
  1 <= BitBuffer.words (bitStream kr) < 2 ^ 55 ->
  in_u64 rid -> lastChecked kr < rid ->
  let kr1 := mkKR (bitStream kr) rid rid (rid mod 64) in
  Forward rid kr = Done (tt, kr1)
  /\ Checked rid kr1 = Done (BitBuffer.get (bitStream kr) (rid mod 64), kr1)
  /\ forall r, r <> rid -> Checked r kr1 = Done (r <? rid, kr1).
Proof.
  intros HW Hr Hgt kr1.
  pose proof (Z.mod_pos_bound rid 64 ltac:(lia)) as Hm.
  assert (Hok1 : window_ok kr1).
  { unfold window_ok, Len. simpl. unfold in_u64 in *. repeat split; lia. }
  split; [|split].
  - rewrite Forward_eq.
    destruct (Z.ltb_spec (lastChecked kr) rid); [|lia].
    rewrite to_int_small by (unfold_ints; lia). reflexivity.
  - rewrite Checked_status by assumption. do 2 f_equal.
    unfold status. simpl. rewrite Z.ltb_irrefl.
    unfold window_pos. simpl. rewrite Z.sub_diag, Z.add_0_r.
    f_equal. apply Z.mod_small. unfold Len. simpl. lia.
  - intros r Hne. rewrite Checked_status by assumption. do 2 f_equal.
    destruct (Z.ltb_spec r rid).
    + apply status_below. simpl. lia.
    + apply status_above; simpl; lia.
Qed.

Lemma Forward_past_window_keeps_bit_witness :
  let kr1 := mkKR [288230376151711744] 69 69 5 in
  obind (NewKnownRound 64) (Check 5) = Done (tt, checked_5_state)
  /\ Checked 69 checked_5_state = Done (false, checked_5_state)
  /\ Forward 69 checked_5_state = Done (tt, kr1)
  /\ Checked 69 kr1 = Done (true, kr1).
Proof.
  split; [reflexivity|]. split; [reflexivity|].
  destruct (Forward_past_window_keeps_bit checked_5_state 69) as (E1 & E2 & _).
  - by_compute.
  - by_compute.
  - reflexivity.
  - split; [exact E1 | exact E2].
Defined.

(** X14: on a state of the data model, [migrateFirstUnchecked(rid)] for
    a round of the window moves [firstUnchecked] (and [fuPos] with it)
    to the first round from [rid] on that is not checked, or to
    [lastChecked] when every round before it is checked; nothing else
    changes. *)
Theorem migrateFirstUnchecked_next_unchecked (kr : KnownRounds) (rid : Z) :
  window_ok kr -> firstUnchecked kr <= rid <= lastChecked kr ->
  exists r p,
    migrateFirstUnchecked rid kr
    = Done (tt, mkKR (bitStream kr) r (lastChecked kr) p)
    /\ getBitStreamPos kr r = Done p
    /\ rid <= r <= lastChecked kr
    /\ (forall j, rid <= j < r -> Checked j kr = Done (true, kr))
    /\ (r < lastChecked kr -> Checked r kr = Done (false, kr)).
Proof.
  intros Hok [Hin Hle]. pose proof Hok as (HW & Hfu & Hl & Hp & Hord & Hwin).
  destruct (migrate_spec kr rid Hok Hin Hle) as (r & E & Hr & Hset & Hstop).
  exists r, (window_pos kr r). split; [exact E|].
  split; [apply getBitStreamPos_pos; [assumption | lia | lia]|].
  split; [exact Hr|]. split.
  - intros j Hj. rewrite Checked_status by assumption. do 2 f_equal.
    unfold status. destruct (Z.ltb_spec j (firstUnchecked kr)); [reflexivity|].
    destruct (Z.ltb_spec (lastChecked kr) j); [lia|]. now apply Hset.
  - intros Hlt. rewrite Checked_status by assumption. do 2 f_equal.
    unfold status. destruct (Z.ltb_spec r (firstUnchecked kr)); [lia|].
    destruct (Z.ltb_spec (lastChecked kr) r); [lia|]. now apply Hstop.
Qed.

Lemma migrateFirstUnchecked_next_unchecked_witness :
  exists r p,
    migrateFirstUnchecked 130 test_state
    = Done (tt, mkKR (bitStream test_state) r (lastChecked test_state) p)
    /\ getBitStreamPos test_state r = Done p
    /\ 130 <= r <= lastChecked test_state
    /\ (forall j, 130 <= j < r -> Checked j test_state = Done (true, test_state))
    /\ (r < lastChecked test_state -> Checked r test_state = Done (false, test_state)).
Proof.
  apply (migrateFirstUnchecked_next_unchecked test_state 130).
  - unfold window_ok. by_compute.
  - by_compute.
Defined.

(* ===================================================================== *)
(** ** The data model is kept *)
(* ===================================================================== *)

(** A new buffer for at least one round is a state of the data model. *)
Lemma NewKnownRound_window_ok c kr :
  1 <= c <= 2 ^ 60 -> NewKnownRound c = Done kr -> window_ok kr.
Proof.
  intros Hc. unfold NewKnownRound.
  rewrite (i64_id (c + 63)) by (unfold_ints; lia).
  assert (Hq : 1 <= Z.quot (c + 63) 64 < 2 ^ 55).
  { rewrite Z.quot_div_nonneg by lia. split.
    - apply Z.div_le_lower_bound; lia.
    - apply Z.div_lt_upper_bound; lia. }
  rewrite i64_id by (unfold_ints; lia).
  destruct (Z.ltb_spec (Z.quot (c + 63) 64) 0) as [|_]; [lia|].
  intros E. inversion E; subst. unfold window_ok, Len, BitBuffer.words. simpl.
  rewrite length_replicate, Z2Nat.id by lia. unfold in_u64. rewrite two64_eq.
  repeat split; lia.
Qed.

(** [Check] of a round below [2^63] keeps the data model. *)
Lemma Check_window_ok kr rid kr' :
  window_ok kr -> 0 <= rid < two63 ->
  Check rid kr = Done (tt, kr') ->
  window_ok kr' /\ Len kr' = Len kr.
Proof.
  intros Hok Hr E. pose proof Hok as (HW & Hfu & Hl & Hp & Hord & Hwin).
  unfold Check in E.
  destruct (out_of_scope_total rid kr ltac:(lia)) as [far Eg].
  rewrite (bind_done _ _ _ _ _ Eg) in E. destruct far; [discriminate|].
  destruct (Z.lt_ge_cases rid (firstUnchecked kr)) as [Hbelow|Hin].
  - rewrite check_below in E by assumption. inversion E; subst. auto.
  - rewrite (out_of_scope_window kr rid Hok Hr Hin) in Eg. injection Eg as Eg.
    apply Z.leb_gt in Eg.
    destruct (check_effect kr rid Hok ltac:(unfold_ints; lia) ltac:(unfold_ints; lia)
                ltac:(lia)) as (kr1 & E1 & Hok1 & Hw1 & _).
    rewrite E1 in E. inversion E; subst. split; [assumption|].
    unfold Len. now rewrite Hw1.
Qed.

Lemma run_call_window_ok c kr kr' :
  window_ok kr -> below_half c ->
  run_call c kr = Done (tt, kr') ->
  window_ok kr' /\ Len kr' = Len kr.
Proof.
  intros Hok Hc E. destruct c as [rid|rid|rid|fuel o m f]; simpl in *.
  - now apply (Check_window_ok kr rid kr').
  - destruct (ForceCheck_effect kr rid Hok Hc) as (k & E1 & Hok1 & Hw1 & _).
    rewrite E1 in E. inversion E; subst. split; [assumption|].
    unfold Len. now rewrite Hw1.
  - destruct (Forward_effect kr rid Hok Hc) as (k & E1 & Hok1 & Hb1 & _).
    rewrite E1 in E. inversion E; subst. split; [assumption|].
    unfold Len. now rewrite Hb1.
  - unfold bind in E.
    destruct (RangeUnchecked fuel o m f kr) as [[x k]| |] eqn:E1; try discriminate.
    apply RangeUnchecked_state in E1. subst k. inversion E; subst. auto.
Qed.

(** X15: after a new buffer of 1 to [2^60] rounds, every sequence of
    calls of [Check], [ForceCheck], [Forward] and [RangeUnchecked] that
    returns, with the rounds given to [Check] and [ForceCheck] below
    [2^63], ends in a state of the data model ([fuPos] a position of the
    buffer, [firstUnchecked <= lastChecked], the cursors less than the
    capacity apart) with the capacity it started with. *)
Theorem data_model_kept (capacity : Z) (cs : list call) (kr0 kr' : KnownRounds) :
  1 <= capacity <= 2 ^ 60 ->
  Forall below_half cs ->
  NewKnownRound capacity = Done kr0 ->
  run_calls cs kr0 = Done (tt, kr') ->
  window_ok kr' /\ Len kr' = Len kr0.
Proof.
  intros Hc Hcs Enew Erun.
  pose proof (NewKnownRound_window_ok capacity kr0 Hc Enew) as Hok. clear Enew.
  generalize dependent kr0.
  induction Hcs as [|c cs Hc1 _ IH]; intros kr0 Erun Hok.
  - inversion Erun; subst. auto.
  - simpl in Erun. unfold bind in Erun.
    destruct (run_call c kr0) as [[[] k]| |] eqn:E; try discriminate.
    destruct (run_call_window_ok c kr0 k Hok Hc1 E) as [Hk HLk].
    destruct (IH k Erun Hk) as [H1 H2]. split; [exact H1 | congruence].
Qed.

Lemma data_model_kept_witness :
  let kr' := mkKR [2155872256; 0] 1001 1120 41 in
  run_calls [CallCheck 10; CallForward 7; CallForceCheck 1000; CallCheck 1120]
            (mkKR [0; 0] 0 0 0) = Done (tt, kr')
  /\ window_ok kr' /\ Len kr' = 128.
Proof.
  split; [reflexivity|].
  apply (data_model_kept 100
           [CallCheck 10; CallForward 7; CallForceCheck 1000; CallCheck 1120]
           (mkKR [0; 0] 0 0 0)).
  - lia.
  - repeat constructor; by_compute.
  - reflexivity.
  - reflexivity.
Defined.

(* ===================================================================== *)
(** ** Without a buffer, and other edges *)
(* ===================================================================== *)

(** X16: [abs] returns the absolute value of every [int] but the most
    negative one, on which the negation wraps and [abs] returns that
    negative number itself. *)
Theorem abs_spec (n : Z) :
  in_i64 n ->
  (n <> - two63 -> abs n = Z.abs n) /\ (n = - two63 -> abs n = - two63).
Proof.
  intros Hn. split.
  - intros Hne. destruct (Z.lt_ge_cases n 0).
    + rewrite abs_neg by (unfold in_i64 in Hn; lia). lia.
    + rewrite abs_nonneg by lia. lia.
  - intros ->. apply abs_min.
Qed.

Lemma abs_spec_witness :
  (-5 <> - two63 -> abs (-5) = Z.abs (-5))
  /\ (-5 = - two63 -> abs (-5) = - two63).
Proof. apply (abs_spec (-5)). by_compute. Defined.

(** X17: [NewKnownRound] on a capacity that is not positive: from -126
    to 0 the division truncates to no words and a state without a buffer
    is returned; at -127 and below the length is negative and [make]
    panics. *)
Theorem NewKnownRound_small_capacity (c : Z) :
  in_i64 c -> c <= 0 ->
  NewKnownRound c
  = if c <=? -127 then Panic MakeSliceLen else Done (mkKR [] 0 0 0).
Proof.
  intros Hc H0. unfold NewKnownRound.
  destruct (Z.leb_spec c (-127)) as [Hneg|Hsmall].
  - destruct (Z.eq_dec c (- two63)) as [->|Hne]; [reflexivity|].
    rewrite (i64_id (c + 63)) by (unfold_ints; lia).
    assert (Hq : c + 63 <= Z.quot (c + 63) 64 <= -1).
    { rewrite <- (Z.opp_involutive (c + 63)), Z.quot_opp_l by lia.
      rewrite Z.quot_div_nonneg by lia.
      pose proof (Z.div_le_lower_bound (- (c + 63)) 64 1 ltac:(lia) ltac:(lia)).
      pose proof (Z.div_le_upper_bound (- (c + 63)) 64 (- (c + 63)) ltac:(lia) ltac:(lia)).
      lia. }
    rewrite i64_id by (unfold_ints; lia).
    destruct (Z.ltb_spec (Z.quot (c + 63) 64) 0); [reflexivity | lia].
  - rewrite (i64_id (c + 63)) by (unfold_ints; lia).
    assert (Hq : Z.quot (c + 63) 64 = 0) by (apply Z.quot_small_iff; lia).
    rewrite Hq. reflexivity.
Qed.

Lemma NewKnownRound_small_capacity_witness :
  NewKnownRound (-100) = Done (mkKR [] 0 0 0).
Proof. apply (NewKnownRound_small_capacity (-100)); by_compute. Defined.

(** X18: on a state without a buffer (as [NewKnownRound(0)] returns)
    [Check], [ForceCheck] and [Marshal] panic with a division by zero,
    and so do [Checked] and [Forward] on a round from [firstUnchecked]
    to [lastChecked]. *)
Theorem empty_buffer_divides_by_zero (kr : KnownRounds) (rid : Z) :
  BitBuffer.words (bitStream kr) = 0 ->
  Check rid kr = Panic DivideByZero
  /\ ForceCheck rid kr = Panic DivideByZero
  /\ Marshal kr = Panic DivideByZero
  /\ (firstUnchecked kr <= rid <= lastChecked kr ->
      Checked rid kr = Panic DivideByZero
      /\ Forward rid kr = Panic DivideByZero).
Proof.
  intros HW.
  assert (Hg : out_of_scope rid kr = Panic DivideByZero).
  { unfold out_of_scope, bind, getS, lift, go_div. now rewrite HW. }
  assert (Hp : forall r, bitPos r kr = Panic DivideByZero).
  { intros r. unfold bitPos, lift. now rewrite getBitStreamPos_empty. }
  split; [|split; [|split]].
  - unfold Check, bind. now rewrite Hg.
  - unfold ForceCheck, bind. now rewrite Hg.
  - unfold Marshal. rewrite (bind_done getS _ kr kr kr eq_refl).
    unfold bind. now rewrite Hp.
  - intros Hr. split.
    + unfold Checked. rewrite (bind_done getS _ kr kr kr eq_refl).
      destruct (Z.ltb_spec rid (firstUnchecked kr)); [lia|].
      destruct (Z.ltb_spec (lastChecked kr) rid); [lia|].
      unfold bind. now rewrite Hp.
    + rewrite Forward_eq.
      destruct (Z.ltb_spec (lastChecked kr) rid); [lia|].
      destruct (Z.leb_spec (firstUnchecked kr) rid); [|lia].
      unfold migrateFirstUnchecked. rewrite (bind_done getS _ kr kr kr eq_refl).
      unfold bind, lift.
      destruct (Z.to_nat (lastChecked kr - rid)); simpl;
        now rewrite getBitStreamPos_empty.
Qed.

Lemma empty_buffer_divides_by_zero_witness :
  let kr := mkKR [] 0 0 0 in
  NewKnownRound 0 = Done kr
  /\ Check 0 kr = Panic DivideByZero
  /\ ForceCheck 0 kr = Panic DivideByZero
  /\ Marshal kr = Panic DivideByZero
  /\ (firstUnchecked kr <= 0 <= lastChecked kr ->
      Checked 0 kr = Panic DivideByZero /\ Forward 0 kr = Panic DivideByZero).
Proof.
  split; [reflexivity|].
  apply (empty_buffer_divides_by_zero (mkKR [] 0 0 0) 0). reflexivity.
Defined.

Lemma get_zeros n p : BitBuffer.get (replicate n 0) p = false.
Proof.
  unfold BitBuffer.get. destruct (BitBuffer.convertLoc (replicate n 0) p) as [b i].
  assert (E : BitBuffer.word_at (replicate n 0) b = 0).
  { unfold BitBuffer.word_at.
    destruct (nth_in_or_default (Z.to_nat b) (replicate n 0) 0) as [Hin|E]; [|exact E].
    apply list_elem_of_In, elem_of_replicate in Hin. tauto. }
  rewrite E, Z.shiftr_0_l. reflexivity.
Qed.

(** X19: in a new buffer of at least one round no round is checked:
    [Checked] is false for every round id. *)
Theorem NewKnownRound_none_checked (c : Z) (kr : KnownRounds) :
  1 <= c <= 2 ^ 60 -> NewKnownRound c = Done kr ->
  forall rid, 0 <= rid -> Checked rid kr = Done (false, kr).
Proof.
  intros Hc E rid Hr.
  pose proof (NewKnownRound_window_ok c kr Hc E) as Hok.
  rewrite Checked_status by assumption. do 2 f_equal.
  unfold NewKnownRound in E.
  destruct (_ <? 0); [discriminate|]. injection E as <-.
  unfold status. simpl.
  destruct (Z.ltb_spec rid 0); [lia|].
  destruct (0 <? rid); [reflexivity|]. apply get_zeros.
Qed.

Lemma NewKnownRound_none_checked_witness :
  NewKnownRound 100 = Done (mkKR [0; 0] 0 0 0)
  /\ Checked 0 (mkKR [0; 0] 0 0 0) = Done (false, mkKR [0; 0] 0 0 0)
  /\ Checked 64 (mkKR [0; 0] 0 0 0) = Done (false, mkKR [0; 0] 0 0 0).
Proof.
  split; [reflexivity|].
  split; apply (NewKnownRound_none_checked 100); by_compute.
Defined.

(** X20: the position of a round before [firstUnchecked], at least
    [fuPos] rounds before it, is not reduced into the buffer:
    [getBitStreamPos] returns the negative of
    [(firstUnchecked - rid - fuPos) mod Len], as Go's [%] keeps the sign
    of the dividend. *)
Theorem getBitStreamPos_before_window (kr : KnownRounds) (rid : Z) :
  window_ok kr -> 0 <= rid < firstUnchecked kr ->
  firstUnchecked kr - rid < two63 ->
  fuPos kr <= firstUnchecked kr - rid ->
  getBitStreamPos kr rid
  = Done (- ((firstUnchecked kr - rid - fuPos kr) mod Len kr)).
Proof.
  intros Hok Hr Hd Hneg. pose proof Hok as (HW & Hfu & Hl & Hp & Hord & Hwin).
  pose proof (window_ok_Len kr Hok) as HL.
  unfold getBitStreamPos, go_rem.
  destruct (Z.eqb_spec (Len kr) 0); [lia|].
  destruct (Z.ltb_spec rid (firstUnchecked kr)); [|lia].
  rewrite u64_id by (unfold_ints; lia).
  rewrite (to_int_small (firstUnchecked kr - rid)) by lia.
  rewrite (i64_id (- (firstUnchecked kr - rid))) by (unfold_ints; lia).
  rewrite i64_id by (unfold_ints; lia).
  f_equal.
  replace (fuPos kr + - (firstUnchecked kr - rid))
    with (- (firstUnchecked kr - rid - fuPos kr)) by lia.
  rewrite Z.rem_opp_l by lia. f_equal. apply Z.rem_mod_nonneg; lia.
Qed.

Lemma getBitStreamPos_before_window_witness :
  getBitStreamPos (mkKR test_buffer 75 85 11) 60 = Done (-4).
Proof.
  apply (getBitStreamPos_before_window (mkKR test_buffer 75 85 11) 60).
  - unfold window_ok. by_compute.
  - by_compute.
  - by_compute.
  - by_compute.
Defined.

(* ===================================================================== *)
(** ** [RangeUnchecked]: the whole scan *)
(* ===================================================================== *)

(** The rounds on which the loop before the buffer invokes [roundCheck]:
    all of them, in order, as far as the budget goes. *)
Lemma before_loop_calls fuel : forall fu m f i s,
  0 <= i -> fu < two64 -> 0 <= numChecked s -> m < two64 ->
  (Z.to_nat (fu - i) <= fuel)%nat ->
  exists fl,
    before_loop fuel fu m f i s = Done fl
    /\ calls_of fl
       = calls s ++ firstn (Z.to_nat (m - numChecked s)) (seqZ i (fu - i))
    /\ (forall s', fl = Continue s' ->
         numChecked s' = numChecked s + Z.max 0 (fu - i)
         /\ (i < fu -> numChecked s' <= m))
    /\ (forall r cs, fl = Return r cs -> m - numChecked s < fu - i).
Proof.
  induction fuel as [|fuel IH]; intros fu m f i s Hi Hfu Hn Hm Hf.
  - assert (fu <= i) by lia. exists (Continue s). simpl.
    destruct (Z.ltb_spec i fu); [lia|]. split; [reflexivity|].
    split; [|split; [|discriminate]].
    + unfold seqZ. replace (Z.to_nat (fu - i)) with 0%nat by lia. simpl.
      now rewrite firstn_nil, app_nil_r.
    + intros s' [= <-]. split; lia.
  - simpl. destruct (Z.ltb_spec i fu) as [Hin|Hout].
    + unfold exhausted.
      destruct (Z.leb_spec m (numChecked s)) as [Hspent|Hbudget].
      * eexists. split; [reflexivity|]. split; [|split; [discriminate|]].
        -- simpl. replace (Z.to_nat (m - numChecked s)) with 0%nat by lia.
           simpl. now rewrite app_nil_r.
        -- intros; lia.
      * rewrite u64_id by (unfold_ints; lia).
        destruct (IH fu m f (i + 1) (ask f i s) ltac:(lia) Hfu) as (fl & E & Hc & Hk & Hret).
        { simpl. apply u64_range. }
        { exact Hm. }
        { lia. }
        exists fl. split; [exact E|].
        assert (Hask : numChecked (ask f i s) = numChecked s + 1)
          by (simpl; apply u64_id; unfold_ints; lia).
        split; [|split].
        -- rewrite Hc, Hask. simpl.
           rewrite (seqZ_cons i (fu - i)) by lia.
           replace (Z.to_nat (m - numChecked s))
             with (S (Z.to_nat (m - (numChecked s + 1)))) by lia.
           simpl. rewrite <- app_assoc. simpl.
           replace (Z.succ i) with (i + 1) by lia.
           replace (Z.pred (fu - i)) with (fu - (i + 1)) by lia. reflexivity.
        -- intros s' Es. destruct (Hk s' Es) as [H1 H2]. rewrite Hask in H1.
           split; [lia|]. intros _.
           destruct (Z.lt_ge_cases (i + 1) fu); [now apply H2 | lia].
        -- intros r cs Es. specialize (Hret r cs Es). rewrite Hask in Hret. lia.
    + exists (Continue s). split; [reflexivity|]. split; [|split; [|discriminate]].
      * simpl. unfold seqZ. replace (Z.to_nat (fu - i)) with 0%nat by lia.
        simpl. now rewrite firstn_nil, app_nil_r.
      * intros s' [= <-]. split; lia.
Qed.

(** X21: for [oldestUnknown <= lastChecked], [RangeUnchecked] returns,
    leaves the state as it was, and invokes [roundCheck] on the first
    [maxChecked] rounds of this list: every round from [oldestUnknown]
    up to [firstUnchecked - 1], without consulting the buffer, and then
    the rounds from [max(oldestUnknown, firstUnchecked)] to
    [lastChecked] for which [Checked] is true. *)
Theorem RangeUnchecked_calls (kr : KnownRounds) (fuel : nat)
    (oldestUnknown maxChecked : Z) (roundCheck : Z -> bool) :
  1 <= BitBuffer.words (bitStream kr) ->
  0 <= oldestUnknown <= lastChecked kr -> lastChecked kr < MaxUint64 ->
  0 <= firstUnchecked kr < two64 ->
  0 <= maxChecked < two64 ->
  let newest := Z.max oldestUnknown (firstUnchecked kr) in
  (Z.to_nat (lastChecked kr - newest + 1) <= fuel)%nat ->
  exists r,
    RangeUnchecked fuel oldestUnknown maxChecked roundCheck kr
    = Done ((r, firstn (Z.to_nat maxChecked)
                  (seqZ oldestUnknown (firstUnchecked kr - oldestUnknown)
                   ++ filter (fun i => checked_bit kr i = true)
                             (seqZ newest (lastChecked kr - newest + 1)))), kr).
Proof.
  intros HW Ho Hl Hfu Hm newest Hf.
  set (s0 := mkScan 0 MaxUint64 []).
  set (before := seqZ oldestUnknown (firstUnchecked kr - oldestUnknown)).
  set (inside := filter (fun i => checked_bit kr i = true)
                        (seqZ newest (lastChecked kr - newest + 1))).
  unfold RangeUnchecked. rewrite (bind_done getS _ kr kr kr eq_refl).
  destruct (Z.ltb_spec (lastChecked kr) oldestUnknown); [lia|].
  assert (Hnew : (if firstUnchecked kr <? oldestUnknown
                  then oldestUnknown else firstUnchecked kr) = newest).
  { unfold newest. destruct (Z.ltb_spec (firstUnchecked kr) oldestUnknown); lia. }
  rewrite Hnew.
  destruct (Z.leb_spec (firstUnchecked kr) newest); [|unfold newest in *; lia].
  (* the scan over the buffer, from a state of the scan before it *)
  assert (Hwin : forall s1,
            0 <= numChecked s1 ->
            exists fl,
              window_loop fuel maxChecked roundCheck newest s1 kr = Done (fl, kr)
              /\ calls_of fl
                 = calls s1 ++ firstn (Z.to_nat (maxChecked - numChecked s1)) inside).
  { intros s1 Hn1. apply window_loop_calls; try assumption; unfold newest; lia. }
  assert (Hend : forall s1,
            0 <= numChecked s1 ->
            exists r,
              bind (window_loop fuel maxChecked roundCheck newest s1)
                   (fun f2 =>
                      match f2 with
                      | Return r cs => ret (r, cs)
                      | Continue s2 =>
                          ret (u64 ((if u64 (lastChecked kr + 1) <? earliestChecked s2
                                     then lastChecked kr else earliestChecked s2) + 1),
                               calls s2)
                      end) kr
              = Done ((r, calls s1 ++ firstn (Z.to_nat (maxChecked - numChecked s1)) inside), kr)).
  { intros s1 Hn1. destruct (Hwin s1 Hn1) as (fl & E & Hc).
    rewrite (bind_done _ _ _ _ _ E). rewrite <- Hc.
    destruct fl; eexists; reflexivity. }
  destruct (Z.ltb_spec oldestUnknown (firstUnchecked kr)) as [Hbefore|Hnone].
  - destruct (before_loop_calls (Z.to_nat (firstUnchecked kr - oldestUnknown))
                (firstUnchecked kr) maxChecked roundCheck oldestUnknown s0)
      as (fl & E & Hc & Hk & Hret); try lia; try (simpl; lia).
    unfold bind at 1. unfold lift. fold s0. rewrite E.
    change (numChecked s0) with 0 in *. change (calls s0) with (@nil Z) in *.
    rewrite Z.sub_0_r in Hc. simpl in Hc. fold before in Hc.
    assert (Hlen : Z.of_nat (length before) = firstUnchecked kr - oldestUnknown)
      by (unfold before; rewrite length_seqZ; lia).
    destruct fl as [r cs|s1].
    + (* the budget ran out before the buffer was reached *)
      exists r. simpl in Hc. subst cs. unfold ret. do 3 f_equal.
      specialize (Hret r _ eq_refl). rewrite firstn_app.
      replace (Z.to_nat maxChecked - length before)%nat with 0%nat by lia.
      simpl. now rewrite app_nil_r.
    + destruct (Hk s1 eq_refl) as [Hn1 Hb1]. specialize (Hb1 Hbefore).
      destruct (Hend s1 ltac:(lia)) as (r & Er).
      exists r. rewrite Er. do 3 f_equal.
      simpl in Hc. rewrite Hc, Hn1.
      rewrite firstn_app.
      rewrite (firstn_all2 before) by lia.
      do 2 f_equal. clearbody before inside. clear - Hlen Hbefore. lia.
  - fold s0. rewrite (bind_done (ret (Continue s0)) _ kr _ kr eq_refl).
    destruct (Hend s0 ltac:(simpl; lia)) as (r & Er).
    exists r. rewrite Er. do 3 f_equal.
    change (numChecked s0) with 0. change (calls s0) with (@nil Z).
    rewrite Z.sub_0_r. simpl.
    unfold before, seqZ. replace (Z.to_nat (firstUnchecked kr - oldestUnknown)) with 0%nat by lia.
    reflexivity.
Qed.

Lemma first_open_cons kr f i l :
  first_open kr f (i :: l) = if settled kr f i then first_open kr f l else i.
Proof. unfold first_open. simpl. destruct (settled kr f i); reflexivity. Qed.

Lemma first_open_app kr f l1 l2 :
  Forall (fun j => j < MaxUint64) l1 ->
  first_open kr f (l1 ++ l2)
  = if first_open kr f l1 <? MaxUint64 then first_open kr f l1
    else first_open kr f l2.
Proof.
  induction 1 as [|i l1 Hi _ IH].
  - reflexivity.
  - simpl. rewrite !first_open_cons. destruct (settled kr f i); [exact IH|].
    destruct (Z.ltb_spec i MaxUint64); [reflexivity | lia].
Qed.

Lemma first_open_range kr f a n :
  first_open kr f (seqZ a n) = MaxUint64
  \/ a <= first_open kr f (seqZ a n) < a + n.
Proof.
  unfold first_open.
  destruct (List.find _ (seqZ a n)) as [j|] eqn:E; [right | left; reflexivity].
  apply List.find_some in E as [Hin _].
  apply list_elem_of_In, elem_of_seqZ in Hin. exact Hin.
Qed.

(** The earliest round after the loop before the buffer, when the
    budget does not run out. *)
Lemma before_loop_earliest kr fuel : forall m f i s,
  0 <= i -> firstUnchecked kr < two64 ->
  0 <= numChecked s -> numChecked s + (firstUnchecked kr - i) <= m -> m < two64 ->
  earliestChecked s = MaxUint64
  \/ (earliestChecked s < i /\ earliestChecked s < MaxUint64) ->
  (Z.to_nat (firstUnchecked kr - i) <= fuel)%nat ->
  exists s',
    before_loop fuel (firstUnchecked kr) m f i s = Done (Continue s')
    /\ numChecked s' = numChecked s + Z.max 0 (firstUnchecked kr - i)
    /\ earliestChecked s'
       = (if earliestChecked s <? MaxUint64 then earliestChecked s
          else first_open kr f (seqZ i (firstUnchecked kr - i)))
    /\ (earliestChecked s' = MaxUint64
        \/ (earliestChecked s' < Z.max i (firstUnchecked kr)
            /\ earliestChecked s' < MaxUint64)).
Proof.
  induction fuel as [|fuel IH]; intros m f i s Hi Hfu Hn Hb Hm He Hf.
  - assert (firstUnchecked kr <= i) by lia. exists s. simpl.
    destruct (Z.ltb_spec i (firstUnchecked kr)); [lia|]. split; [reflexivity|].
    split; [lia|]. split.
    + unfold seqZ. replace (Z.to_nat (firstUnchecked kr - i)) with 0%nat by lia.
      unfold first_open. simpl.
      destruct (Z.ltb_spec (earliestChecked s) MaxUint64); [reflexivity|].
      destruct He; [assumption | lia].
    + destruct He; [auto | right; lia].
  - simpl. destruct (Z.ltb_spec i (firstUnchecked kr)) as [Hin|Hout].
    + unfold exhausted.
      destruct (Z.leb_spec m (numChecked s)) as [Hspent|Hbudget]; [lia|].
      rewrite u64_id by (unfold_ints; lia).
      assert (Hask : numChecked (ask f i s) = numChecked s + 1)
        by (simpl; apply u64_id; unfold_ints; lia).
      assert (Hci : checked_bit kr i = true).
      { unfold checked_bit, Checked. rewrite (bind_done getS _ kr kr kr eq_refl).
        destruct (Z.ltb_spec i (firstUnchecked kr)); [reflexivity | lia]. }
      destruct (IH m f (i + 1) (ask f i s) ltac:(lia) Hfu)
        as (s' & E & Hn' & He' & Hinv); try lia.
      { simpl. destruct He as [He|He].
        - rewrite He. destruct (negb (f i) && (i <? MaxUint64));
            [right; unfold_ints; lia | left; reflexivity].
        - destruct (Z.ltb_spec i (earliestChecked s)); [lia|].
          rewrite andb_false_r. right. lia. }
      exists s'. split; [exact E|]. split; [lia|]. split.
      * rewrite He'. simpl.
        rewrite (seqZ_cons i (firstUnchecked kr - i)) by lia.
        replace (Z.succ i) with (i + 1) by lia.
        replace (Z.pred (firstUnchecked kr - i)) with (firstUnchecked kr - (i + 1)) by lia.
        rewrite first_open_cons. unfold settled. rewrite Hci. simpl.
        destruct He as [He|He].
        -- rewrite He. rewrite Z.ltb_irrefl.
           destruct (Z.ltb_spec i MaxUint64); [|unfold_ints; lia].
           destruct (f i); simpl.
           ++ reflexivity.
           ++ destruct (Z.ltb_spec i MaxUint64); [reflexivity | lia].
        -- destruct (Z.ltb_spec i (earliestChecked s)); [lia|].
           rewrite andb_false_r.
           destruct (Z.ltb_spec (earliestChecked s) MaxUint64); [reflexivity | lia].
      * destruct Hinv; [auto | right; lia].
    + exists s. split; [reflexivity|]. split; [lia|]. split.
      * unfold seqZ. replace (Z.to_nat (firstUnchecked kr - i)) with 0%nat by lia.
        unfold first_open. simpl.
        destruct (Z.ltb_spec (earliestChecked s) MaxUint64); [reflexivity|].
        destruct He; [assumption | lia].
      * destruct He; [auto | right; lia].
Qed.

(** The earliest round after the loop over the buffer, when the budget
    does not run out. *)
Lemma window_loop_earliest fuel : forall kr m f i s,
  1 <= BitBuffer.words (bitStream kr) ->
  0 <= i -> lastChecked kr < MaxUint64 ->
  0 <= numChecked s -> numChecked s + (lastChecked kr - i + 1) <= m -> m < two64 ->
  earliestChecked s = MaxUint64
  \/ (earliestChecked s < i /\ earliestChecked s < MaxUint64) ->
  (Z.to_nat (lastChecked kr - i + 1) <= fuel)%nat ->
  exists s',
    window_loop fuel m f i s kr = Done (Continue s', kr)
    /\ earliestChecked s'
       = (if earliestChecked s <? MaxUint64 then earliestChecked s
          else first_open kr f (seqZ i (lastChecked kr - i + 1))).
Proof.
  induction fuel as [|fuel IH]; intros kr m f i s HW Hi Hl Hn Hb Hm He Hf.
  - assert (lastChecked kr < i) by lia.
    exists s. simpl. rewrite (bind_done getS _ kr kr kr eq_refl).
    destruct (Z.leb_spec i (lastChecked kr)); [lia|]. split; [reflexivity|].
    unfold seqZ. replace (Z.to_nat (lastChecked kr - i + 1)) with 0%nat by lia.
    unfold first_open. simpl.
    destruct (Z.ltb_spec (earliestChecked s) MaxUint64); [reflexivity|].
    destruct He; [assumption | lia].
  - simpl. rewrite (bind_done getS _ kr kr kr eq_refl).
    destruct (Z.leb_spec i (lastChecked kr)) as [Hin|Hout].
    + destruct (Checked_total kr i HW) as [c Ec].
      rewrite (bind_done _ _ _ _ _ (window_body_eq m f i s kr c ltac:(lia) Ec)).
      rewrite u64_id by (unfold_ints; lia).
      pose proof (checked_bit_eq kr i c Ec) as Hbit.
      assert (Hseq : seqZ i (lastChecked kr - i + 1)
                     = i :: seqZ (i + 1) (lastChecked kr - (i + 1) + 1)).
      { rewrite seqZ_cons by lia. f_equal. f_equal; lia. }
      rewrite Hseq, first_open_cons. unfold settled. rewrite Hbit.
      set (s1 := if c then ask f i s else lower i s).
      assert (Hn1 : numChecked s <= numChecked s1 <= numChecked s + 1).
      { unfold s1. destruct c; simpl; [|lia].
        rewrite u64_id by (unfold_ints; lia). lia. }
      assert (He1 : earliestChecked s1
                    = if earliestChecked s <? MaxUint64 then earliestChecked s
                      else if c && f i then MaxUint64 else i).
      { unfold s1. destruct c; simpl; destruct He as [He|He].
        - rewrite He, Z.ltb_irrefl.
          destruct (f i); simpl; [reflexivity|].
          destruct (Z.ltb_spec i MaxUint64); [reflexivity | lia].
        - destruct (Z.ltb_spec (earliestChecked s) MaxUint64); [|lia].
          destruct (Z.ltb_spec i (earliestChecked s)); [lia|].
          now rewrite andb_false_r.
        - rewrite He, Z.ltb_irrefl.
          destruct (Z.ltb_spec i MaxUint64); [reflexivity | lia].
        - destruct (Z.ltb_spec (earliestChecked s) MaxUint64); [|lia].
          destruct (Z.ltb_spec i (earliestChecked s)); [lia | reflexivity]. }
      destruct (IH kr m f (i + 1) s1 HW ltac:(lia) Hl) as (s' & E & He'); try lia.
      { rewrite He1. destruct (Z.ltb_spec (earliestChecked s) MaxUint64).
        - right. destruct He; lia.
        - destruct (c && f i); [left; reflexivity | right; lia]. }
      exists s'. split; [exact E|]. rewrite He', He1.
      destruct (Z.ltb_spec (earliestChecked s) MaxUint64) as [Hlt|Hge].
      * destruct (Z.ltb_spec (earliestChecked s) MaxUint64); [reflexivity | lia].
      * destruct (c && f i); simpl.
        -- reflexivity.
        -- destruct (Z.ltb_spec i MaxUint64); [reflexivity | lia].
    + exists s. split; [reflexivity|].
      unfold seqZ. replace (Z.to_nat (lastChecked kr - i + 1)) with 0%nat by lia.
      unfold first_open. simpl.
      destruct (Z.ltb_spec (earliestChecked s) MaxUint64); [reflexivity|].
      destruct He; [assumption | lia].
Qed.

(** X22: when the budget covers the whole range
    ([maxChecked >= lastChecked - oldestUnknown + 1]), [RangeUnchecked]
    returns one more than the first round from [oldestUnknown] to
    [lastChecked] that is not settled (for which [Checked] is false or
    [roundCheck] returns false), and [lastChecked + 1] when every round
    of the range is settled. *)
Theorem RangeUnchecked_result (kr : KnownRounds) (fuel : nat)
    (oldestUnknown maxChecked : Z) (roundCheck : Z -> bool) :
  1 <= BitBuffer.words (bitStream kr) ->
  0 <= firstUnchecked kr <= lastChecked kr ->
  0 <= oldestUnknown <= lastChecked kr -> lastChecked kr < MaxUint64 - 1 ->
  lastChecked kr - oldestUnknown + 1 <= maxChecked < two64 ->
  (Z.to_nat (lastChecked kr - Z.max oldestUnknown (firstUnchecked kr) + 1) <= fuel)%nat ->
  exists cs,
    RangeUnchecked fuel oldestUnknown maxChecked roundCheck kr
    = Done ((Z.min (first_open kr roundCheck
                      (seqZ oldestUnknown (lastChecked kr - oldestUnknown + 1)))
                   (lastChecked kr) + 1, cs), kr).
Proof.
  intros HW Hfu Ho Hl Hm Hf.
  set (s0 := mkScan 0 MaxUint64 []).
  set (newest := Z.max oldestUnknown (firstUnchecked kr)) in *.
  set (rounds := seqZ oldestUnknown (lastChecked kr - oldestUnknown + 1)).
  unfold RangeUnchecked. rewrite (bind_done getS _ kr kr kr eq_refl). fold s0.
  destruct (Z.ltb_spec (lastChecked kr) oldestUnknown); [lia|].
  assert (Hnew : (if firstUnchecked kr <? oldestUnknown
                  then oldestUnknown else firstUnchecked kr) = newest).
  { unfold newest. destruct (Z.ltb_spec (firstUnchecked kr) oldestUnknown); lia. }
  rewrite Hnew.
  destruct (Z.leb_spec (firstUnchecked kr) newest); [|unfold newest in *; lia].
  (* the end of the function, from the earliest round that the loops leave *)
  assert (Hend : forall s2,
            earliestChecked s2 = first_open kr roundCheck rounds ->
            u64 ((if u64 (lastChecked kr + 1) <? earliestChecked s2
                  then lastChecked kr else earliestChecked s2) + 1)
            = Z.min (first_open kr roundCheck rounds) (lastChecked kr) + 1).
  { intros s2 ->. rewrite (u64_id (lastChecked kr + 1)) by (unfold_ints; lia).
    destruct (first_open_range kr roundCheck oldestUnknown
                (lastChecked kr - oldestUnknown + 1)) as [E|E]; fold rounds in E.
    - rewrite E. destruct (Z.ltb_spec (lastChecked kr + 1) MaxUint64); [|lia].
      rewrite Z.min_r by lia. apply u64_id. unfold_ints. lia.
    - destruct (Z.ltb_spec (lastChecked kr + 1) (first_open kr roundCheck rounds)); [lia|].
      rewrite Z.min_l by lia. apply u64_id. unfold_ints. lia. }
  destruct (Z.ltb_spec oldestUnknown (firstUnchecked kr)) as [Hbefore|Hnone].
  - destruct (before_loop_earliest kr (Z.to_nat (firstUnchecked kr - oldestUnknown))
                maxChecked roundCheck oldestUnknown s0
                ltac:(lia) ltac:(unfold_ints; lia) ltac:(simpl; lia) ltac:(simpl; lia)
                ltac:(lia) ltac:(left; reflexivity) ltac:(lia))
      as (s1 & E1 & Hn1 & He1 & Hinv1).
    unfold bind at 1. unfold lift. rewrite E1.
    change (earliestChecked s0) with MaxUint64 in He1. rewrite Z.ltb_irrefl in He1.
    change (numChecked s0) with 0 in Hn1.
    assert (Hnw : newest = firstUnchecked kr) by (unfold newest; lia).
    assert (Hinv : earliestChecked s1 = MaxUint64
                   \/ (earliestChecked s1 < newest /\ earliestChecked s1 < MaxUint64)).
    { rewrite Hnw. destruct Hinv1 as [Hi|Hi]; [auto | right; lia]. }
    destruct (window_loop_earliest fuel kr maxChecked roundCheck newest s1 HW
                ltac:(lia) ltac:(lia) ltac:(lia) ltac:(lia) ltac:(lia) Hinv ltac:(lia))
      as (s2 & E2 & He2).
    rewrite (bind_done _ _ _ _ _ E2). exists (calls s2). unfold ret. do 3 f_equal.
    apply Hend. rewrite He2, He1, Hnw.
    assert (Hsplit : rounds
                     = seqZ oldestUnknown (firstUnchecked kr - oldestUnknown)
                       ++ seqZ (firstUnchecked kr) (lastChecked kr - firstUnchecked kr + 1)).
    { unfold rounds.
      replace (lastChecked kr - oldestUnknown + 1)
        with ((firstUnchecked kr - oldestUnknown) + (lastChecked kr - firstUnchecked kr + 1))
        by lia.
      rewrite seqZ_app by lia. do 2 f_equal. lia. }
    rewrite Hsplit. symmetry. apply first_open_app.
    apply List.Forall_forall. intros j Hj.
    apply list_elem_of_In, elem_of_seqZ in Hj. lia.
  - rewrite (bind_done (ret (Continue s0)) _ kr _ kr eq_refl).
    assert (Hnw : newest = oldestUnknown) by (unfold newest; lia).
    destruct (window_loop_earliest fuel kr maxChecked roundCheck newest s0 HW
                ltac:(lia) ltac:(lia) ltac:(simpl; lia) ltac:(simpl; lia) ltac:(lia)
                ltac:(left; reflexivity) ltac:(lia))
      as (s2 & E2 & He2).
    rewrite (bind_done _ _ _ _ _ E2). exists (calls s2). unfold ret. do 3 f_equal.
    apply Hend. rewrite He2, Hnw. reflexivity.
Qed.

Lemma RangeUnchecked_calls_witness :
  exists r,
    RangeUnchecked 200 70 8 (fun _ => true) test_state
    = Done ((r, [70; 71; 72; 73; 74; 128; 129; 130]), test_state).
Proof.
  apply (RangeUnchecked_calls test_state 200 70 8 (fun _ => true)); by_compute.
Defined.

Lemma RangeUnchecked_result_witness :
  exists cs,
    RangeUnchecked 4 0 10 (fun _ => true) scan_test_state
    = Done ((1, cs), scan_test_state).
Proof.
  apply (RangeUnchecked_result scan_test_state 4 0 10 (fun _ => true)); by_compute.
Defined.

(* ===================================================================== *)
(** ** [Unmarshal]: errors, and a receiver without a buffer *)
(* ===================================================================== *)

(** X23: [Unmarshal] changes nothing when it returns an error: the
    receiver is left as it was.  It returns the error of the JSON
    decoder when the data do not decode, and the size error when the
    receiver has a buffer with fewer words than the data hold. *)
Theorem Unmarshal_errors (data : string) (kr : KnownRounds) :
  (forall e kr', Unmarshal data kr = Done (Some e, kr') -> kr' = kr)
  /\ (Json.Unmarshal data = None -> Unmarshal data kr = Done (Some JsonError, kr))
  /\ (forall dkr stream,
        Json.Unmarshal data = Some dkr ->
        BitBuffer.unmarshal (BitStream dkr) = Done stream ->
        0 < BitBuffer.words (bitStream kr) < BitBuffer.words stream ->
        Unmarshal data kr
        = Done (Some (BufferTooSmall (BitBuffer.words (bitStream kr))
                                     (BitBuffer.words stream)), kr)).
Proof.
  split; [|split].
  - intros e kr'. unfold Unmarshal.
    destruct (Json.Unmarshal data) as [dkr|]; [|intros E; now inversion E].
    unfold bind at 1. unfold lift.
    destruct (BitBuffer.unmarshal (BitStream dkr)) as [stream| |]; try discriminate.
    rewrite (bind_done getS _ kr kr kr eq_refl).
    destruct (BitBuffer.words (bitStream kr) =? 0); [discriminate|].
    destruct (BitBuffer.words stream <=? BitBuffer.words (bitStream kr)); [discriminate|].
    intros E. now inversion E.
  - intros E. unfold Unmarshal. now rewrite E.
  - intros dkr stream Ej Eu Hw. unfold Unmarshal. rewrite Ej.
    unfold bind at 1. unfold lift. rewrite Eu.
    rewrite (bind_done getS _ kr kr kr eq_refl).
    destruct (Z.eqb_spec (BitBuffer.words (bitStream kr)) 0); [lia|].
    destruct (Z.leb_spec (BitBuffer.words stream) (BitBuffer.words (bitStream kr))); [lia|].
    reflexivity.
Qed.

Lemma Unmarshal_errors_witness :
  Unmarshal base64_text (mkKR [0] 0 0 0)
  = Done (Some (BufferTooSmall 1 2), mkKR [0] 0 0 0).
Proof.
  apply (proj2 (proj2 (Unmarshal_errors base64_text (mkKR [0] 0 0 0)))
           (mkDKR (BitBuffer.marshal [MaxUint64; 0]) 75 150) [MaxUint64; 0]).
  - reflexivity.
  - reflexivity.
  - by_compute.
Defined.

Lemma go_copy_self u : go_copy u u = u.
Proof. unfold go_copy. now rewrite firstn_all, skipn_all, app_nil_r. Qed.

Lemma go_copy_zeros u : go_copy (replicate (length u) 0) u = u.
Proof.
  unfold go_copy. rewrite length_replicate, firstn_all.
  rewrite skipn_all2 by (rewrite length_replicate; lia). apply app_nil_r.
Qed.

(** [Unmarshal] into a receiver without a buffer. *)
Lemma Unmarshal_adopts data dkr stream kr2 :
  Json.Unmarshal data = Some dkr ->
  BitBuffer.unmarshal (BitStream dkr) = Done stream ->
  BitBuffer.words (bitStream kr2) = 0 ->
  Unmarshal data kr2
  = Done (None, mkKR stream (FirstUnchecked dkr) (LastChecked dkr)
                     (to_int (FirstUnchecked dkr mod 64))).
Proof.
  intros Ej Eu Hw. unfold Unmarshal. rewrite Ej.
  unfold bind at 1. unfold lift. rewrite Eu.
  rewrite (bind_done getS _ kr2 kr2 kr2 eq_refl). rewrite Hw. simpl.
  unfold bind, modify, ret. simpl. now rewrite go_copy_self.
Qed.

(** X24: a snapshot read into a receiver without a buffer (the wire
    representation): for a state of the data model whose window does not
    wrap into the word in which it starts, [Unmarshal] of the data of
    [Marshal] adopts the words of the snapshot (at least one, at most as
    many as the buffer had) and yields a state equal in
    [firstUnchecked], in [lastChecked] and in [Checked(rid)] for every
    round. *)
Theorem Unmarshal_empty_receiver (kr : KnownRounds) :
  snapshot_ok kr ->
  fuPos kr mod 64 + (lastChecked kr - firstUnchecked kr) < Len kr ->
  exists data,
    Marshal kr = Done (data, kr)
    /\ forall kr2,
         BitBuffer.words (bitStream kr2) = 0 ->
         exists kr2',
           Unmarshal data kr2 = Done (None, kr2')
           /\ 1 <= BitBuffer.words (bitStream kr2') <= BitBuffer.words (bitStream kr)
           /\ firstUnchecked kr2' = firstUnchecked kr
           /\ lastChecked kr2' = lastChecked kr
           /\ forall rid, exists b,
                Checked rid kr = Done (b, kr) /\ Checked rid kr2' = Done (b, kr2').
Proof.
  intros Hs Hfit. pose proof Hs as (HW & Hwf & Hfu & Hl & Hp & Halign & Hord & Hwin).
  assert (exists data stream,
            Marshal kr = Done (data, kr)
            /\ Json.Unmarshal data
               = Some (mkDKR (BitBuffer.marshal stream) (firstUnchecked kr) (lastChecked kr))
            /\ forall kr2,
                 BitBuffer.words stream <= BitBuffer.words (bitStream kr2) < 2 ^ 55 ->
                 exists kr2',
                   Unmarshal data kr2 = Done (None, kr2')
                   /\ firstUnchecked kr2' = firstUnchecked kr
                   /\ lastChecked kr2' = lastChecked kr
                   /\ forall rid, exists b,
                        Checked rid kr = Done (b, kr) /\ Checked rid kr2' = Done (b, kr2'))
    as (data & stream & EM & EJ & Hall).
  { destruct (Z.le_gt_cases (firstUnchecked kr) (lastChecked kr)) as [Hle|Hgt].
    - apply roundtrip_in_order; try assumption. unfold window_ok. tauto.
    - apply roundtrip_empty_window; try assumption; lia. }
  exists data. split; [exact EM|].
  (* the words that [Marshal] wrote *)
  destruct (getBitStreamPos_total kr (firstUnchecked kr) ltac:(lia)) as [p Ep].
  destruct (getBitStreamPos_total kr (lastChecked kr) ltac:(lia)) as [q Eq].
  pose proof (delta_pos (bitStream kr) p q ltac:(lia)) as Hd.
  set (cs := compress (bitStream kr) (fst (BitBuffer.convertLoc (bitStream kr) p))
                      (BitBuffer.delta (bitStream kr) p q)).
  assert (Hcs : BitBuffer.words cs = BitBuffer.delta (bitStream kr) p q)
    by (apply length_compress; lia).
  rewrite (Marshal_eq kr p q Ep Eq) in EM. fold cs in EM.
  rewrite !u64_id in EM by assumption. injection EM as EM.
  assert (EJ' : Json.Unmarshal data
                = Some (mkDKR (BitBuffer.marshal cs) (firstUnchecked kr) (lastChecked kr)))
    by (rewrite <- EM; apply JsonFacts.Unmarshal_Marshal; assumption).
  assert (Hlen : length stream = length cs).
  { rewrite EJ in EJ'. injection EJ' as EJ'.
    apply (f_equal (@length byte)) in EJ'. rewrite !length_marshal in EJ'. lia. }
  assert (Eu : BitBuffer.unmarshal (BitBuffer.marshal cs) = Done cs)
    by (apply unmarshal_marshal, compress_wf, Hwf).
  intros kr2 Hw2.
  destruct (Hall (mkKR (replicate (length cs) 0) 0 0 0)) as (kr2' & E2 & Hf2 & Hl2 & Hc2).
  { simpl. unfold BitBuffer.words in *. rewrite length_replicate, Hlen. lia. }
  rewrite (Unmarshal_fits data _ cs _ EJ' Eu) in E2
    by (simpl; unfold BitBuffer.words in *; rewrite length_replicate; lia).
  simpl in E2. rewrite go_copy_zeros in E2. injection E2 as E2.
  exists kr2'. split; [|split; [|auto]].
  - rewrite (Unmarshal_adopts data _ cs kr2 EJ' Eu Hw2). now rewrite <- E2.
  - rewrite <- E2. simpl. lia.
Qed.

Lemma Unmarshal_empty_receiver_witness :
  let kr := mkKR [0; MaxUint64; 0; 0; 0] 75 150 11 in
  exists data,
    Marshal kr = Done (data, kr)
    /\ forall kr2,
         BitBuffer.words (bitStream kr2) = 0 ->
         exists kr2',
           Unmarshal data kr2 = Done (None, kr2')
           /\ 1 <= BitBuffer.words (bitStream kr2') <= BitBuffer.words (bitStream kr)
           /\ firstUnchecked kr2' = firstUnchecked kr
           /\ lastChecked kr2' = lastChecked kr
           /\ forall rid, exists b,
                Checked rid kr = Done (b, kr) /\ Checked rid kr2' = Done (b, kr2').
Proof.
  apply (Unmarshal_empty_receiver (mkKR [0; MaxUint64; 0; 0; 0] 75 150 11)).
  - unfold snapshot_ok. split; [by_compute|].
    split; [repeat constructor; by_compute|]. by_compute.
  - reflexivity.
Defined.

(** All the words of a buffer, from its first one. *)
Lemma compress_all u : compress u 0 (BitBuffer.words u) = u.
Proof.
  unfold compress, BitBuffer.words. apply list_eq. intros i.
  rewrite list_lookup_fmap.
  destruct (Nat.lt_ge_cases i (length u)) as [Hlt|Hge].
  - rewrite lookup_seqZ_lt by lia. simpl.
    destruct (lookup_lt_is_Some_2 u i Hlt) as [x Hx]. rewrite Hx. f_equal.
    unfold BitBuffer.word_at. rewrite Z.add_0_l, Z.add_0_r.
    rewrite Z.rem_small by lia. rewrite Nat2Z.id.
    rewrite nth_lookup, Hx. reflexivity.
  - rewrite lookup_seqZ_ge by lia. simpl. symmetry. apply lookup_ge_None. lia.
Qed.

(** X25: a snapshot that was read back gives the same snapshot: for a
    state of the data model whose window does not wrap into the word in
    which it starts, [Unmarshal] of the data of [Marshal] into a
    receiver without a buffer yields a state on which [Marshal] returns
    the same data. *)
Theorem Marshal_again (kr : KnownRounds) :
  window_ok kr -> BitBuffer.wf (bitStream kr) ->
  fuPos kr mod 64 = firstUnchecked kr mod 64 ->
  fuPos kr mod 64 + (lastChecked kr - firstUnchecked kr) < Len kr ->
  exists data,
    Marshal kr = Done (data, kr)
    /\ forall kr2,
         BitBuffer.words (bitStream kr2) = 0 ->
         exists kr2',
           Unmarshal data kr2 = Done (None, kr2')
           /\ Marshal kr2' = Done (data, kr2').
Proof.
  intros Hok Hwf Halign Hfit. pose proof Hok as (HW & Hfu & Hl & Hp & Hord & Hwin).
  set (W := BitBuffer.words (bitStream kr)) in *.
  set (o := fuPos kr mod 64) in *.
  set (sb := fuPos kr / 64).
  set (n := lastChecked kr - firstUnchecked kr) in *.
  set (m := (o + n) / 64).
  assert (HL : Len kr = 64 * W) by (unfold Len; lia).
  assert (Hcap : BitBuffer.cap (bitStream kr) = Len kr) by (symmetry; apply Len_cap).
  assert (Ho : 0 <= o < 64) by (apply Z.mod_pos_bound; lia).
  assert (Hfp : fuPos kr = 64 * sb + o) by (apply Z.div_mod; lia).
  assert (Hsb : 0 <= sb < W) by (subst sb; Z.div_mod_to_equations; lia).
  assert (Hm : 0 <= m < W) by (subst m; Z.div_mod_to_equations; lia).
  assert (Hmn : o + n < 64 * (m + 1)) by (subst m; Z.div_mod_to_equations; lia).
  (* the snapshot of [kr] *)
  assert (Ep : getBitStreamPos kr (firstUnchecked kr) = Done (fuPos kr)).
  { rewrite getBitStreamPos_pos by (try assumption; lia). now rewrite window_pos_first. }
  assert (Eq : getBitStreamPos kr (lastChecked kr) = Done ((fuPos kr + n) mod Len kr))
    by (apply getBitStreamPos_pos; try assumption; lia).
  assert (Hblock : forall k, 0 <= k ->
            BitBuffer.convertLoc (bitStream kr) ((fuPos kr + k) mod Len kr)
            = ((sb + (o + k) / 64) mod W, (o + k) mod 64)).
  { intros k Hk. rewrite <- Hcap, convertLoc_mod by lia. fold W.
    f_equal; [f_equal|]; rewrite Hfp; Z.div_mod_to_equations; lia. }
  assert (Hstart : BitBuffer.convertLoc (bitStream kr) (fuPos kr) = (sb, o)).
  { pose proof (Hblock 0 ltac:(lia)) as H.
    rewrite !Z.add_0_r, (Z.mod_small (fuPos kr)) in H by lia. rewrite H.
    f_equal; [|apply Z.mod_small; lia].
    rewrite (Z.div_small o) by lia. rewrite Z.add_0_r. apply Z.mod_small. lia. }
  assert (Hdelta : BitBuffer.delta (bitStream kr) (fuPos kr) ((fuPos kr + n) mod Len kr)
                   = m + 1).
  { unfold BitBuffer.delta. rewrite Hstart, (Hblock n) by lia. simpl. fold W. fold m.
    rewrite Zminus_mod_idemp_l. replace (sb + m - sb) with m by lia.
    rewrite Z.mod_small by lia. reflexivity. }
  set (stream := compress (bitStream kr) sb (m + 1)).
  assert (Hwords : BitBuffer.words stream = m + 1) by (apply length_compress; lia).
  set (dkr := mkDKR (BitBuffer.marshal stream) (firstUnchecked kr) (lastChecked kr)).
  assert (EM : Marshal kr = Done (Json.Marshal dkr, kr)).
  { rewrite (Marshal_eq kr _ _ Ep Eq), Hstart, Hdelta. simpl.
    now rewrite !u64_id by assumption. }
  exists (Json.Marshal dkr). split; [exact EM|]. intros kr2 Hw2.
  assert (Hfp2 : to_int (firstUnchecked kr mod 64) = o).
  { rewrite <- Halign. fold o. apply to_int_small. unfold_ints. lia. }
  set (kr2' := mkKR stream (firstUnchecked kr) (lastChecked kr) o).
  exists kr2'. split.
  - rewrite (Unmarshal_adopts _ dkr stream kr2); try assumption.
    + simpl. now rewrite Hfp2.
    + apply JsonFacts.Unmarshal_Marshal; assumption.
    + apply unmarshal_marshal, compress_wf, Hwf.
  - (* the snapshot of the state that was read back *)
    assert (Hok2 : window_ok kr2').
    { unfold window_ok, Len, kr2'. simpl. rewrite Hwords. fold n. repeat split; try lia;
        try apply Hfu; try apply Hl. }
    assert (HL2 : Len kr2' = 64 * (m + 1)) by (unfold Len, kr2'; simpl; lia).
    assert (Ep2 : getBitStreamPos kr2' (firstUnchecked kr) = Done o).
    { rewrite (getBitStreamPos_pos kr2') by (try assumption; simpl; lia).
      f_equal. unfold window_pos. change (fuPos kr2') with o.
      change (firstUnchecked kr2') with (firstUnchecked kr).
      rewrite Z.sub_diag, Z.add_0_r, HL2. apply Z.mod_small. lia. }
    assert (Eq2 : getBitStreamPos kr2' (lastChecked kr) = Done (o + n)).
    { rewrite (getBitStreamPos_pos kr2') by (try assumption; simpl; lia).
      f_equal. unfold window_pos. change (fuPos kr2') with o.
      change (firstUnchecked kr2') with (firstUnchecked kr). fold n.
      rewrite HL2. apply Z.mod_small. lia. }
    assert (Hcap2 : BitBuffer.cap stream = 64 * (m + 1))
      by (unfold BitBuffer.cap; lia).
    assert (Hstart2 : BitBuffer.convertLoc stream o = (0, o)).
    { unfold BitBuffer.convertLoc. rewrite Hcap2, (Z.mod_small o) by lia.
      f_equal; [apply Z.div_small | apply Z.mod_small]; lia. }
    assert (Hend2 : fst (BitBuffer.convertLoc stream (o + n)) = m).
    { unfold BitBuffer.convertLoc. rewrite Hcap2, (Z.mod_small (o + n)) by lia.
      reflexivity. }
    assert (Hdelta2 : BitBuffer.delta stream o (o + n) = m + 1).
    { unfold BitBuffer.delta. rewrite Hstart2, Hend2, Hwords. simpl.
      rewrite Z.sub_0_r, Z.mod_small by lia. reflexivity. }
    rewrite (Marshal_eq kr2' o (o + n) Ep2 Eq2).
    change (bitStream kr2') with stream. rewrite Hstart2, Hdelta2. simpl fst.
    rewrite <- Hwords, compress_all.
    change (firstUnchecked kr2') with (firstUnchecked kr).
    change (lastChecked kr2') with (lastChecked kr).
    now rewrite !u64_id by assumption.
Qed.

Lemma Marshal_again_witness :
  let kr := mkKR [0; MaxUint64; 0; 0; 0] 75 150 11 in
  exists data,
    Marshal kr = Done (data, kr)
    /\ forall kr2,
         BitBuffer.words (bitStream kr2) = 0 ->
         exists kr2',
           Unmarshal data kr2 = Done (None, kr2')
           /\ Marshal kr2' = Done (data, kr2').
Proof.
  apply (Marshal_again (mkKR [0; MaxUint64; 0; 0; 0] 75 150 11)).
  - unfold window_ok. by_compute.
  - repeat constructor; by_compute.
  - reflexivity.
  - reflexivity.
Defined.

(* ===================================================================== *)
(** ** The masked scan *)
(* ===================================================================== *)

(** On a state of the data model a round that reads as checked is not
    after [lastChecked]. *)
Lemma status_true_le kr r : window_ok kr -> status kr r = true -> r <= lastChecked kr.
Proof.
  intros (HW & Hfu & Hl & Hp & Hord & Hwin). unfold status.
  destruct (Z.ltb_spec r (firstUnchecked kr)); [lia|].
  destruct (Z.ltb_spec (lastChecked kr) r); [discriminate | lia].
Qed.

(** The second loop of the masked scan, when [roundCheck] accepts every
    round it is asked about and the budget covers the range: every round
    of the range ends up checked. *)
Lemma tail_loop_checks fuel : forall f stop m first i n kr,
  window_ok kr -> 0 <= first <= i -> stop <= two63 ->
  i - lastChecked kr < Len kr ->
  0 <= n -> stop - i <= m - n -> m < two63 ->
  (forall j, i <= j < stop -> f j = true) ->
  (forall j, first <= j < i -> status kr j = true) ->
  (Z.to_nat (stop - i) <= fuel)%nat ->
  exists kr',
    tail_loop fuel f stop m i n kr = Done (tt, kr')
    /\ window_ok kr'
    /\ forall j, first <= j < Z.max i stop -> status kr' j = true.
Proof.
  induction fuel as [|fuel IH]; intros f stop m first i n kr Hok Hi Hstop Hsc Hn Hb Hm Hf Hdone Hfuel.
  - assert (stop <= i) by lia. exists kr. simpl.
    destruct (Z.ltb_spec i stop); [lia|]. simpl.
    split; [reflexivity|]. split; [assumption|].
    intros j Hj. apply Hdone. lia.
  - simpl. destruct (Z.ltb_spec i stop) as [Hin|Hout]; simpl.
    + destruct (Z.ltb_spec n m); [|lia].
      pose proof Hok as (HW & Hfu & Hl & Hp & Hord & Hwin).
      pose proof (window_ok_Len kr Hok) as HL.
      rewrite (bind_done _ _ _ _ _ (Checked_status kr i Hok)).
      rewrite (Hf i ltac:(lia)), andb_true_r.
      rewrite (u64_id (i + 1)) by (unfold_ints; lia).
      rewrite (i64_id (n + 1)) by (unfold_ints; lia).
      destruct (status kr i) eqn:Hs; cbn [negb].
      * rewrite (bind_done (ret tt) _ kr tt kr eq_refl).
        pose proof (status_true_le kr i Hok Hs).
        destruct (IH f stop m first (i + 1) (n + 1) kr Hok) as (kr' & E & Hok' & Hall);
          try lia.
        { intros j Hj. apply Hf. lia. }
        { intros j Hj. destruct (Z.eq_dec j i) as [->|]; [exact Hs | apply Hdone; lia]. }
        exists kr'. split; [exact E|]. split; [assumption|].
        intros j Hj. apply Hall. lia.
      * assert (Hge : firstUnchecked kr <= i).
        { destruct (Z.lt_ge_cases i (firstUnchecked kr)); [|assumption].
          rewrite status_below in Hs by assumption. discriminate. }
        destruct (check_effect kr i Hok ltac:(unfold_ints; lia) ltac:(unfold_ints; lia)
                    ltac:(lia))
          as (kr1 & E1 & Hok1 & Hw1 & _ & Hl1 & Hs1 & Hframe & Hlap & Hex).
        assert (Ec : Check i kr = Done (tt, kr1)).
        { rewrite Check_near; [exact E1 | lia | assumption | unfold_ints; lia | lia]. }
        rewrite (bind_done _ _ _ _ _ Ec).
        pose proof (status_true_le kr1 i Hok1 Hs1).
        assert (HL1 : Len kr1 = Len kr) by (unfold Len; now rewrite Hw1).
        destruct (IH f stop m first (i + 1) (n + 1) kr1 Hok1) as (kr' & E & Hok' & Hall);
          try lia.
        { intros j Hj. apply Hf. lia. }
        { intros j Hj. destruct (Z.eq_dec j i) as [->|Hne]; [exact Hs1|].
          destruct (Z.lt_trichotomy (i - firstUnchecked kr) (Len kr)) as [Hno|[Heq|Hgt]].
          - rewrite (Hframe Hno j Hne). apply Hdone. lia.
          - destruct (Hex ltac:(lia)) as [Hf1 _]. apply status_below. lia.
          - destruct (Hlap ltac:(lia)) as [Hf1 _]. apply status_below. lia. }
        exists kr'. split; [exact E|]. split; [assumption|].
        intros j Hj. apply Hall. lia.
    + exists kr. split; [reflexivity|]. split; [assumption|].
      intros j Hj. apply Hdone. lia.
Qed.

(** X26: [RangeUncheckedMaskedRange] with a mask whose window is one
    round ([firstUnchecked = lastChecked]): when [roundCheck] accepts
    every round of the range from [max(start, firstUnchecked)] to
    [min(end, mask.firstUnchecked) - 1], the range starts less than the
    capacity after [lastChecked] and the budget covers it, the scan
    returns, leaves the mask as it was, and every round of the range is
    checked afterwards. *)
Theorem masked_scan_checks_range (kr mask : KnownRounds) (roundCheck : Z -> bool)
    (start stop maxChecked : Z) :
  window_ok kr -> firstUnchecked mask = lastChecked mask ->
  let first := Z.max start (firstUnchecked kr) in
  let last := Z.min stop (firstUnchecked mask) in
  last <= two63 -> first - lastChecked kr < Len kr ->
  last - first <= maxChecked < two63 ->
  (forall i, first <= i < last -> roundCheck i = true) ->
  exists kr',
    RangeUncheckedMaskedRange roundCheck start stop maxChecked (kr, mask)
    = Done (tt, (kr', mask))
    /\ forall i, first <= i < last -> Checked i kr' = Done (true, kr').
Proof.
  intros Hok Hmask first last Hlast Hsc Hm Hf.
  pose proof Hok as (HW & Hfu & Hl & Hp & Hord & Hwin).
  unfold RangeUncheckedMaskedRange.
  destruct (Z.eqb_spec (firstUnchecked mask) (lastChecked mask)); [|contradiction].
  cbn [negb obind].
  assert (E1 : (if start <? firstUnchecked kr then firstUnchecked kr else start) = first)
    by (unfold first; destruct (Z.ltb_spec start (firstUnchecked kr)); lia).
  assert (E2 : (if firstUnchecked mask <? stop then firstUnchecked mask else stop) = last)
    by (unfold last; destruct (Z.ltb_spec (firstUnchecked mask) stop); lia).
  rewrite E1, E2, Z.sub_0_r.
  assert (H0 : 0 <= first <= first) by (unfold first; unfold in_u64 in Hfu; lia).
  destruct (tail_loop_checks (Z.to_nat maxChecked) roundCheck last maxChecked
              first first 0 kr Hok H0 Hlast Hsc ltac:(lia) ltac:(lia) ltac:(lia) Hf
              ltac:(intros; lia) ltac:(lia))
    as (kr' & E & Hok' & Hall).
  rewrite E. cbn [obind]. exists kr'. split; [reflexivity|].
  intros i Hi. rewrite Checked_status by assumption.
  rewrite Hall by lia. reflexivity.
Qed.

Lemma masked_scan_checks_range_witness :
  exists kr',
    RangeUncheckedMaskedRange (fun _ => true) 0 MaxUint64 100
      (test_state, mkKR [0] 130 130 2)
    = Done (tt, (kr', mkKR [0] 130 130 2))
    /\ forall i, 75 <= i < 130 -> Checked i kr' = Done (true, kr').
Proof.
  apply (masked_scan_checks_range test_state (mkKR [0] 130 130 2) (fun _ => true)
           0 MaxUint64 100).
  - unfold window_ok. by_compute.
  - reflexivity.
  - by_compute.
  - by_compute.
  - by_compute.
  - reflexivity.
Defined.

(** X27: [RangeUncheckedMaskedRange] marks rounds with the strict
    [Check]: with a mask whose window is one round, when the first round
    of the range is a capacity or more after [lastChecked] and
    [roundCheck] accepts it, the scan fails fatally with the
    out-of-scope panic. *)
Theorem masked_scan_out_of_scope (kr mask : KnownRounds) (roundCheck : Z -> bool)
    (start stop maxChecked : Z) :
  window_ok kr -> firstUnchecked mask = lastChecked mask ->
  let first := Z.max start (firstUnchecked kr) in
  let last := Z.min stop (firstUnchecked mask) in
  first < last -> first < two63 ->
  Len kr <= first - lastChecked kr ->
  1 <= maxChecked ->
  roundCheck first = true ->
  RangeUncheckedMaskedRange roundCheck start stop maxChecked (kr, mask)
  = Panic OutOfScope.
Proof.
  intros Hok Hmask first last Hlt Hhalf Hfar Hm Hf.
  pose proof Hok as (HW & Hfu & Hl & Hp & Hord & Hwin).
  pose proof (window_ok_Len kr Hok) as HL.
  unfold RangeUncheckedMaskedRange.
  destruct (Z.eqb_spec (firstUnchecked mask) (lastChecked mask)); [|contradiction].
  cbn [negb obind].
  assert (E1 : (if start <? firstUnchecked kr then firstUnchecked kr else start) = first)
    by (unfold first; destruct (Z.ltb_spec start (firstUnchecked kr)); lia).
  assert (E2 : (if firstUnchecked mask <? stop then firstUnchecked mask else stop) = last)
    by (unfold last; destruct (Z.ltb_spec (firstUnchecked mask) stop); lia).
  rewrite E1, E2, Z.sub_0_r.
  destruct (Z.to_nat maxChecked) as [|fuel] eqn:Efuel; [lia|].
  cbn [tail_loop].
  destruct (Z.ltb_spec first last); [|lia].
  destruct (Z.ltb_spec 0 maxChecked); [|lia]. cbn [andb].
  rewrite (bind_done _ _ _ _ _ (Checked_status kr first Hok)).
  rewrite status_above by lia. rewrite Hf. cbn [negb andb].
  assert (Ec : Check first kr = Panic OutOfScope).
  { unfold Check.
    rewrite (bind_done _ _ _ _ _
               (out_of_scope_distance kr first ltac:(lia) Hl
                  ltac:(unfold in_u64 in *; unfold_ints; lia)
                  ltac:(unfold in_u64 in *; lia))).
    destruct (Z.leb_spec (Len kr) (Z.abs (lastChecked kr - first))); [reflexivity | lia]. }
  unfold bind at 1. rewrite Ec. reflexivity.
Qed.

Lemma masked_scan_out_of_scope_witness :
  RangeUncheckedMaskedRange (fun _ => true) 100 MaxUint64 10
    (mkKR [0] 0 0 0, mkKR [0] 1000 1000 40)
  = Panic OutOfScope.
Proof.
  apply (masked_scan_out_of_scope (mkKR [0] 0 0 0) (mkKR [0] 1000 1000 40)
           (fun _ => true) 100 MaxUint64 10).
  - unfold window_ok. by_compute.
  - reflexivity.
  - by_compute.
  - by_compute.
  - by_compute.
  - by_compute.
  - reflexivity.
Defined.

(** [subSample] returns on a buffer of at least one word, in the state
    it was given. *)
Lemma subSample_total start stop kr :
  1 <= BitBuffer.words (bitStream kr) ->
  exists sub d, subSample start stop kr = Done ((sub, d), kr).
Proof.
  intros HW. unfold subSample. rewrite (bind_done getS _ kr kr kr eq_refl).
  destruct (getBitStreamPos_total kr start HW) as [p1 E1].
  destruct (getBitStreamPos_total kr stop HW) as [p2 E2].
  rewrite (bind_done _ _ _ _ _ (bitPos_done _ _ _ E1)).
  rewrite (bind_done _ _ _ _ _ (bitPos_done _ _ _ E2)).
  destruct (lastChecked kr <? start); [eexists; eexists; reflexivity|].
  rewrite (bind_done _ _ _ _ _ (bitPos_done _ _ _ E1)).
  destruct (getBitStreamPos_total kr
              (u64 ((if lastChecked kr <? stop then lastChecked kr else stop) + 1)) HW)
    as [q2 E3].
  rewrite (bind_done _ _ _ _ _ (bitPos_done _ _ _ E3)).
  eexists. eexists. reflexivity.
Qed.

(** X28: [RangeUncheckedMaskedRange] with a budget that is not positive
    leaves the receiver as it was, yet a mask whose cursors differ is
    still moved forward to the receiver's [firstUnchecked]. *)
Theorem masked_scan_no_budget (kr mask mask1 : KnownRounds) (roundCheck : Z -> bool)
    (start stop maxChecked : Z) :
  1 <= BitBuffer.words (bitStream kr) -> maxChecked <= 0 ->
  firstUnchecked mask <> lastChecked mask ->
  Forward (firstUnchecked kr) mask = Done (tt, mask1) ->
  RangeUncheckedMaskedRange roundCheck start stop maxChecked (kr, mask)
  = Done (tt, (kr, mask1)).
Proof.
  intros HW Hm Hne Ef. unfold RangeUncheckedMaskedRange.
  destruct (Z.eqb_spec (firstUnchecked mask) (lastChecked mask)); [contradiction|].
  cbn [negb]. unfold bind2 at 1. unfold on_mask. rewrite Ef. cbn [obind].
  unfold bind2, on_self.
  destruct (subSample_total (firstUnchecked mask1) (lastChecked mask1) kr HW)
    as (sub & d & Es).
  rewrite Es. cbn [obind].
  replace (Z.to_nat maxChecked) with 0%nat by lia. cbn [mask_loop].
  destruct (Z.ltb_spec 0 maxChecked); [lia|]. rewrite andb_false_r. cbn [obind].
  replace (Z.to_nat (maxChecked - 0)) with 0%nat by lia. cbn [tail_loop].
  destruct (Z.ltb_spec 0 maxChecked); [lia|]. rewrite andb_false_r. reflexivity.
Qed.

Lemma masked_scan_no_budget_witness :
  RangeUncheckedMaskedRange (fun _ => true) 0 MaxUint64 0
    (test_state, mkKR [0; 0; 0; 0; 0] 10 300 10)
  = Done (tt, (test_state, mkKR [0; 0; 0; 0; 0] 75 300 75)).
Proof.
  apply (masked_scan_no_budget test_state (mkKR [0; 0; 0; 0; 0] 10 300 10)).
  - by_compute.
  - lia.
  - by_compute.
  - reflexivity.
Defined.
